(** * The YAML-to-PostgreSQL movie loader (load_data.py)

    A shallow embedding of [load_yaml_file] and [main]: the parsed document,
    the five tables, the SQL statements the loader issues, the database
    session with its open transaction, and the batch loop with its
    [try]/[except]. *)

From Stdlib Require Import List String Ascii Arith PeanoNat Bool Lia Permutation.
From Stdlib Require Import Sorted.
Import ListNotations.
Local Open Scope string_scope.
Local Open Scope list_scope.
Local Open Scope nat_scope.

Set Implicit Arguments.

(* ================================================================== *)
(** ** Dates: [datetime.strptime(s, '%d %B %Y').date()] *)

Module Strptime.

Record date := mkDate { year : nat; month : nat; day : nat }.

(** This module is [strptime] on ASCII text, in the C locale (English
    month names); a text that holds a character beyond ASCII is not
    parsed here (see [datetime_strptime]).  A text is given by the bytes
    of its UTF-8 encoding: it is ASCII when every byte is below 128. *)
Definition is_ascii (s : string) : bool :=
  forallb (fun a => nat_of_ascii a <? 128) (list_ascii_of_string s).

(** [\s] of the format's regular expression, on ASCII: the characters
    below 128 for which [str.isspace] holds. *)
Definition is_space (a : ascii) : bool :=
  let n := nat_of_ascii a in
  ((9 <=? n) && (n <=? 13)) || ((28 <=? n) && (n <=? 32)).

(** [\d] on ASCII, with the value [int] gives the digit. *)
Definition digit (a : ascii) : option nat :=
  let n := nat_of_ascii a in
  if (48 <=? n) && (n <=? 57) then Some (n - 48) else None.

Definition lower (a : ascii) : ascii :=
  let n := nat_of_ascii a in
  if (65 <=? n) && (n <=? 90) then ascii_of_nat (n + 32) else a.

Definition in_range (lo hi : nat) (a : ascii) : option nat :=
  match digit a with
  | Some d => if (lo <=? d) && (d <=? hi) then Some d else None
  | None => None
  end.

(** The alternatives of [%d], in the order of the regular expression
    [3[0-1]|[1-2]\d|0[1-9]|[1-9]| [1-9]]: each gives the day and the
    rest of the text when it matches. *)
Definition d_alternatives (s : list ascii) : list (option (nat * list ascii)) :=
  match s with
  | [] => []
  | c1 :: tl =>
    let two (lo1 hi1 lo2 hi2 : nat) :=
        match in_range lo1 hi1 c1, tl with
        | Some a, c2 :: rest =>
          match in_range lo2 hi2 c2 with
          | Some b => Some (10 * a + b, rest)
          | None => None
          end
        | _, _ => None
        end in
    [ two 3 3 0 1;
      two 1 2 0 9;
      two 0 0 1 9;
      match in_range 1 9 c1 with Some a => Some (a, tl) | None => None end;
      match tl with
      | c2 :: rest =>
        if Ascii.eqb c1 " "%char
        then match in_range 1 9 c2 with Some b => Some (b, rest) | None => None end
        else None
      | [] => None
      end ]
  end.

(** [\s+]: at least one space character, then as many as follow. *)
Fixpoint skip_spaces (s : list ascii) : list ascii :=
  match s with
  | c :: tl => if is_space c then skip_spaces tl else s
  | [] => []
  end.

Definition spaces1 (s : list ascii) : option (list ascii) :=
  match s with
  | c :: tl => if is_space c then Some (skip_spaces tl) else None
  | [] => None
  end.

Fixpoint strip_prefix_ci (p s : list ascii) : option (list ascii) :=
  match p, s with
  | [], _ => Some s
  | a :: p', b :: s' =>
    if Ascii.eqb a (lower b) then strip_prefix_ci p' s' else None
  | _ :: _, [] => None
  end.

Definition month_names : list string :=
  [ "january"; "february"; "march"; "april"; "may"; "june"; "july";
    "august"; "september"; "october"; "november"; "december" ].

(** [%B]: the month whose name starts the text, with its number. *)
Fixpoint match_B (names : list string) (n : nat) (s : list ascii)
  : option (nat * list ascii) :=
  match names with
  | [] => None
  | nm :: rest =>
    match strip_prefix_ci (list_ascii_of_string nm) s with
    | Some tl => Some (n, tl)
    | None => match_B rest (S n) s
    end
  end.

(** [%Y] is [\d\d\d\d]; nothing may remain after it. *)
Definition match_Y_end (s : list ascii) : option nat :=
  match s with
  | [a; b; c; d] =>
    match digit a, digit b, digit c, digit d with
    | Some a, Some b, Some c, Some d => Some (1000 * a + 100 * b + 10 * c + d)
    | _, _, _, _ => None
    end
  | _ => None
  end.

Definition is_leap (y : nat) : bool :=
  ((y mod 4 =? 0) && negb (y mod 100 =? 0)) || (y mod 400 =? 0).

Definition days_in_month (y m : nat) : nat :=
  match m with
  | 2 => if is_leap y then 29 else 28
  | 4 | 6 | 9 | 11 => 30
  | _ => 31
  end.

(** What follows the day in the regular expression: spaces, month,
    spaces, year, end of text.  Gives the groups (d, B, Y). *)
Definition after_day (d_rest : nat * list ascii) : option (nat * nat * nat) :=
  let (d, rest) := d_rest in
  match spaces1 rest with
  | None => None
  | Some r1 =>
    match match_B month_names 1 r1 with
    | None => None
    | Some (m, r2) =>
      match spaces1 r2 with
      | None => None
      | Some r3 =>
        match match_Y_end r3 with
        | None => None
        | Some y => Some (d, m, y)
        end
      end
    end
  end.

(** The alternation backtracks: the first alternative after which the
    rest of the expression matches. *)
Fixpoint first_match (alts : list (option (nat * list ascii)))
  : option (nat * nat * nat) :=
  match alts with
  | [] => None
  | None :: tl => first_match tl
  | Some x :: tl =>
    match after_day x with
    | Some r => Some r
    | None => first_match tl
    end
  end.

(** [strptime] on an ASCII text.  [None] stands for its [ValueError]: the
    text does not match, or the date does not exist (year 0, a day the
    month lacks). *)
Definition strptime (s : string) : option date :=
  match first_match (d_alternatives (list_ascii_of_string s)) with
  | None => None
  | Some (d, m, y) =>
    if (1 <=? y) && (1 <=? d) && (d <=? days_in_month y m)
    then Some (mkDate y m d) else None
  end.

(** A library that refuses every text beyond ASCII: one of the behaviours
    the development is parametric in, taken to run the examples, whose
    dates are ASCII. *)
Definition refuse (s : string) : option date := None.

End Strptime.


(* ================================================================== *)
(** ** The parsed document: what [yaml.safe_load] hands to the loader *)

(** A mapping the loader subscripts with a fixed key is a record whose
    field is [None] when the key is absent (the subscript then raises
    [KeyError]); a mapping it iterates is a list of pairs in document
    order, as a Python [dict] keeps them. *)
Module Yaml.

Record Metadata := mkMetadata {
  movie_name : option string;
  release_date : option string;
  director : option string;
  producer : option string;
  music_director : option string;
  lyricist : option string;
  cast : option (list string)
}.

Record Document := mkDocument {
  metadata : option Metadata;
  songs_order : option (list string);
  commentary_type : option string;
  commentaries : option (list (string * list (string * string)))
}.

(** A file of [yaml_directory]: its name and what parsing it yields
    ([None]: it cannot be opened or is not YAML). *)
Record File := mkFile {
  path : string;
  content : option Document
}.

End Yaml.

(* ================================================================== *)
(** ** Python dictionaries in insertion order *)

Section Dict.
Variable V : Type.

Definition dict := list (string * V).

Fixpoint dict_get (k : string) (d : dict) : option V :=
  match d with
  | [] => None
  | (k', v) :: tl => if String.eqb k' k then Some v else dict_get k tl
  end.

Definition dict_in (k : string) (d : dict) : bool :=
  match dict_get k d with Some _ => true | None => false end.

(** [d[k] = v]: a known key keeps its place and takes the new value, a new
    key goes last. *)
Fixpoint dict_set (k : string) (v : V) (d : dict) : dict :=
  match d with
  | [] => [(k, v)]
  | (k', v') :: tl =>
    if String.eqb k' k then (k', v) :: tl else (k', v') :: dict_set k v tl
  end.

Definition keys (d : dict) : list string := map fst d.

End Dict.

(** [enumerate(l, start=1)] *)
Definition enumerate1 (A : Type) (l : list A) : list (nat * A) :=
  combine (seq 1 (List.length l)) l.

(* ================================================================== *)
(** ** The tables *)

Module Movies.
Record row := mk {
  movie_id : nat;
  movie_name : string;
  release_date : Strptime.date;
  director : string;
  producer : string;
  music_director : string;
  lyricist : string
}.
End Movies.

Module CastMembers.
Record row := mk { cast_id : nat; cast_name : string }.
End CastMembers.

Module MovieCast.
Record row := mk { movie_id : nat; cast_id : nat }.
End MovieCast.

Module Songs.
Record row := mk {
  song_id : nat;
  movie_id : nat;
  song_name : string;
  song_order : nat
}.
End Songs.

Module Commentaries.
Record row := mk {
  commentary_id : nat;
  movie_id : nat;
  song_id : option nat;
  commentary_type : string;
  language : string;
  commentary_text : string
}.
End Commentaries.

(** The rows of each table, oldest first. *)
Record DB := mkDB {
  movies : list Movies.row;
  cast_members : list CastMembers.row;
  movie_cast : list MovieCast.row;
  songs : list Songs.row;
  commentaries : list Commentaries.row
}.

Definition empty_db : DB := mkDB [] [] [] [] [].

(** Modelled from the spec: the schema (setup_database.sql) is not among
    the sources.  Every table has a generated surrogate key; here the
    generator yields a key above all keys of the table. *)
Definition fresh (ids : list nat) : nat := S (list_max ids).

(* ================================================================== *)
(** ** The SQL statements of the loader, on the rows *)

(** Modelled from the spec: the uniqueness constraints against which
    [ON CONFLICT] fires are those of the data model: movie name, cast
    member name, the (movie, cast) pair, the (movie, song name) pair. *)
Module Sql.

Definition movie_named (name : string) (r : Movies.row) : bool :=
  String.eqb (Movies.movie_name r) name.

Definition cast_named (name : string) (r : CastMembers.row) : bool :=
  String.eqb (CastMembers.cast_name r) name.

Definition is_pair (movie_id cast_id : nat) (r : MovieCast.row) : bool :=
  (MovieCast.movie_id r =? movie_id) && (MovieCast.cast_id r =? cast_id).

Definition is_song (movie_id : nat) (name : string) (r : Songs.row) : bool :=
  (Songs.movie_id r =? movie_id) && String.eqb (Songs.song_name r) name.

(** INSERT INTO movies (...) VALUES (...) ON CONFLICT DO NOTHING
    RETURNING movie_id; then [fetchone()]. *)
Definition insert_movie (name : string) (rd : Strptime.date)
           (dir prod md lyr : string) (db : DB) : option nat * DB :=
  if existsb (movie_named name) (movies db) then (None, db)
  else
    let id := fresh (map Movies.movie_id (movies db)) in
    (Some id,
     mkDB (movies db ++ [Movies.mk id name rd dir prod md lyr])
          (cast_members db) (movie_cast db) (songs db) (commentaries db)).

(** SELECT movie_id FROM movies WHERE movie_name = %s; [fetchone()]. *)
Definition select_movie_id (name : string) (db : DB) : option nat * DB :=
  (option_map Movies.movie_id (find (movie_named name) (movies db)), db).

(** INSERT INTO cast_members (cast_name) VALUES (%s)
    ON CONFLICT DO NOTHING *)
Definition insert_cast_member (name : string) (db : DB) : unit * DB :=
  if existsb (cast_named name) (cast_members db) then (tt, db)
  else
    let id := fresh (map CastMembers.cast_id (cast_members db)) in
    (tt,
     mkDB (movies db) (cast_members db ++ [CastMembers.mk id name])
          (movie_cast db) (songs db) (commentaries db)).

(** SELECT cast_id FROM cast_members WHERE cast_name = %s; [fetchone()]. *)
Definition select_cast_id (name : string) (db : DB) : option nat * DB :=
  (option_map CastMembers.cast_id (find (cast_named name) (cast_members db)), db).

(** INSERT INTO movie_cast (movie_id, cast_id) VALUES (%s, %s)
    ON CONFLICT DO NOTHING *)
Definition insert_movie_cast (movie_id cast_id : nat) (db : DB) : unit * DB :=
  if existsb (is_pair movie_id cast_id) (movie_cast db) then (tt, db)
  else
    (tt,
     mkDB (movies db) (cast_members db)
          (movie_cast db ++ [MovieCast.mk movie_id cast_id])
          (songs db) (commentaries db)).

Definition set_order (movie_id : nat) (name : string) (idx : nat)
           (r : Songs.row) : Songs.row :=
  if is_song movie_id name r
  then Songs.mk (Songs.song_id r) (Songs.movie_id r) (Songs.song_name r) idx
  else r.

(** INSERT INTO songs (movie_id, song_name, song_order) VALUES (...)
    ON CONFLICT (movie_id, song_name)
    DO UPDATE SET song_order = EXCLUDED.song_order
    RETURNING song_id; then [fetchone()]. *)
Definition upsert_song (movie_id : nat) (name : string) (idx : nat)
           (db : DB) : option nat * DB :=
  match find (is_song movie_id name) (songs db) with
  | Some r =>
    (Some (Songs.song_id r),
     mkDB (movies db) (cast_members db) (movie_cast db)
          (map (set_order movie_id name idx) (songs db)) (commentaries db))
  | None =>
    let id := fresh (map Songs.song_id (songs db)) in
    (Some id,
     mkDB (movies db) (cast_members db) (movie_cast db)
          (songs db ++ [Songs.mk id movie_id name idx]) (commentaries db))
  end.

(** INSERT INTO commentaries (movie_id, song_id, commentary_type,
    language, commentary_text) VALUES (...) *)
Definition insert_commentary (movie_id : nat) (song_id : option nat)
           (ctype lang text : string) (db : DB) : unit * DB :=
  let id := fresh (map Commentaries.commentary_id (commentaries db)) in
  (tt,
   mkDB (movies db) (cast_members db) (movie_cast db) (songs db)
        (commentaries db
           ++ [Commentaries.mk id movie_id song_id ctype lang text])).

End Sql.

(* ================================================================== *)
(** ** The read side: class [MovieDatabase] of example_usage.py *)

(** [ORDER BY key]: the rows in an order of non-decreasing key; which of
    two rows of equal key comes first is left to the store. *)
Definition ordered_by (A : Type) (key : A -> nat) (rows result : list A)
  : Prop :=
  Permutation rows result /\ Sorted (fun a b => key a <= key b) result.

Module MovieDatabase.

(** Lines 38-42: the rows of [songs JOIN movies ON s.movie_id = m.movie_id
    WHERE m.movie_name = %s], with the columns [song_name], [song_order]. *)
Definition movie_songs_rows (movie_name : string) (db : DB)
  : list (string * nat) :=
  flat_map
    (fun s =>
       flat_map
         (fun m =>
            if (Songs.movie_id s =? Movies.movie_id m)
               && String.eqb (Movies.movie_name m) movie_name
            then [(Songs.song_name s, Songs.song_order s)]
            else [])
         (movies db))
    (songs db).

(** [get_movie_songs] (lines 36-48): [result] is a list the method can
    return, the rows above ordered by [song_order]. *)
Definition get_movie_songs (movie_name : string) (db : DB)
           (result : list (string * nat)) : Prop :=
  ordered_by snd (movie_songs_rows movie_name db) result.

Definition is_null (A : Type) (o : option A) : bool :=
  match o with None => true | Some _ => false end.

(** Lines 57-65: the rows of [commentaries JOIN movies] for a movie name,
    with no song, of a kind and a language; the column
    [commentary_text]. *)
Definition movie_commentary_rows (movie_name commentary_type language : string)
           (db : DB) : list string :=
  flat_map
    (fun c =>
       flat_map
         (fun m =>
            if (Commentaries.movie_id c =? Movies.movie_id m)
               && String.eqb (Movies.movie_name m) movie_name
               && is_null (Commentaries.song_id c)
               && String.eqb (Commentaries.commentary_type c) commentary_type
               && String.eqb (Commentaries.language c) language
            then [Commentaries.commentary_text c]
            else [])
         (movies db))
    (commentaries db).

(** [get_movie_commentary] (lines 50-69): [fetchone()] gives a row of the
    result, which has no ORDER BY, or [None] when it has no row. *)
Definition get_movie_commentary (movie_name commentary_type language : string)
           (db : DB) (result : option string) : Prop :=
  match result with
  | Some text =>
    In text (movie_commentary_rows movie_name commentary_type language db)
  | None => movie_commentary_rows movie_name commentary_type language db = []
  end.

End MovieDatabase.

(* ================================================================== *)
(** ** The session: [conn], its open transaction, and the store behind it *)

(** What a request to the store can run into: the store refuses the
    statement with an error, or the store becomes unreachable. *)
Inductive Fault := Reject | Drop.

(** [Ready]: statements are served (psycopg2 opens a transaction with the
    first one).  [Aborted]: a statement failed in the open transaction;
    until a rollback every statement is refused.  [Closed]: the connection
    is gone. *)
Inductive Status := Ready | Aborted | Closed.

(** [committed]: the rows every session sees.  [working]: the rows as the
    open transaction sees them, [committed] plus its own writes.
    [faults]: what the coming requests run into, one entry a request
    ([None]: served); past the end every request is served. *)
Record Conn := mkConn {
  committed : DB;
  working : DB;
  status : Status;
  faults : list (option Fault)
}.

Inductive exn :=
| YAMLError                 (* the file cannot be opened or parsed *)
| KeyError (key : string)
| ValueError                (* strptime; a NUL in a parameter *)
| IndexError                (* list(...)[0] of an empty list *)
| TypeError                 (* None[0] *)
| DatabaseError             (* the store refused a statement *)
| InFailedSqlTransaction    (* statement in an aborted transaction *)
| OperationalError          (* the store became unreachable *)
| InterfaceError.           (* the connection is already closed *)

Inductive result (A : Type) :=
| Ok (a : A)
| Raise (e : exn).
Arguments Ok {A} a.
Arguments Raise {A} e.

Definition M (A : Type) : Type := Conn -> result A * Conn.

Definition ret (A : Type) (a : A) : M A := fun c => (Ok a, c).

Definition raise (A : Type) (e : exn) : M A := fun c => (Raise e, c).

Definition bind (A B : Type) (m : M A) (k : A -> M B) : M B :=
  fun c =>
    match m c with
    | (Ok a, c') => k a c'
    | (Raise e, c') => (Raise e, c')
    end.

Notation "x <- m ;; k" := (bind m (fun x => k))
  (at level 61, m at next level, right associativity).
Notation "m ;;; k" := (bind m (fun _ => k))
  (at level 61, right associativity).

(** [for x in l: body] *)
Fixpoint for_each (A : Type) (l : list A) (body : A -> M unit) : M unit :=
  match l with
  | [] => ret tt
  | x :: tl => body x ;;; for_each tl body
  end.

(** A loop that updates a local variable. *)
Fixpoint for_fold (A S : Type) (l : list A) (s : S) (body : A -> S -> M S) : M S :=
  match l with
  | [] => ret s
  | x :: tl => s' <- body x s ;; for_fold tl s' body
  end.

(** [d[key]] on a mapping of the document. *)
Definition getitem (A : Type) (key : string) (field : option A) : M A :=
  match field with
  | Some v => ret v
  | None => raise A (KeyError key)
  end.

(** [cur.fetchone()[0]] *)
Definition subscript0 (row : option nat) : M nat :=
  match row with
  | Some v => ret v
  | None => raise nat TypeError
  end.

Definition set_working (c : Conn) (db : DB) : Conn :=
  mkConn (committed c) db (status c) (faults c).

(** [conn.cursor()] *)
Definition cursor : M unit :=
  fun c =>
    match status c with
    | Closed => (Raise InterfaceError, c)
    | _ => (Ok tt, c)
    end.

(** A string psycopg2 can quote as a parameter: one without the NUL
    character. *)
Definition has_nul (s : string) : bool :=
  existsb (Ascii.eqb zero) (list_ascii_of_string s).

Definition clean (s : string) : bool := negb (has_nul s).

(** [cur.execute(stmt, params)], [params] being the strings among the
    parameters.  On an open connection psycopg2 first quotes the
    parameters: a string that holds a NUL character raises [ValueError]
    there, before anything is sent, and the transaction is as it was.
    Then the statement runs on the rows the transaction sees.  A refused
    statement aborts the transaction; when the store becomes unreachable
    the open transaction is lost with the connection. *)
Definition execute (A : Type) (params : list string) (stmt : DB -> A * DB)
  : M A :=
  fun c =>
    match status c with
    | Closed => (Raise InterfaceError, c)
    | Aborted =>
      if forallb clean params then (Raise InFailedSqlTransaction, c)
      else (Raise ValueError, c)
    | Ready =>
      if forallb clean params then
        match faults c with
        | Some Drop :: fs =>
          (Raise OperationalError, mkConn (committed c) (committed c) Closed fs)
        | Some Reject :: fs =>
          (Raise DatabaseError, mkConn (committed c) (working c) Aborted fs)
        | None :: fs =>
          let (a, db) := stmt (working c) in
          (Ok a, mkConn (committed c) db Ready fs)
        | [] =>
          let (a, db) := stmt (working c) in
          (Ok a, mkConn (committed c) db Ready [])
        end
      else (Raise ValueError, c)
    end.

(** [conn.commit()]: the writes of the open transaction become the rows
    every session sees.  Committing an aborted transaction rolls it back. *)
Definition commit : M unit :=
  fun c =>
    match status c with
    | Closed => (Raise InterfaceError, c)
    | Aborted => (Ok tt, mkConn (committed c) (committed c) Ready (faults c))
    | Ready =>
      match faults c with
      | Some Drop :: fs =>
        (Raise OperationalError, mkConn (committed c) (committed c) Closed fs)
      | Some Reject :: fs =>
        (Raise DatabaseError, mkConn (committed c) (committed c) Ready fs)
      | None :: fs => (Ok tt, mkConn (working c) (working c) Ready fs)
      | [] => (Ok tt, mkConn (working c) (working c) Ready [])
      end
    end.

(** [conn.close()]: what the open transaction wrote and did not commit is
    discarded. *)
Definition close (c : Conn) : Conn :=
  mkConn (committed c) (committed c) Closed (faults c).

(** [psycopg2.connect] with [db_config], to a store holding [db]. *)
Definition connect (db : DB) (fs : list (option Fault)) : Conn :=
  mkConn db db Ready fs.

(* ================================================================== *)
(** ** The library beyond ASCII *)

Section Library.

(** What [datetime.strptime(s, '%d %B %Y')] makes of a text that holds a
    character beyond ASCII: a date, or [None] for its [ValueError].  Which
    of those characters are spaces and digits is a matter of the Unicode
    tables of the interpreter; the development holds for every answer. *)
Variable strptime_beyond_ascii : string -> option Strptime.date.

(* ================================================================== *)
(** ** load_yaml_file *)

(** Lines 27-28: [open] and [yaml.safe_load]. *)
Definition safe_load (f : Yaml.File) : M Yaml.Document :=
  match Yaml.content f with
  | Some data => ret data
  | None => raise Yaml.Document YAMLError
  end.

(** [datetime.strptime(s, '%d %B %Y').date()] *)
Definition datetime_strptime (s : string) : option Strptime.date :=
  if Strptime.is_ascii s then Strptime.strptime s
  else strptime_beyond_ascii s.

(** Line 33. *)
Definition strptime (s : string) : M Strptime.date :=
  match datetime_strptime s with
  | Some d => ret d
  | None => raise Strptime.date ValueError
  end.

(** Lines 35-54, "Insert movie": the identity of the movie of the
    document. *)
Definition insert_movie (md : Yaml.Metadata) (release_date : Strptime.date)
  : M nat :=
  movie_name <- getitem "movie_name" (Yaml.movie_name md) ;;
  director <- getitem "director" (Yaml.director md) ;;
  producer <- getitem "producer" (Yaml.producer md) ;;
  music_director <- getitem "music_director" (Yaml.music_director md) ;;
  lyricist <- getitem "lyricist" (Yaml.lyricist md) ;;
  result <- execute [movie_name; director; producer; music_director; lyricist]
                    (Sql.insert_movie movie_name release_date director
                                      producer music_director lyricist) ;;
  match result with
  | Some movie_id => ret movie_id
  | None =>
    row <- execute [movie_name] (Sql.select_movie_id movie_name) ;;
    subscript0 row
  end.

(** Lines 59-63, "Insert cast". *)
Definition insert_cast (movie_id : nat) (cast : list string) : M unit :=
  for_each cast (fun cast_name =>
    execute [cast_name] (Sql.insert_cast_member cast_name) ;;;
    row <- execute [cast_name] (Sql.select_cast_id cast_name) ;;
    cast_id <- subscript0 row ;;
    execute [] (Sql.insert_movie_cast movie_id cast_id)).

(** Lines 68-77, "Insert songs": the mapping from song name to identity. *)
Definition insert_songs (movie_id : nat) (songs_order : list string)
  : M (dict nat) :=
  for_fold (enumerate1 songs_order) []
    (fun '(idx, song_name) song_mapping =>
       row <- execute [song_name] (Sql.upsert_song movie_id song_name idx) ;;
       song_id <- subscript0 row ;;
       ret (dict_set song_name song_id song_mapping)).

(** Lines 84-98: one language of the commentaries. *)
Definition insert_block (movie_id : nat) (commentary_type : option string)
           (song_mapping : dict nat) (language : string)
           (commentary_data : dict string) : M unit :=
  match commentary_data with
  | [] => raise unit IndexError
  | (_, movie_commentary) :: _ =>
    ctype <- getitem "commentary_type" commentary_type ;;
    execute [ctype; language; movie_commentary]
            (Sql.insert_commentary movie_id None ctype language
                                   movie_commentary) ;;;
    for_each song_mapping (fun '(song_name, song_id) =>
      match dict_get song_name commentary_data with
      | Some text =>
        execute [ctype; language; text]
                (Sql.insert_commentary movie_id (Some song_id) ctype
                                       language text)
      | None => ret tt
      end)
  end.

(** Lines 82-98, "Insert commentaries". *)
Definition insert_commentaries (movie_id : nat)
           (commentary_type : option string) (song_mapping : dict nat)
           (blocks : list (string * dict string)) : M unit :=
  for_each blocks (fun '(language, commentary_data) =>
    insert_block movie_id commentary_type song_mapping language
                 commentary_data).

Definition load_yaml_file (f : Yaml.File) : M unit :=
  data <- safe_load f ;;
  cursor ;;;
  metadata <- getitem "metadata" (Yaml.metadata data) ;;
  text <- getitem "release_date" (Yaml.release_date metadata) ;;
  release_date <- strptime text ;;
  movie_id <- insert_movie metadata release_date ;;
  cast <- getitem "cast" (Yaml.cast metadata) ;;
  insert_cast movie_id cast ;;;
  songs_order <- getitem "songs_order" (Yaml.songs_order data) ;;
  song_mapping <- insert_songs movie_id songs_order ;;
  blocks <- getitem "commentaries" (Yaml.commentaries data) ;;
  insert_commentaries movie_id (Yaml.commentary_type data) song_mapping
                      blocks ;;;
  (* line 100 formats data['commentary_type'] into the message *)
  getitem "commentary_type" (Yaml.commentary_type data) ;;;
  commit.

(* ================================================================== *)
(** ** main *)

(** What the run prints for a file: its name ("Processing: ...") and, when
    the [except] branch ran, the error. *)
Definition Log := list (string * option exn).

(** Lines 119-123. *)
Fixpoint main_loop (yaml_files : list Yaml.File) (c : Conn) : Log * Conn :=
  match yaml_files with
  | [] => ([], c)
  | filepath :: rest =>
    match load_yaml_file filepath c with
    | (Ok _, c') =>
      let (log, c'') := main_loop rest c' in
      ((Yaml.path filepath, None) :: log, c'')
    | (Raise e, c') =>
      let (log, c'') := main_loop rest c' in
      ((Yaml.path filepath, Some e) :: log, c'')
    end
  end.

(** Lines 112-125, from the connection on. *)
Definition main (yaml_files : list Yaml.File) (c : Conn) : Log * Conn :=
  let (log, c') := main_loop yaml_files c in (log, close c').

(* ================================================================== *)
(** ** What a run on a healthy session does to the rows *)

(** A session that serves every request: no transaction failed, no fault
    to come. *)
Definition healthy (c : Conn) : Prop := status c = Ready /\ faults c = [].

Definition session (cm w : DB) : Conn := mkConn cm w Ready [].

(** The rows after "Insert movie", with the identity it yields. *)
Definition movie_rows (name : string) (rd : Strptime.date)
           (dir prod md lyr : string) (w : DB) : nat * DB :=
  match Sql.insert_movie name rd dir prod md lyr w with
  | (Some id, w') => (id, w')
  | (None, w') =>
    (match fst (Sql.select_movie_id name w') with Some id => id | None => 0 end,
     w')
  end.

(** The rows after one turn of the cast loop. *)
Definition cast_step (movie_id : nat) (w : DB) (cast_name : string) : DB :=
  let w1 := snd (Sql.insert_cast_member cast_name w) in
  match fst (Sql.select_cast_id cast_name w1) with
  | Some cast_id => snd (Sql.insert_movie_cast movie_id cast_id w1)
  | None => w1
  end.

Definition cast_rows (movie_id : nat) (cast : list string) (w : DB) : DB :=
  fold_left (cast_step movie_id) cast w.

(** One turn of the song loop: [song_mapping] and the rows. *)
Definition song_step (movie_id : nat) (st : dict nat * DB) (x : nat * string)
  : dict nat * DB :=
  let (idx, song_name) := x in
  let (song_mapping, w) := st in
  match Sql.upsert_song movie_id song_name idx w with
  | (Some song_id, w') => (dict_set song_name song_id song_mapping, w')
  | (None, w') => (song_mapping, w')
  end.

Definition song_rows (movie_id : nat) (songs_order : list string) (w : DB)
  : dict nat * DB :=
  fold_left (song_step movie_id) (enumerate1 songs_order) ([], w).

(** One turn of the loop over [song_mapping] inside a language. *)
Definition song_commentary_step (movie_id : nat) (ctype language : string)
           (commentary_data : dict string) (w : DB) (entry : string * nat) : DB :=
  match dict_get (fst entry) commentary_data with
  | Some text =>
    snd (Sql.insert_commentary movie_id (Some (snd entry)) ctype language text w)
  | None => w
  end.

(** The rows after one language of the commentaries. *)
Definition block_rows (movie_id : nat) (ctype : string) (song_mapping : dict nat)
           (w : DB) (lb : string * dict string) : DB :=
  let (language, commentary_data) := lb in
  match commentary_data with
  | [] => w
  | (_, movie_commentary) :: _ =>
    fold_left (song_commentary_step movie_id ctype language commentary_data)
              song_mapping
              (snd (Sql.insert_commentary movie_id None ctype language
                                          movie_commentary w))
  end.

Definition commentary_rows (movie_id : nat) (ctype : string)
           (song_mapping : dict nat) (blocks : list (string * dict string))
           (w : DB) : DB :=
  fold_left (block_rows movie_id ctype song_mapping) blocks w.

(** The values [load_yaml_file] reads from a document that has them all. *)
Record Fields := mkFields {
  f_movie_name : string;
  f_release_date : Strptime.date;
  f_director : string;
  f_producer : string;
  f_music_director : string;
  f_lyricist : string;
  f_cast : list string;
  f_songs_order : list string;
  f_commentary_type : string;
  f_commentaries : list (string * dict string)
}.

Definition fields (f : Yaml.File) : option Fields :=
  match Yaml.content f with
  | None => None
  | Some data =>
    match Yaml.metadata data, Yaml.songs_order data,
          Yaml.commentary_type data, Yaml.commentaries data with
    | Some md, Some so, Some ct, Some bl =>
      match Yaml.movie_name md, Yaml.release_date md, Yaml.director md,
            Yaml.producer md, Yaml.music_director md, Yaml.lyricist md,
            Yaml.cast md with
      | Some n, Some t, Some d, Some p, Some m, Some l, Some ca =>
        match datetime_strptime t with
        | Some rd => Some (mkFields n rd d p m l ca so ct bl)
        | None => None
        end
      | _, _, _, _, _, _, _ => None
      end
    | _, _, _, _ => None
    end
  end.

Definition nonempty (A : Type) (l : list A) : bool :=
  match l with [] => false | _ :: _ => true end.

(** The languages and the texts of the blocks hold no NUL character. *)
Definition clean_blocks (blocks : list (string * dict string)) : bool :=
  forallb (fun lb => clean (fst lb)
                     && forallb (fun entry => clean (snd entry)) (snd lb))
          blocks.

(** No string the loader may send as a parameter holds a NUL character:
    the movie's attributes, the cast, the song names, the kind, the
    languages and the texts. *)
Definition clean_fields (v : Fields) : bool :=
  forallb clean [f_movie_name v; f_director v; f_producer v;
                 f_music_director v; f_lyricist v]
  && forallb clean (f_cast v)
  && forallb clean (f_songs_order v)
  && clean (f_commentary_type v)
  && clean_blocks (f_commentaries v).

(** The languages before the first one that has no entry. *)
Fixpoint before_empty (blocks : list (string * dict string))
  : list (string * dict string) :=
  match blocks with
  | [] => []
  | (_, []) :: _ => []
  | lb :: tl => lb :: before_empty tl
  end.

(** The document cut before its first empty language. *)
Definition cut_at_empty (v : Fields) : Fields :=
  mkFields (f_movie_name v) (f_release_date v) (f_director v) (f_producer v)
           (f_music_director v) (f_lyricist v) (f_cast v) (f_songs_order v)
           (f_commentary_type v) (before_empty (f_commentaries v)).

(** Documents the loader is sure to ingest on a healthy session: every
    field it reads is there, the release date is a date, no language is
    empty, and no string holds a NUL character.  (The condition is
    sufficient: a NUL in a text that is never sent does no harm.) *)
Definition loadable (f : Yaml.File) : bool :=
  match fields f with
  | Some v => forallb (fun lb => nonempty (snd lb)) (f_commentaries v)
              && clean_fields v
  | None => false
  end.

(** The rows after the four steps of a loadable document. *)
Definition ingest (v : Fields) (w : DB) : DB :=
  let (movie_id, w1) :=
      movie_rows (f_movie_name v) (f_release_date v) (f_director v)
                 (f_producer v) (f_music_director v) (f_lyricist v) w in
  let w2 := cast_rows movie_id (f_cast v) w1 in
  let (song_mapping, w3) := song_rows movie_id (f_songs_order v) w2 in
  commentary_rows movie_id (f_commentary_type v) song_mapping
                  (f_commentaries v) w3.

(* ================================================================== *)
(** ** Counting rows, constraints, references *)

Definition count_movies (name : string) (db : DB) : nat :=
  List.length (filter (Sql.movie_named name) (movies db)).

Definition count_cast_members (name : string) (db : DB) : nat :=
  List.length (filter (Sql.cast_named name) (cast_members db)).

Definition count_movie_cast (movie_id cast_id : nat) (db : DB) : nat :=
  List.length (filter (Sql.is_pair movie_id cast_id) (movie_cast db)).

Definition song_key (r : Songs.row) : nat * string :=
  (Songs.movie_id r, Songs.song_name r).

Definition pair_key (r : MovieCast.row) : nat * nat :=
  (MovieCast.movie_id r, MovieCast.cast_id r).

(** Modelled from the spec: the uniqueness constraints of the schema, which
    is not among the sources: the natural keys of the data model and the
    surrogate key of each table. *)
Record unique_keys (db : DB) : Prop := mkUnique {
  uk_movie_name : NoDup (map Movies.movie_name (movies db));
  uk_movie_id : NoDup (map Movies.movie_id (movies db));
  uk_cast_name : NoDup (map CastMembers.cast_name (cast_members db));
  uk_cast_id : NoDup (map CastMembers.cast_id (cast_members db));
  uk_pair : NoDup (map pair_key (movie_cast db));
  uk_song : NoDup (map song_key (songs db));
  uk_song_id : NoDup (map Songs.song_id (songs db));
  uk_commentary_id : NoDup (map Commentaries.commentary_id (commentaries db))
}.

Definition movie_ids (db : DB) : list nat := map Movies.movie_id (movies db).
Definition cast_ids (db : DB) : list nat :=
  map CastMembers.cast_id (cast_members db).

(** The references of the data model. *)
Record references (db : DB) : Prop := mkReferences {
  ref_song :
    forall r, In r (songs db) -> In (Songs.movie_id r) (movie_ids db);
  ref_commentary :
    forall r, In r (commentaries db) ->
              In (Commentaries.movie_id r) (movie_ids db);
  ref_pair :
    forall r, In r (movie_cast db) ->
              In (MovieCast.movie_id r) (movie_ids db)
              /\ In (MovieCast.cast_id r) (cast_ids db);
  ref_commentary_song :
    forall r s, In r (commentaries db) -> Commentaries.song_id r = Some s ->
                exists sr, In sr (songs db) /\ Songs.song_id sr = s
                           /\ Songs.movie_id sr = Commentaries.movie_id r
}.

(** The 1-based position of the last occurrence of [name] in [l]
    (0 when it does not occur). *)
Fixpoint last_position (name : string) (l : list string) : nat :=
  match l with
  | [] => 0
  | x :: tl =>
    match last_position name tl with
    | 0 => if String.eqb x name then 1 else 0
    | S p => S (S p)
    end
  end.

(** A commentary row without its key: song reference and text. *)
Definition row_content (r : Commentaries.row) : option nat * string :=
  (Commentaries.song_id r, Commentaries.commentary_text r).

(** The rows one entry of a language block gives rise to: the entry in
    first place gives the movie-level row; an entry, the first one too,
    whose key is a song of [song_mapping] gives that song's row. *)
Definition entry_rows (song_mapping : dict nat) (first : bool)
           (entry : string * string) : list (option nat * string) :=
  (if first then [(None, snd entry)] else [])
    ++ match dict_get (fst entry) song_mapping with
       | Some song_id => [(Some song_id, snd entry)]
       | None => []
       end.

Definition block_entry_rows (song_mapping : dict nat)
           (commentary_data : dict string) : list (option nat * string) :=
  match commentary_data with
  | [] => []
  | e :: tl =>
    entry_rows song_mapping true e
      ++ flat_map (entry_rows song_mapping false) tl
  end.

(** Ingesting a file [n] times in a row on one session. *)
Fixpoint load_times (n : nat) (f : Yaml.File) (c : Conn) : list (result unit) * Conn :=
  match n with
  | 0 => ([], c)
  | S k =>
    let (r, c') := load_yaml_file f c in
    let (rs, c'') := load_times k f c' in
    (r :: rs, c'')
  end.


(* ================================================================== *)
(** ** Documents to run the loader on *)

Definition example_metadata (name : string) (cast : list string)
  : Yaml.Metadata :=
  Yaml.mkMetadata (Some name) (Some "25 December 1970") (Some "Mukul Dutt")
                  (Some "Jagdish Kumar") (Some "Laxmikant-Pyarelal")
                  (Some "Anand Bakshi") (Some cast).

Definition example_file (path name : string) (cast songs : list string)
           (blocks : list (string * dict string)) : Yaml.File :=
  Yaml.mkFile path
    (Some (Yaml.mkDocument (Some (example_metadata name cast)) (Some songs)
                           (Some "long") (Some blocks))).

(** The end-to-end scenario of the specification. *)
Definition aan_milo_sajna : Yaml.File :=
  example_file "aan_milo_sajna.yaml" "Aan Milo Sajna"
    ["Rajesh Khanna"; "Mala Sinha"]
    ["Achha To Hum Chalte Hain"; "Jo Tumko Ho Pasand"]
    [("Hindi", [("Aan Milo Sajna", "<movie text>");
                ("Achha To Hum Chalte Hain", "<song text>")])].


(** Another movie with a cast member of the first. *)
Definition kati_patang : Yaml.File :=
  example_file "kati_patang.yaml" "Kati Patang"
    ["Rajesh Khanna"; "Asha Parekh"]
    ["Ye Shaam Mastani"]
    [("Hindi", [("Kati Patang", "<movie text>")])].

(** A movie whose title is also the name of one of its songs. *)
Definition bobby : Yaml.File :=
  example_file "bobby.yaml" "Bobby" ["Rishi Kapoor"] ["Bobby"]
    [("Hindi", [("Bobby", "<text>")])].


(** A document without its list of songs. *)
Definition no_songs_order : Yaml.File :=
  Yaml.mkFile "no_songs_order.yaml"
    (Some (Yaml.mkDocument
             (Some (example_metadata "Anand" ["Rajesh Khanna"]))
             None (Some "long") (Some []))).

(** A document with a language that has no entry. *)
Definition empty_language : Yaml.File :=
  example_file "empty_language.yaml" "Amar Prem" ["Sharmila Tagore"]
    ["Chingari Koi Bhadke"] [("Hindi", [])].

(** The values the loader reads from [example_file]. *)
Definition example_fields (name : string) (cast songs : list string)
           (blocks : list (string * dict string)) : Fields :=
  mkFields name (Strptime.mkDate 1970 12 25) "Mukul Dutt" "Jagdish Kumar"
           "Laxmikant-Pyarelal" "Anand Bakshi" cast songs "long" blocks.

(** A store that holds the movie already, with other attributes. *)
Definition store_with_movie : DB :=
  mkDB [Movies.mk 7 "Aan Milo Sajna" (Strptime.mkDate 1971 1 1)
                  "someone" "someone else" "a third" "a fourth"]
       [] [] [] [].

(* ================================================================== *)
(** ** Assertions on runs *)

(** The errors that come from the store or the connection; the others are
    raised on the Python side, by the loader's own reading of the document
    or by psycopg2 in quoting a parameter, before anything is sent. *)
Definition raised_by_store (e : exn) : bool :=
  match e with
  | DatabaseError | InFailedSqlTransaction | OperationalError
  | InterfaceError => true
  | YAMLError | KeyError _ | ValueError | IndexError | TypeError => false
  end.

(** From a session where [P] holds, [m] returns [a] in a session where
    [Q a] holds or raises [e] in a session where [E e] holds. *)
Definition hoare (A : Type) (P : Conn -> Prop) (m : M A)
           (Q : A -> Conn -> Prop) (E : exn -> Conn -> Prop) : Prop :=
  forall c, P c ->
            match m c with
            | (Ok a, c') => Q a c'
            | (Raise e, c') => E e c'
            end.
Arguments hoare : clear implicits.

Definition keeps (I : Conn -> Prop) (E : exn -> Conn -> Prop)
           (A : Type) (m : M A) : Prop :=
  hoare A I m (fun _ => I) E.
Arguments keeps : clear implicits.

(** What identifies a song row: everything but its ordinal. *)
Definition song_ident (r : Songs.row) : nat * nat * string :=
  (Songs.song_id r, Songs.movie_id r, Songs.song_name r).

Definition prefix (A : Type) (l l' : list A) : Prop :=
  exists suffix, l' = l ++ suffix.

(** The rows of [w'] are those of [w] and more: rows are appended, and of a
    song row the ordinal alone may change. *)
Record grows (w w' : DB) : Prop := mkGrows {
  g_movies : prefix (movies w) (movies w');
  g_cast_members : prefix (cast_members w) (cast_members w');
  g_movie_cast : prefix (movie_cast w) (movie_cast w');
  g_songs : prefix (map song_ident (songs w)) (map song_ident (songs w'));
  g_commentaries : prefix (commentaries w) (commentaries w')
}.


(** The song-level row one entry of [song_mapping] gives rise to in a
    language block, without its key. *)
Definition song_entry_rows (commentary_data : dict string)
           (entry : string * nat) : list (option nat * string) :=
  match dict_get (fst entry) commentary_data with
  | Some text => [(Some (snd entry), text)]
  | None => []
  end.

(** A commentary row of a movie, a kind and a language. *)
Definition row_of (movie_id : nat) (ctype language : string)
           (r : Commentaries.row) : Prop :=
  Commentaries.movie_id r = movie_id
  /\ Commentaries.commentary_type r = ctype
  /\ Commentaries.language r = language.




(** What a file raises on a closed connection. *)
Definition closed_error (f : Yaml.File) : exn :=
  match Yaml.content f with
  | None => YAMLError
  | Some _ => InterfaceError
  end.

(* ================================================================== *)
(** ** What a document raises *)

(** The error a file raises before the first statement is sent: lines
    27-47 read the file, the metadata, the release date and the movie's
    attributes, in this order. *)
Definition header_error (f : Yaml.File) : option exn :=
  match Yaml.content f with
  | None => Some YAMLError
  | Some data =>
    match Yaml.metadata data with
    | None => Some (KeyError "metadata")
    | Some md =>
      match Yaml.release_date md with
      | None => Some (KeyError "release_date")
      | Some text =>
        match datetime_strptime text with
        | None => Some ValueError
        | Some _ =>
          match Yaml.movie_name md, Yaml.director md, Yaml.producer md,
                Yaml.music_director md, Yaml.lyricist md with
          | None, _, _, _, _ => Some (KeyError "movie_name")
          | Some _, None, _, _, _ => Some (KeyError "director")
          | Some _, Some _, None, _, _ => Some (KeyError "producer")
          | Some _, Some _, Some _, None, _ => Some (KeyError "music_director")
          | Some _, Some _, Some _, Some _, None => Some (KeyError "lyricist")
          | Some _, Some _, Some _, Some _, Some _ => None
          end
        end
      end
    end
  end.

(** The error of the loop over the languages (lines 82-98): an empty
    language, or the missing kind at the first language that has an
    entry. *)
Fixpoint commentaries_error (commentary_type : option string)
         (blocks : list (string * dict string)) : option exn :=
  match blocks with
  | [] => None
  | (_, []) :: _ => Some IndexError
  | (_, _ :: _) :: tl =>
    match commentary_type with
    | None => Some (KeyError "commentary_type")
    | Some _ => commentaries_error commentary_type tl
    end
  end.

(** The error a file raises after its movie is resolved (lines 59-100). *)
Definition body_error (f : Yaml.File) : option exn :=
  match Yaml.content f with
  | None => None
  | Some data =>
    match Yaml.metadata data with
    | None => None
    | Some md =>
      match Yaml.cast md, Yaml.songs_order data, Yaml.commentaries data with
      | None, _, _ => Some (KeyError "cast")
      | Some _, None, _ => Some (KeyError "songs_order")
      | Some _, Some _, None => Some (KeyError "commentaries")
      | Some _, Some _, Some blocks =>
        match commentaries_error (Yaml.commentary_type data) blocks with
        | Some e => Some e
        | None =>
          match Yaml.commentary_type data with
          | None => Some (KeyError "commentary_type")
          | Some _ => None
          end
        end
      end
    end
  end.

Definition first_error (f : Yaml.File) : option exn :=
  match header_error f with
  | Some e => Some e
  | None => body_error f
  end.

(** What [load_yaml_file] gives back for an error, or for none. *)
Definition outcome (e : option exn) : result unit :=
  match e with
  | None => Ok tt
  | Some e => Raise e
  end.

(** The strings among the parameters of the first statement, "Insert
    movie" (lines 41-46). *)
Definition movie_params (f : Yaml.File) : list string :=
  match Yaml.content f with
  | None => []
  | Some data =>
    match Yaml.metadata data with
    | None => []
    | Some md =>
      match Yaml.movie_name md, Yaml.director md, Yaml.producer md,
            Yaml.music_director md, Yaml.lyricist md with
      | Some n, Some d, Some p, Some m, Some l => [n; d; p; m; l]
      | _, _, _, _, _ => []
      end
    end
  end.

(** What a file raises in an aborted transaction: the error of its own
    reading, or the one its first statement meets, in quoting its
    parameters or at the store. *)
Definition aborted_error (f : Yaml.File) : exn :=
  match header_error f with
  | Some e => e
  | None =>
    if forallb clean (movie_params f) then InFailedSqlTransaction
    else ValueError
  end.

Definition clean_option (o : option string) : bool :=
  match o with Some s => clean s | None => true end.

Definition clean_list (o : option (list string)) : bool :=
  match o with Some l => forallb clean l | None => true end.

(** No string of the document that the loader may send as a parameter
    holds a NUL character. *)
Definition clean_file (f : Yaml.File) : bool :=
  match Yaml.content f with
  | None => true
  | Some data =>
    match Yaml.metadata data with
    | None => true
    | Some md =>
      forallb clean_option [Yaml.movie_name md; Yaml.director md;
                            Yaml.producer md; Yaml.music_director md;
                            Yaml.lyricist md]
      && clean_list (Yaml.cast md)
    end
    && clean_list (Yaml.songs_order data)
    && clean_option (Yaml.commentary_type data)
    && match Yaml.commentaries data with
       | Some bl => clean_blocks bl
       | None => true
       end
  end.

(** A statement of which [ok] holds; the loader's seven statements are
    such statements when [ok] holds of each. *)
Definition statements_ok (ok : forall A : Type, (DB -> A * DB) -> Prop) : Prop :=
  (forall n rd d p m l, ok _ (Sql.insert_movie n rd d p m l))
  /\ (forall n, ok _ (Sql.select_movie_id n))
  /\ (forall n, ok _ (Sql.insert_cast_member n))
  /\ (forall n, ok _ (Sql.select_cast_id n))
  /\ (forall movie_id cast_id, ok _ (Sql.insert_movie_cast movie_id cast_id))
  /\ (forall movie_id n idx, ok _ (Sql.upsert_song movie_id n idx))
  /\ (forall movie_id song_id ct lang text,
         ok _ (Sql.insert_commentary movie_id song_id ct lang text)).

(** A file whose release date is written the ISO way. *)
Definition iso_date_metadata : Yaml.Metadata :=
  Yaml.mkMetadata (Some "Safar") (Some "1970-12-25") (Some "Asit Sen")
                  (Some "Mushir-Riaz") (Some "Kalyanji-Anandji")
                  (Some "Indeevar") (Some ["Rajesh Khanna"]).

Definition iso_date_document : Yaml.Document :=
  Yaml.mkDocument (Some iso_date_metadata) (Some ["Zindagi Ka Safar"])
                  (Some "long") (Some []).

Definition iso_date : Yaml.File :=
  Yaml.mkFile "iso_date.yaml" (Some iso_date_document).

(** The values the loader reads from [aan_milo_sajna]. *)
Definition aan_milo_sajna_fields : Fields :=
  example_fields "Aan Milo Sajna" ["Rajesh Khanna"; "Mala Sinha"]
    ["Achha To Hum Chalte Hain"; "Jo Tumko Ho Pasand"]
    [("Hindi", [("Aan Milo Sajna", "<movie text>");
                ("Achha To Hum Chalte Hain", "<song text>")])].

(** A store that holds the movie with a song its document does not list,
    and a song of another movie. *)
Definition store_with_songs : DB :=
  mkDB [Movies.mk 1 "Aan Milo Sajna" (Strptime.mkDate 1970 12 25)
                  "Mukul Dutt" "Jagdish Kumar" "Laxmikant-Pyarelal"
                  "Anand Bakshi";
        Movies.mk 2 "Kati Patang" (Strptime.mkDate 1971 1 29)
                  "Shakti Samanta" "Shakti Samanta" "R. D. Burman"
                  "Anand Bakshi"]
       [] []
       [Songs.mk 1 1 "Rang Rang Ke Phool Khile" 1;
        Songs.mk 2 2 "Ye Shaam Mastani" 1]
       [].

(** A session whose transaction is aborted. *)
Definition aborted_session : Conn := mkConn empty_db empty_db Aborted [].

(** The rows committed and the rows the transaction sees both extend
    [db]. *)
Definition extends (db : DB) (c : Conn) : Prop :=
  grows db (committed c) /\ grows (committed c) (working c).

(** The uniqueness constraints hold in the rows committed and in the rows
    the open transaction sees. *)
Definition unique_in (c : Conn) : Prop :=
  unique_keys (committed c) /\ unique_keys (working c).

(** A commentary row without its key. *)
Definition row_values (r : Commentaries.row)
  : nat * option nat * string * string * string :=
  (Commentaries.movie_id r, Commentaries.song_id r,
   Commentaries.commentary_type r, Commentaries.language r,
   Commentaries.commentary_text r).

(* ================================================================== *)
(** * Runs on a healthy session *)

Unset Implicit Arguments.

Arguments Strptime.strptime : simpl never.
Arguments datetime_strptime : simpl never.
Arguments clean : simpl never.


Lemma session_healthy (cm w : DB) : healthy (session cm w).
Proof. split; reflexivity. Qed.

Lemma bind_ok (A B : Type) (m : M A) (k : A -> M B) c a c' :
  m c = (Ok a, c') -> bind m k c = k a c'.
Proof. unfold bind. intros ->. reflexivity. Qed.

Lemma bind_raise (A B : Type) (m : M A) (k : A -> M B) c e c' :
  m c = (Raise e, c') -> bind m k c = (Raise e, c').
Proof. unfold bind. intros ->. reflexivity. Qed.

Lemma execute_session (A : Type) params (stmt : DB -> A * DB) cm w :
  forallb clean params = true ->
  execute params stmt (session cm w)
  = (Ok (fst (stmt w)), session cm (snd (stmt w))).
Proof.
  intros H. unfold execute, session. simpl. rewrite H.
  destruct (stmt w). reflexivity.
Qed.

(** A parameter with a NUL character: the statement is not sent. *)
Lemma execute_nul (A : Type) params (stmt : DB -> A * DB) c :
  forallb clean params = false -> status c <> Closed ->
  execute params stmt c = (Raise ValueError, c).
Proof.
  intros H S. unfold execute. rewrite H.
  destruct (status c); [reflexivity|reflexivity|congruence].
Qed.

Lemma commit_session cm w : commit (session cm w) = (Ok tt, session w w).
Proof. reflexivity. Qed.

Lemma find_of_existsb (A : Type) (p : A -> bool) (l : list A) :
  existsb p l = true -> exists x, find p l = Some x /\ In x l /\ p x = true.
Proof.
  intros H. destruct (find p l) as [x|] eqn:F.
  - exists x. apply find_some in F. tauto.
  - apply existsb_exists in H. destruct H as [x [Hx Hp]].
    rewrite (find_none _ _ F x Hx) in Hp. discriminate.
Qed.

Lemma find_app (A : Type) (p : A -> bool) (l1 l2 : list A) :
  find p (l1 ++ l2) = match find p l1 with Some x => Some x | None => find p l2 end.
Proof.
  induction l1 as [|a l1 IH]; simpl; [reflexivity|].
  destruct (p a); [reflexivity|apply IH].
Qed.

Lemma bind_assoc (A B C : Type) (m : M A) (k1 : A -> M B) (k2 : B -> M C) c :
  bind (bind m k1) k2 c = bind m (fun a => bind (k1 a) k2) c.
Proof. unfold bind. destruct (m c) as [[a|e] c']; reflexivity. Qed.

Lemma bind_ret (A B : Type) (a : A) (k : A -> M B) c : bind (ret a) k c = k a c.
Proof. reflexivity. Qed.

Lemma bind_raise_now (A B : Type) (e : exn) (k : A -> M B) c :
  bind (raise A e) k c = (Raise e, c).
Proof. reflexivity. Qed.

Lemma bind_execute_session (A B : Type) params (stmt : DB -> A * DB)
      (k : A -> M B) cm w :
  forallb clean params = true ->
  bind (execute params stmt) k (session cm w)
  = k (fst (stmt w)) (session cm (snd (stmt w))).
Proof. intros H. apply bind_ok. apply execute_session. exact H. Qed.

(** The parameters at hand hold no NUL character. *)
Ltac split_clean :=
  repeat match goal with
         | H : _ && _ = true |- _ => apply andb_prop in H; destruct H
         | H : forallb _ (_ :: _) = true |- _ => cbn [forallb] in H
         | H : forallb _ [] = true |- _ => clear H
         end.

Ltac cleanly :=
  cbn [forallb];
  repeat match goal with
         | H : clean _ = true |- _ => rewrite H
         end;
  reflexivity.

(** One step of a run on a healthy session. *)
Ltac read_fields :=
  cbn [getitem safe_load Yaml.content Yaml.metadata Yaml.songs_order
       Yaml.commentary_type Yaml.commentaries Yaml.movie_name
       Yaml.release_date Yaml.director Yaml.producer Yaml.music_director
       Yaml.lyricist Yaml.cast].

Ltac run_step :=
  first [ rewrite bind_assoc
        | rewrite bind_ret
        | rewrite bind_raise_now
        | rewrite bind_execute_session by cleanly
        | rewrite execute_session by cleanly ];
  cbv beta; read_fields.

Ltac run := read_fields; repeat run_step.

(** "Insert movie" never raises on a healthy session: when the insert is
    suppressed the row is there for the lookup. *)
Lemma insert_movie_session n t d p m l ca rd cm w :
  forallb clean [n; d; p; m; l] = true ->
  insert_movie (Yaml.mkMetadata (Some n) t (Some d) (Some p) (Some m) (Some l) ca)
               rd (session cm w)
  = (Ok (fst (movie_rows n rd d p m l w)),
     session cm (snd (movie_rows n rd d p m l w))).
Proof.
  intros Hc. split_clean. unfold insert_movie. run.
  unfold movie_rows, Sql.insert_movie.
  destruct (existsb (Sql.movie_named n) (movies w)) eqn:E; simpl.
  - run. unfold Sql.select_movie_id. simpl.
    destruct (find_of_existsb _ _ _ E) as [x [-> _]]. reflexivity.
  - reflexivity.
Qed.

Lemma select_cast_after_insert name w :
  exists r,
    find (Sql.cast_named name)
         (cast_members (snd (Sql.insert_cast_member name w))) = Some r
    /\ CastMembers.cast_name r = name.
Proof.
  unfold Sql.insert_cast_member.
  destruct (existsb (Sql.cast_named name) (cast_members w)) eqn:E; simpl.
  - destruct (find_of_existsb _ _ _ E) as [x [F [_ Hp]]].
    exists x. split; [exact F|]. apply String.eqb_eq. exact Hp.
  - rewrite find_app. destruct (find (Sql.cast_named name) (cast_members w)) eqn:F.
    + apply find_some in F. destruct F as [Hin Hp].
      assert (existsb (Sql.cast_named name) (cast_members w) = true)
        by (apply existsb_exists; eauto).
      congruence.
    + simpl. unfold Sql.cast_named at 1. simpl. rewrite String.eqb_refl.
      eexists. split; reflexivity.
Qed.

Lemma insert_cast_session movie_id cast cm w :
  forallb clean cast = true ->
  insert_cast movie_id cast (session cm w)
  = (Ok tt, session cm (cast_rows movie_id cast w)).
Proof.
  unfold insert_cast, cast_rows. revert w.
  induction cast as [|x tl IH]; intros w Hc; simpl; [reflexivity|].
  split_clean.
  run. unfold cast_step at 2. unfold Sql.select_cast_id. simpl.
  destruct (select_cast_after_insert x w) as [r [-> _]]. simpl.
  run. apply IH. assumption.
Qed.

Lemma upsert_song_some movie_id name idx w :
  exists id, fst (Sql.upsert_song movie_id name idx w) = Some id.
Proof.
  unfold Sql.upsert_song.
  destruct (find (Sql.is_song movie_id name) (songs w)); simpl; eauto.
Qed.

Lemma insert_songs_loop movie_id xs song_mapping cm w :
  forallb (fun x => clean (snd x)) xs = true ->
  for_fold xs song_mapping
    (fun '(idx, song_name) song_mapping =>
       row <- execute [song_name] (Sql.upsert_song movie_id song_name idx) ;;
       song_id <- subscript0 row ;;
       ret (dict_set song_name song_id song_mapping)) (session cm w)
  = (Ok (fst (fold_left (song_step movie_id) xs (song_mapping, w))),
     session cm (snd (fold_left (song_step movie_id) xs (song_mapping, w)))).
Proof.
  revert song_mapping w.
  induction xs as [|[idx name] tl IH]; intros sm w Hc; simpl; [reflexivity|].
  split_clean. cbn [snd] in *.
  run.
  destruct (upsert_song_some movie_id name idx w) as [id Hid].
  destruct (Sql.upsert_song movie_id name idx w) as [r w'] eqn:E.
  simpl in Hid. subst r. simpl. run. apply IH. assumption.
Qed.

Lemma forallb_combine_seq (A : Type) (p : A -> bool) (l : list A) start :
  forallb p l = true ->
  forallb (fun x => p (snd x)) (combine (seq start (List.length l)) l) = true.
Proof.
  revert start. induction l as [|a l IH]; intros start H; [reflexivity|].
  simpl in *. apply andb_prop in H. destruct H as [-> H]. apply IH. exact H.
Qed.

Lemma insert_songs_session movie_id songs_order cm w :
  forallb clean songs_order = true ->
  insert_songs movie_id songs_order (session cm w)
  = (Ok (fst (song_rows movie_id songs_order w)),
     session cm (snd (song_rows movie_id songs_order w))).
Proof.
  intros Hc. apply insert_songs_loop.
  apply (forallb_combine_seq _ clean). exact Hc.
Qed.

Lemma clean_dict_get name (commentary_data : dict string) text :
  forallb (fun entry => clean (snd entry)) commentary_data = true ->
  dict_get name commentary_data = Some text -> clean text = true.
Proof.
  induction commentary_data as [|[k t] tl IH]; simpl; [discriminate|].
  intros H G. apply andb_prop in H. destruct H as [Ht Htl].
  destruct (String.eqb k name); [injection G as <-; exact Ht|auto].
Qed.

Lemma song_commentaries_loop movie_id ctype language commentary_data sm cm w :
  clean ctype = true -> clean language = true ->
  forallb (fun entry => clean (snd entry)) commentary_data = true ->
  for_each sm (fun '(song_name, song_id) =>
      match dict_get song_name commentary_data with
      | Some text =>
        execute [ctype; language; text]
                (Sql.insert_commentary movie_id (Some song_id) ctype
                                       language text)
      | None => ret tt
      end) (session cm w)
  = (Ok tt,
     session cm (fold_left (song_commentary_step movie_id ctype language
                                                 commentary_data) sm w)).
Proof.
  intros Ht Hl Hd.
  revert w. induction sm as [|[name id] tl IH]; intros w; simpl; [reflexivity|].
  unfold song_commentary_step at 2. simpl.
  destruct (dict_get name commentary_data) as [text|] eqn:G; [|run; apply IH].
  pose proof (clean_dict_get name commentary_data text Hd G) as Hx.
  run. apply IH.
Qed.

Lemma insert_block_session movie_id ctype sm language commentary_data cm w :
  nonempty commentary_data = true ->
  clean ctype = true -> clean language = true ->
  forallb (fun entry => clean (snd entry)) commentary_data = true ->
  insert_block movie_id (Some ctype) sm language commentary_data (session cm w)
  = (Ok tt, session cm (block_rows movie_id ctype sm w (language, commentary_data))).
Proof using.
  clear strptime_beyond_ascii.
  destruct commentary_data as [|[k text] tl]; [discriminate|].
  intros _ Ht Hl Hd.
  assert (Hx : clean text = true)
    by (simpl in Hd; apply andb_prop in Hd; tauto).
  unfold insert_block, block_rows. run.
  apply song_commentaries_loop; assumption.
Qed.

Lemma insert_commentaries_session movie_id ctype sm blocks cm w :
  forallb (fun lb => nonempty (snd lb)) blocks = true ->
  clean ctype = true -> clean_blocks blocks = true ->
  insert_commentaries movie_id (Some ctype) sm blocks (session cm w)
  = (Ok tt, session cm (commentary_rows movie_id ctype sm blocks w)).
Proof using.
  unfold insert_commentaries, commentary_rows, clean_blocks. intros H Ht Hc.
  revert w H Hc.
  induction blocks as [|[lang b] tl IH]; intros w H Hc; simpl; [reflexivity|].
  simpl in H, Hc. apply andb_prop in H. destruct H as [Hb Htl].
  apply andb_prop in Hc. destruct Hc as [Hlb Hc].
  apply andb_prop in Hlb. destruct Hlb as [Hl Hd].
  rewrite (bind_ok _ _ _ _ _ _ _
             (insert_block_session movie_id ctype sm lang b cm w Hb Ht Hl Hd)).
  apply IH; assumption.
Qed.

Lemma bind_cursor_session (B : Type) (k : unit -> M B) cm w :
  bind cursor k (session cm w) = k tt (session cm w).
Proof. reflexivity. Qed.

(** An empty language stops the commentaries with [IndexError]; the rows
    of the languages before it stay in the open transaction. *)
Lemma insert_commentaries_empty_block movie_id ctype sm blocks cm w :
  forallb (fun lb => nonempty (snd lb)) blocks = false ->
  clean ctype = true -> clean_blocks blocks = true ->
  insert_commentaries movie_id (Some ctype) sm blocks (session cm w)
  = (Raise IndexError,
     session cm (commentary_rows movie_id ctype sm (before_empty blocks) w)).
Proof using.
  unfold insert_commentaries, commentary_rows, clean_blocks. intros H Ht Hc.
  revert w H Hc.
  induction blocks as [|[lang b] tl IH]; intros w H Hc; simpl in H;
    [discriminate|].
  simpl for_each. destruct b as [|e b'].
  - reflexivity.
  - simpl in H, Hc.
    apply andb_prop in Hc. destruct Hc as [Hlb Hc].
    apply andb_prop in Hlb. destruct Hlb as [Hl Hd].
    rewrite (bind_ok _ _ _ _ _ _ _
               (insert_block_session movie_id ctype sm lang (e :: b') cm w
                                     eq_refl Ht Hl Hd)).
    cbn [before_empty fold_left]. apply IH; assumption.
Qed.


(** A loadable document on a healthy session: the four steps run and the
    rows are committed. *)
Lemma clean_fields_inv v :
  clean_fields v = true ->
  forallb clean [f_movie_name v; f_director v; f_producer v;
                 f_music_director v; f_lyricist v] = true
  /\ forallb clean (f_cast v) = true
  /\ forallb clean (f_songs_order v) = true
  /\ clean (f_commentary_type v) = true
  /\ clean_blocks (f_commentaries v) = true.
Proof.
  unfold clean_fields. intros H.
  apply andb_prop in H. destruct H as [H H5].
  apply andb_prop in H. destruct H as [H H4].
  apply andb_prop in H. destruct H as [H H3].
  apply andb_prop in H. destruct H as [H1 H2]. auto.
Qed.

Lemma load_session f v cm w :
  fields f = Some v ->
  forallb (fun lb => nonempty (snd lb)) (f_commentaries v) = true ->
  clean_fields v = true ->
  load_yaml_file f (session cm w) = (Ok tt, session (ingest v w) (ingest v w)).
Proof.
  destruct f as [p [[[[[n|] [t|] [d|] [pr|] [m|] [l|] [ca|]]|] [so|] [ct|] [bl|]]|]];
    unfold fields; simpl; try discriminate.
  destruct (datetime_strptime t) as [rd|] eqn:Et; [|discriminate].
  intros Hv Hb Hc. injection Hv as <-. simpl in Hb.
  apply clean_fields_inv in Hc. simpl in Hc.
  destruct Hc as [C1 [C2 [C3 [C4 C5]]]].
  unfold load_yaml_file. run. rewrite bind_cursor_session. run.
  unfold strptime. rewrite Et. run.
  rewrite (bind_ok _ _ _ _ _ _ _
             (insert_movie_session n (Some t) d pr m l (Some ca) rd cm w C1)).
  unfold ingest. simpl.
  destruct (movie_rows n rd d pr m l w) as [mid w1]. simpl.
  run.
  rewrite (bind_ok _ _ _ _ _ _ _ (insert_cast_session mid ca cm w1 C2)).
  run.
  rewrite (bind_ok _ _ _ _ _ _ _
             (insert_songs_session mid so cm (cast_rows mid ca w1) C3)).
  destruct (song_rows mid so (cast_rows mid ca w1)) as [sm w3]. simpl.
  run.
  rewrite (bind_ok _ _ _ _ _ _ _
             (insert_commentaries_session mid ct sm bl cm w3 Hb C4 C5)).
  run. apply commit_session.
Qed.

(** A document with every field and an empty language raises [IndexError]
    on a healthy session, with nothing committed: the rows pending are
    those of the document cut before the empty language. *)
Lemma load_session_empty_block f v cm w :
  fields f = Some v ->
  forallb (fun lb => nonempty (snd lb)) (f_commentaries v) = false ->
  clean_fields v = true ->
  load_yaml_file f (session cm w)
  = (Raise IndexError, session cm (ingest (cut_at_empty v) w)).
Proof.
  destruct f as [p [[[[[n|] [t|] [d|] [pr|] [m|] [l|] [ca|]]|] [so|] [ct|] [bl|]]|]];
    unfold fields; simpl; try discriminate.
  destruct (datetime_strptime t) as [rd|] eqn:Et; [|discriminate].
  intros Hv Hb Hc. injection Hv as <-. simpl in Hb.
  apply clean_fields_inv in Hc. simpl in Hc.
  destruct Hc as [C1 [C2 [C3 [C4 C5]]]].
  unfold load_yaml_file. run. rewrite bind_cursor_session. run.
  unfold strptime. rewrite Et. run.
  rewrite (bind_ok _ _ _ _ _ _ _
             (insert_movie_session n (Some t) d pr m l (Some ca) rd cm w C1)).
  unfold ingest, cut_at_empty. simpl.
  destruct (movie_rows n rd d pr m l w) as [mid w1]. simpl.
  run.
  rewrite (bind_ok _ _ _ _ _ _ _ (insert_cast_session mid ca cm w1 C2)).
  run.
  rewrite (bind_ok _ _ _ _ _ _ _
             (insert_songs_session mid so cm (cast_rows mid ca w1) C3)).
  destruct (song_rows mid so (cast_rows mid ca w1)) as [sm w3]. simpl.
  run.
  apply bind_raise.
  apply (insert_commentaries_empty_block mid ct sm bl cm w3 Hb C4 C5).
Qed.




(* ================================================================== *)
(** * Runs on any session: what holds after a step, returned or raised *)

Section HoareRules.
Variables (P : Conn -> Prop) (E : exn -> Conn -> Prop).

Lemma hoare_bind (A B : Type) (m : M A) (k : A -> M B)
      (R : A -> Conn -> Prop) (Q : B -> Conn -> Prop) :
  hoare A P m R E -> (forall a, hoare B (R a) (k a) Q E) ->
  hoare B P (bind m k) Q E.
Proof.
  intros Hm Hk c Hc. unfold bind. specialize (Hm c Hc).
  destruct (m c) as [[a|e] c']; [apply Hk; exact Hm|exact Hm].
Qed.

Lemma hoare_ret (A : Type) (a : A) (Q : A -> Conn -> Prop) :
  (forall c, P c -> Q a c) -> hoare A P (ret a) Q E.
Proof. intros H c Hc. apply H. exact Hc. Qed.

Lemma hoare_raise (A : Type) (e : exn) (Q : A -> Conn -> Prop) :
  (forall c, P c -> E e c) -> hoare A P (raise A e) Q E.
Proof. intros H c Hc. apply H. exact Hc. Qed.
End HoareRules.

(** An invariant [I] of the session that every request keeps, with what
    holds when a step raises, [E]: the steps before [commit] keep [I]. *)
Section Invariant.
Variable I : Conn -> Prop.
Variable E : exn -> Conn -> Prop.
Hypothesis E_python :
  forall e c, raised_by_store e = false -> I c -> E e c.
Hypothesis I_execute :
  forall (A : Type) params (stmt : DB -> A * DB),
    keeps I E A (execute params stmt).
Hypothesis I_cursor : keeps I E unit cursor.

Lemma keeps_bind (A B : Type) (m : M A) (k : A -> M B) :
  keeps I E A m -> (forall a, keeps I E B (k a)) -> keeps I E B (bind m k).
Proof. intros Hm Hk. apply hoare_bind with (R := fun _ => I); assumption. Qed.

Lemma keeps_ret (A : Type) (a : A) : keeps I E A (ret a).
Proof. apply hoare_ret. auto. Qed.

Lemma keeps_raise (A : Type) (e : exn) :
  raised_by_store e = false -> keeps I E A (raise A e).
Proof. intros He. apply hoare_raise. intros c. apply E_python. exact He. Qed.

Lemma keeps_getitem (A : Type) key (field : option A) :
  keeps I E A (getitem key field).
Proof. destruct field; [apply keeps_ret|apply keeps_raise; reflexivity]. Qed.

Lemma keeps_subscript0 row : keeps I E nat (subscript0 row).
Proof. destruct row; [apply keeps_ret|apply keeps_raise; reflexivity]. Qed.

Lemma keeps_strptime s : keeps I E Strptime.date (strptime s).
Proof.
  unfold strptime. destruct (datetime_strptime s);
    [apply keeps_ret|apply keeps_raise; reflexivity].
Qed.

Lemma keeps_safe_load f : keeps I E Yaml.Document (safe_load f).
Proof.
  unfold safe_load. destruct (Yaml.content f);
    [apply keeps_ret|apply keeps_raise; reflexivity].
Qed.

Lemma keeps_for_each (A : Type) (l : list A) (body : A -> M unit) :
  (forall x, keeps I E unit (body x)) -> keeps I E unit (for_each l body).
Proof.
  intros Hb. induction l as [|x tl IH]; simpl.
  - apply keeps_ret.
  - apply keeps_bind; [apply Hb|intros _; exact IH].
Qed.

Lemma keeps_for_fold (A S : Type) (l : list A) (s : S) (body : A -> S -> M S) :
  (forall x s, keeps I E S (body x s)) -> keeps I E S (for_fold l s body).
Proof.
  intros Hb. revert s. induction l as [|x tl IH]; intros s; simpl.
  - apply keeps_ret.
  - apply keeps_bind; [apply Hb|intros s'; apply IH].
Qed.

Ltac keeps_auto :=
  repeat first
         [ apply keeps_ret | apply keeps_getitem
         | apply keeps_subscript0 | apply keeps_strptime
         | apply keeps_safe_load | apply I_cursor
         | apply I_execute
         | apply keeps_bind; [|intros ?] ].

Lemma keeps_insert_movie md rd : keeps I E nat (insert_movie md rd).
Proof.
  unfold insert_movie.
  do 5 (apply keeps_bind; [apply keeps_getitem|intros ?]).
  apply keeps_bind; [apply I_execute|intros result].
  destruct result; keeps_auto.
Qed.

Lemma keeps_insert_cast movie_id cast :
  keeps I E unit (insert_cast movie_id cast).
Proof. unfold insert_cast. apply keeps_for_each. intros x. keeps_auto. Qed.

Lemma keeps_insert_songs movie_id songs_order :
  keeps I E (dict nat) (insert_songs movie_id songs_order).
Proof.
  unfold insert_songs. apply keeps_for_fold. intros [idx name] s. keeps_auto.
Qed.

Lemma keeps_insert_block movie_id ct sm language commentary_data :
  keeps I E unit (insert_block movie_id ct sm language commentary_data).
Proof.
  unfold insert_block. destruct commentary_data as [|[k text] tl].
  - apply keeps_raise. reflexivity.
  - keeps_auto. apply keeps_for_each. intros [name id].
    destruct (dict_get name ((k, text) :: tl)); keeps_auto.
Qed.

Lemma keeps_insert_commentaries movie_id ct sm blocks :
  keeps I E unit (insert_commentaries movie_id ct sm blocks).
Proof.
  unfold insert_commentaries. apply keeps_for_each. intros [lang b].
  apply keeps_insert_block.
Qed.

(** What holds after [commit] decides what holds after
    [load_yaml_file]. *)
Lemma load_yaml_file_hoare f (Q : unit -> Conn -> Prop) :
  hoare unit I commit Q E ->
  hoare unit I (load_yaml_file f) Q E.
Proof.
  intros Hcommit. unfold load_yaml_file.
  repeat first
         [ exact Hcommit
         | apply keeps_insert_movie | apply keeps_insert_cast
         | apply keeps_insert_songs | apply keeps_insert_commentaries
         | apply keeps_getitem | apply keeps_strptime
         | apply keeps_safe_load | apply I_cursor
         | apply hoare_bind with (R := fun _ => I); [|intros ?] ].
Qed.
End Invariant.

(** Nothing but [commit] changes the committed rows. *)
Lemma execute_committed (A : Type) params (stmt : DB -> A * DB) c :
  committed (snd (execute params stmt c)) = committed c.
Proof.
  unfold execute. destruct (forallb clean params);
    destruct (status c); try reflexivity.
  destruct (faults c) as [|[[]|] fs]; try reflexivity;
    destruct (stmt (working c)); reflexivity.
Qed.

(** A file that raises leaves the committed rows as they were. *)
Lemma load_raise_committed f c e c' :
  load_yaml_file f c = (Raise e, c') -> committed c' = committed c.
Proof.
  intros H.
  assert (T : hoare unit (fun x => committed x = committed c) (load_yaml_file f)
                    (fun _ _ => True) (fun _ x => committed x = committed c)).
  { apply load_yaml_file_hoare.
    - auto.
    - intros A params stmt x Hx.
      pose proof (execute_committed A params stmt x) as Hc.
      destruct (execute params stmt x) as [[a|e0] x']; simpl in Hc; congruence.
    - intros x Hx. unfold cursor. destruct (status x); exact Hx.
    - intros x Hx. unfold commit.
      destruct (status x); simpl; auto.
      destruct (faults x) as [|[[]|] fs]; simpl; auto. }
  specialize (T c eq_refl). rewrite H in T. exact T.
Qed.

Ltac by_status x :=
  destruct (status x) eqn:?;
  [destruct (faults x) as [|[[]|] ?]|..];
  simpl.



(** On a closed connection every file raises before any statement. *)
Lemma load_closed f c :
  status c = Closed -> load_yaml_file f c = (Raise (closed_error f), c).
Proof.
  intros S. unfold load_yaml_file, closed_error, safe_load.
  destruct (Yaml.content f) as [data|]; [|reflexivity].
  rewrite bind_ret. unfold bind, cursor. rewrite S. reflexivity.
Qed.

Lemma bind_cursor_aborted (B : Type) (k : unit -> M B) c :
  status c = Aborted -> bind cursor k c = k tt c.
Proof. intros S. unfold bind, cursor. rewrite S. reflexivity. Qed.

Lemma bind_execute_aborted (A B : Type) params (stmt : DB -> A * DB)
      (k : A -> M B) c :
  status c = Aborted ->
  bind (execute params stmt) k c
  = (Raise (if forallb clean params then InFailedSqlTransaction
            else ValueError), c).
Proof.
  intros S. unfold bind, execute. rewrite S.
  destruct (forallb clean params); reflexivity.
Qed.

(** In an aborted transaction every file raises, at the latest at its
    first statement. *)
Lemma load_aborted f c :
  status c = Aborted -> exists e, load_yaml_file f c = (Raise e, c).
Proof.
  intros S. destruct f as [p [[md so ct bl]|]];
    [|exists YAMLError; reflexivity].
  unfold load_yaml_file. run. rewrite (bind_cursor_aborted _ _ _ S). run.
  destruct md as [[n t d pr m l ca]|]; [|run; eauto].
  run. destruct t as [t|]; [|run; eauto].
  run. unfold strptime at 1.
  destruct (datetime_strptime t) as [rd|]; [|run; eauto].
  run. unfold insert_movie. run.
  destruct n as [n|]; [|run; eauto]. run.
  destruct d as [d|]; [|run; eauto]. run.
  destruct pr as [pr|]; [|run; eauto]. run.
  destruct m as [m|]; [|run; eauto]. run.
  destruct l as [l|]; [|run; eauto]. run.
  rewrite (bind_execute_aborted _ _ _ _ _ _ S). eauto.
Qed.

Lemma load_not_ready f c :
  status c <> Ready -> exists e, load_yaml_file f c = (Raise e, c).
Proof.
  intros S. destruct (status c) eqn:Sc; [congruence| |].
  - apply load_aborted. exact Sc.
  - eexists. apply load_closed. exact Sc.
Qed.

(* ================================================================== *)
(** * The batch loop *)

Lemma main_loop_cons f rest c :
  main_loop (f :: rest) c
  = ((Yaml.path f,
      match fst (load_yaml_file f c) with Ok _ => None | Raise e => Some e end)
       :: fst (main_loop rest (snd (load_yaml_file f c))),
     snd (main_loop rest (snd (load_yaml_file f c)))).
Proof.
  simpl. destruct (load_yaml_file f c) as [[[]|e] c1]; simpl;
    destruct (main_loop rest c1); reflexivity.
Qed.








(* ================================================================== *)
(** * Lists, keys and lookups *)

Lemma fresh_above ids x : In x ids -> x < fresh ids.
Proof.
  intros H. unfold fresh.
  assert (L : list_max ids <= list_max ids) by lia.
  apply list_max_le in L. rewrite Forall_forall in L.
  specialize (L x H). lia.
Qed.

Lemma fresh_not_in ids : ~ In (fresh ids) ids.
Proof. intros H. apply fresh_above in H. lia. Qed.

Lemma NoDup_map_snoc (A B : Type) (f : A -> B) (l : list A) (x : A) :
  NoDup (map f l) -> ~ In (f x) (map f l) -> NoDup (map f (l ++ [x])).
Proof.
  intros N H. rewrite map_app. simpl.
  apply NoDup_app; [exact N|constructor; [intros []|constructor]|].
  intros y Hy [<-|[]]. exact (H Hy).
Qed.

Lemma NoDup_map_inj (A B : Type) (f : A -> B) (l : list A) x y :
  NoDup (map f l) -> In x l -> In y l -> f x = f y -> x = y.
Proof.
  induction l as [|a l IH]; simpl; [intros _ []|].
  intros N Hx Hy E. inversion N as [|? ? Ha N']; subst.
  destruct Hx as [<-|Hx], Hy as [<-|Hy]; auto.
  - exfalso. apply Ha. rewrite E. apply in_map. exact Hy.
  - exfalso. apply Ha. rewrite <- E. apply in_map. exact Hx.
Qed.

(** Under a uniqueness constraint the rows a key selects are one row. *)
Lemma filter_unique (A B : Type) (f : A -> B) (p : A -> bool) (l : list A) x :
  NoDup (map f l) -> In x l -> p x = true ->
  (forall y, In y l -> p y = true -> f y = f x) ->
  filter p l = [x].
Proof.
  induction l as [|a l IH]; simpl; [intros _ []|].
  intros N Hx Px U. inversion N as [|? ? Ha N']; subst.
  assert (Rest : forall y, In y l -> y <> x -> p y = false).
  { intros y Hy Ne. destruct (p y) eqn:Py; [|reflexivity].
    exfalso. apply Ne.
    apply (NoDup_map_inj A B f (a :: l) y x N); simpl; auto. }
  destruct Hx as [->|Hx].
  - rewrite Px. f_equal.
    assert (F : forall y, In y l -> p y = false).
    { intros y Hy. apply Rest; [exact Hy|]. intros ->. apply Ha.
      apply in_map. exact Hy. }
    clear - F. induction l as [|b l IH]; [reflexivity|]. simpl.
    rewrite (F b (or_introl eq_refl)). apply IH. intros y Hy. apply F.
    right. exact Hy.
  - assert (Pa : p a = false).
    { destruct (p a) eqn:Pa; [|reflexivity]. exfalso. apply Ha.
      rewrite (U a (or_introl eq_refl) Pa). apply in_map. exact Hx. }
    rewrite Pa. apply IH; auto.
Qed.

Lemma find_app_some (A : Type) (p : A -> bool) (l suffix : list A) x :
  find p l = Some x -> find p (l ++ suffix) = Some x.
Proof. intros H. rewrite find_app, H. reflexivity. Qed.

Lemma existsb_app_true (A : Type) (p : A -> bool) (l suffix : list A) :
  existsb p l = true -> existsb p (l ++ suffix) = true.
Proof. intros H. rewrite existsb_app, H. reflexivity. Qed.

Lemma find_none_not_in (A B : Type) (f : A -> B) (p : A -> bool) (l : list A) k :
  (forall y, f y = k -> p y = true) ->
  find p l = None -> ~ In k (map f l).
Proof.
  intros Hp F H. apply in_map_iff in H. destruct H as [y [E Hy]].
  pose proof (find_none _ _ F y Hy) as N. rewrite (Hp y E) in N. discriminate.
Qed.

Lemma is_song_key movie_id name r :
  Sql.is_song movie_id name r = true <-> song_key r = (movie_id, name).
Proof.
  unfold Sql.is_song, song_key. rewrite andb_true_iff, Nat.eqb_eq, String.eqb_eq.
  split; [intros [-> ->]; reflexivity|intros H; injection H; auto].
Qed.

Lemma is_pair_key movie_id cast_id r :
  Sql.is_pair movie_id cast_id r = true <-> pair_key r = (movie_id, cast_id).
Proof.
  unfold Sql.is_pair, pair_key. rewrite andb_true_iff, !Nat.eqb_eq.
  split; [intros [-> ->]; reflexivity|intros H; injection H; auto].
Qed.

Lemma movie_named_iff name r :
  Sql.movie_named name r = true <-> Movies.movie_name r = name.
Proof. apply String.eqb_eq. Qed.

Lemma cast_named_iff name r :
  Sql.cast_named name r = true <-> CastMembers.cast_name r = name.
Proof. apply String.eqb_eq. Qed.

(* ================================================================== *)
(** * The statements: what grows, what stays unique *)

Lemma prefix_refl (A : Type) (l : list A) : prefix l l.
Proof. exists []. symmetry. apply app_nil_r. Qed.

Lemma prefix_snoc (A : Type) (l : list A) x : prefix l (l ++ [x]).
Proof. exists [x]. reflexivity. Qed.

Lemma prefix_trans (A : Type) (l1 l2 l3 : list A) :
  prefix l1 l2 -> prefix l2 l3 -> prefix l1 l3.
Proof.
  intros [s1 ->] [s2 ->]. exists (s1 ++ s2). symmetry. apply app_assoc.
Qed.

Lemma prefix_in (A : Type) (l l' : list A) x : prefix l l' -> In x l -> In x l'.
Proof. intros [s ->] H. apply in_or_app. left. exact H. Qed.


Lemma prefix_find (A : Type) (p : A -> bool) (l l' : list A) x :
  prefix l l' -> find p l = Some x -> find p l' = Some x.
Proof. intros [s ->]. apply find_app_some. Qed.

Lemma prefix_existsb (A : Type) (p : A -> bool) (l l' : list A) :
  prefix l l' -> existsb p l = true -> existsb p l' = true.
Proof. intros [s ->]. apply existsb_app_true. Qed.

Lemma grows_refl w : grows w w.
Proof. constructor; apply prefix_refl. Qed.

Lemma grows_trans w1 w2 w3 : grows w1 w2 -> grows w2 w3 -> grows w1 w3.
Proof.
  intros [a1 b1 c1 d1 e1] [a2 b2 c2 d2 e2].
  constructor; eapply prefix_trans; eassumption.
Qed.

Lemma set_order_ident movie_id name idx r :
  song_ident (Sql.set_order movie_id name idx r) = song_ident r.
Proof. unfold Sql.set_order. destruct (Sql.is_song movie_id name r); reflexivity. Qed.

Lemma set_order_key movie_id name idx r :
  song_key (Sql.set_order movie_id name idx r) = song_key r.
Proof. unfold Sql.set_order. destruct (Sql.is_song movie_id name r); reflexivity. Qed.

Lemma set_order_id movie_id name idx r :
  Songs.song_id (Sql.set_order movie_id name idx r) = Songs.song_id r.
Proof. unfold Sql.set_order. destruct (Sql.is_song movie_id name r); reflexivity. Qed.

Lemma map_set_order (B : Type) (f : Songs.row -> B) movie_id name idx l :
  (forall r, f (Sql.set_order movie_id name idx r) = f r) ->
  map f (map (Sql.set_order movie_id name idx) l) = map f l.
Proof.
  intros H. rewrite map_map. apply map_ext. exact H.
Qed.

Ltac grows_now :=
  constructor; simpl;
  first [ apply prefix_refl | apply prefix_snoc
        | rewrite map_app; apply prefix_snoc ].

Lemma insert_movie_grows n rd d p m l w :
  grows w (snd (Sql.insert_movie n rd d p m l w)).
Proof.
  unfold Sql.insert_movie. destruct (existsb _ _); simpl;
    [apply grows_refl|grows_now].
Qed.

Lemma insert_cast_member_grows name w :
  grows w (snd (Sql.insert_cast_member name w)).
Proof.
  unfold Sql.insert_cast_member. destruct (existsb _ _); simpl;
    [apply grows_refl|grows_now].
Qed.

Lemma insert_movie_cast_grows movie_id cast_id w :
  grows w (snd (Sql.insert_movie_cast movie_id cast_id w)).
Proof.
  unfold Sql.insert_movie_cast. destruct (existsb _ _); simpl;
    [apply grows_refl|grows_now].
Qed.

Lemma upsert_song_grows movie_id name idx w :
  grows w (snd (Sql.upsert_song movie_id name idx w)).
Proof.
  unfold Sql.upsert_song. destruct (find _ _); simpl.
  - constructor; simpl; try apply prefix_refl.
    rewrite (map_set_order _ song_ident); [apply prefix_refl|].
    apply set_order_ident.
  - grows_now.
Qed.

Lemma insert_commentary_grows movie_id song_id ct lang text w :
  grows w (snd (Sql.insert_commentary movie_id song_id ct lang text w)).
Proof. unfold Sql.insert_commentary. grows_now. Qed.

(** The uniqueness constraints survive every statement. *)
Lemma insert_movie_unique n rd d p m l w :
  unique_keys w -> unique_keys (snd (Sql.insert_movie n rd d p m l w)).
Proof.
  intros U. unfold Sql.insert_movie.
  destruct (existsb (Sql.movie_named n) (movies w)) eqn:E; simpl; [exact U|].
  destruct U. constructor; simpl; auto.
  - apply NoDup_map_snoc; [assumption|]. simpl.
    intros H. apply in_map_iff in H. destruct H as [r [Hn Hr]].
    assert (existsb (Sql.movie_named n) (movies w) = true).
    { apply existsb_exists. exists r. split; [exact Hr|].
      apply movie_named_iff. exact Hn. }
    congruence.
  - apply NoDup_map_snoc; [assumption|]. apply fresh_not_in.
Qed.

Lemma insert_cast_member_unique name w :
  unique_keys w -> unique_keys (snd (Sql.insert_cast_member name w)).
Proof.
  intros U. unfold Sql.insert_cast_member.
  destruct (existsb (Sql.cast_named name) (cast_members w)) eqn:E; simpl;
    [exact U|].
  destruct U. constructor; simpl; auto.
  - apply NoDup_map_snoc; [assumption|]. simpl.
    intros H. apply in_map_iff in H. destruct H as [r [Hn Hr]].
    assert (existsb (Sql.cast_named name) (cast_members w) = true).
    { apply existsb_exists. exists r. split; [exact Hr|].
      apply cast_named_iff. exact Hn. }
    congruence.
  - apply NoDup_map_snoc; [assumption|]. apply fresh_not_in.
Qed.

Lemma insert_movie_cast_unique movie_id cast_id w :
  unique_keys w -> unique_keys (snd (Sql.insert_movie_cast movie_id cast_id w)).
Proof.
  intros U. unfold Sql.insert_movie_cast.
  destruct (existsb (Sql.is_pair movie_id cast_id) (movie_cast w)) eqn:E; simpl;
    [exact U|].
  destruct U. constructor; simpl; auto.
  apply NoDup_map_snoc; [assumption|]. simpl.
  intros H. apply in_map_iff in H. destruct H as [r [Hn Hr]].
  assert (existsb (Sql.is_pair movie_id cast_id) (movie_cast w) = true).
  { apply existsb_exists. exists r. split; [exact Hr|].
    apply is_pair_key. exact Hn. }
  congruence.
Qed.

Lemma upsert_song_unique movie_id name idx w :
  unique_keys w -> unique_keys (snd (Sql.upsert_song movie_id name idx w)).
Proof.
  intros U. unfold Sql.upsert_song.
  destruct (find (Sql.is_song movie_id name) (songs w)) as [r|] eqn:F; simpl.
  - destruct U. constructor; simpl; auto.
    + rewrite (map_set_order _ song_key); [assumption|apply set_order_key].
    + rewrite (map_set_order _ Songs.song_id); [assumption|apply set_order_id].
  - destruct U. constructor; simpl; auto.
    + apply NoDup_map_snoc; [assumption|]. simpl.
      apply (find_none_not_in _ _ song_key (Sql.is_song movie_id name) _
                              (movie_id, name)); [|exact F].
      intros y. apply is_song_key.
    + apply NoDup_map_snoc; [assumption|]. apply fresh_not_in.
Qed.

Lemma insert_commentary_unique movie_id song_id ct lang text w :
  unique_keys w ->
  unique_keys (snd (Sql.insert_commentary movie_id song_id ct lang text w)).
Proof.
  intros U. unfold Sql.insert_commentary. destruct U. constructor; simpl; auto.
  apply NoDup_map_snoc; [assumption|]. apply fresh_not_in.
Qed.

(* ================================================================== *)
(** * The four steps: what grows, what stays unique *)

Arguments song_step : simpl never.

Lemma fold_left_keeps (A S : Type) (step : S -> A -> S) (P : S -> Prop) :
  (forall s x, P s -> P (step s x)) ->
  forall l s, P s -> P (fold_left step l s).
Proof.
  intros H l. induction l as [|x tl IH]; intros s Hs; simpl; auto.
Qed.

Lemma fold_left_grows (A : Type) (step : DB -> A -> DB) :
  (forall w x, grows w (step w x)) ->
  forall l w, grows w (fold_left step l w).
Proof.
  intros H l. induction l as [|x tl IH]; intros w; simpl.
  - apply grows_refl.
  - eapply grows_trans; [apply H|apply IH].
Qed.

Lemma movie_rows_snd n rd d p m l w :
  snd (movie_rows n rd d p m l w) = snd (Sql.insert_movie n rd d p m l w).
Proof.
  unfold movie_rows. destruct (Sql.insert_movie n rd d p m l w) as [[id|] w'];
    reflexivity.
Qed.

Lemma movie_rows_grows n rd d p m l w :
  grows w (snd (movie_rows n rd d p m l w)).
Proof. rewrite movie_rows_snd. apply insert_movie_grows. Qed.

Lemma movie_rows_unique n rd d p m l w :
  unique_keys w -> unique_keys (snd (movie_rows n rd d p m l w)).
Proof. rewrite movie_rows_snd. apply insert_movie_unique. Qed.

Lemma cast_step_grows movie_id w name : grows w (cast_step movie_id w name).
Proof.
  unfold cast_step.
  destruct (fst (Sql.select_cast_id name (snd (Sql.insert_cast_member name w)))).
  - eapply grows_trans; [apply insert_cast_member_grows|].
    apply insert_movie_cast_grows.
  - apply insert_cast_member_grows.
Qed.

Lemma cast_step_unique movie_id w name :
  unique_keys w -> unique_keys (cast_step movie_id w name).
Proof.
  intros U. unfold cast_step.
  destruct (fst (Sql.select_cast_id name (snd (Sql.insert_cast_member name w)))).
  - apply insert_movie_cast_unique, insert_cast_member_unique, U.
  - apply insert_cast_member_unique, U.
Qed.

Lemma cast_rows_grows movie_id cast w : grows w (cast_rows movie_id cast w).
Proof. apply fold_left_grows. apply cast_step_grows. Qed.

Lemma cast_rows_unique movie_id cast w :
  unique_keys w -> unique_keys (cast_rows movie_id cast w).
Proof. apply fold_left_keeps. intros s x. apply cast_step_unique. Qed.

Lemma song_step_snd movie_id sm w idx name :
  snd (song_step movie_id (sm, w) (idx, name))
  = snd (Sql.upsert_song movie_id name idx w).
Proof.
  unfold song_step. destruct (Sql.upsert_song movie_id name idx w) as [[id|] w'];
    reflexivity.
Qed.

Lemma song_fold_grows movie_id xs sm w :
  grows w (snd (fold_left (song_step movie_id) xs (sm, w))).
Proof.
  revert sm w. induction xs as [|[idx name] tl IH]; intros sm w; simpl.
  - apply grows_refl.
  - destruct (song_step movie_id (sm, w) (idx, name)) as [sm1 w1] eqn:E.
    eapply grows_trans; [|apply IH].
    replace w1 with (snd (song_step movie_id (sm, w) (idx, name)))
      by (rewrite E; reflexivity).
    rewrite song_step_snd. apply upsert_song_grows.
Qed.

Lemma song_fold_unique movie_id xs sm w :
  unique_keys w ->
  unique_keys (snd (fold_left (song_step movie_id) xs (sm, w))).
Proof.
  revert sm w. induction xs as [|[idx name] tl IH]; intros sm w U; simpl.
  - exact U.
  - destruct (song_step movie_id (sm, w) (idx, name)) as [sm1 w1] eqn:E.
    apply IH.
    replace w1 with (snd (song_step movie_id (sm, w) (idx, name)))
      by (rewrite E; reflexivity).
    rewrite song_step_snd. apply upsert_song_unique. exact U.
Qed.

Lemma song_rows_grows movie_id names w :
  grows w (snd (song_rows movie_id names w)).
Proof. apply song_fold_grows. Qed.

Lemma song_rows_unique movie_id names w :
  unique_keys w -> unique_keys (snd (song_rows movie_id names w)).
Proof. apply song_fold_unique. Qed.

Lemma song_commentary_step_grows movie_id ct lang b w entry :
  grows w (song_commentary_step movie_id ct lang b w entry).
Proof.
  unfold song_commentary_step. destruct (dict_get (fst entry) b).
  - apply insert_commentary_grows.
  - apply grows_refl.
Qed.

Lemma song_commentary_step_unique movie_id ct lang b w entry :
  unique_keys w -> unique_keys (song_commentary_step movie_id ct lang b w entry).
Proof.
  intros U. unfold song_commentary_step. destruct (dict_get (fst entry) b).
  - apply insert_commentary_unique. exact U.
  - exact U.
Qed.

Lemma block_rows_grows movie_id ct sm w lb :
  grows w (block_rows movie_id ct sm w lb).
Proof.
  destruct lb as [lang [|[k text] tl]]; simpl; [apply grows_refl|].
  eapply grows_trans; [apply insert_commentary_grows|].
  apply fold_left_grows. intros. apply song_commentary_step_grows.
Qed.

Lemma block_rows_unique movie_id ct sm w lb :
  unique_keys w -> unique_keys (block_rows movie_id ct sm w lb).
Proof.
  intros U. destruct lb as [lang [|[k text] tl]]; simpl; [exact U|].
  apply fold_left_keeps.
  - intros s x. apply song_commentary_step_unique.
  - apply insert_commentary_unique. exact U.
Qed.

Lemma commentary_rows_grows movie_id ct sm blocks w :
  grows w (commentary_rows movie_id ct sm blocks w).
Proof. apply fold_left_grows. intros. apply block_rows_grows. Qed.

Lemma commentary_rows_unique movie_id ct sm blocks w :
  unique_keys w -> unique_keys (commentary_rows movie_id ct sm blocks w).
Proof. apply fold_left_keeps. intros s x. apply block_rows_unique. Qed.

(** Ingesting a document appends rows and changes no row but the ordinal
    of a song; the uniqueness constraints survive it. *)
Lemma ingest_grows v w : grows w (ingest v w).
Proof.
  unfold ingest.
  pose proof (movie_rows_grows (f_movie_name v) (f_release_date v)
                (f_director v) (f_producer v) (f_music_director v)
                (f_lyricist v) w) as G1.
  destruct (movie_rows _ _ _ _ _ _ w) as [mid w1]. simpl in G1.
  pose proof (song_rows_grows mid (f_songs_order v)
                              (cast_rows mid (f_cast v) w1)) as G3.
  destruct (song_rows _ _ _) as [sm w3]. simpl in G3.
  eapply grows_trans; [exact G1|].
  eapply grows_trans; [apply cast_rows_grows|].
  eapply grows_trans; [exact G3|]. apply commentary_rows_grows.
Qed.

Lemma ingest_unique v w : unique_keys w -> unique_keys (ingest v w).
Proof.
  intros U. unfold ingest.
  pose proof (movie_rows_unique (f_movie_name v) (f_release_date v)
                (f_director v) (f_producer v) (f_music_director v)
                (f_lyricist v) w U) as U1.
  destruct (movie_rows _ _ _ _ _ _ w) as [mid w1]. simpl in U1.
  pose proof (song_rows_unique mid (f_songs_order v) _
                               (cast_rows_unique mid (f_cast v) w1 U1)) as U3.
  destruct (song_rows _ _ _) as [sm w3]. simpl in U3.
  apply commentary_rows_unique. exact U3.
Qed.

(* ================================================================== *)
(** * The tables a step leaves alone *)

Lemma movie_rows_frame n rd d p m l w :
  let w' := snd (movie_rows n rd d p m l w) in
  cast_members w' = cast_members w /\ movie_cast w' = movie_cast w
  /\ songs w' = songs w /\ commentaries w' = commentaries w.
Proof.
  rewrite movie_rows_snd. unfold Sql.insert_movie.
  destruct (existsb _ _); simpl; auto.
Qed.

Lemma cast_step_frame movie_id w name :
  let w' := cast_step movie_id w name in
  movies w' = movies w /\ songs w' = songs w
  /\ commentaries w' = commentaries w.
Proof.
  unfold cast_step, Sql.select_cast_id, Sql.insert_movie_cast,
    Sql.insert_cast_member.
  destruct (existsb (Sql.cast_named name) (cast_members w)); simpl;
    destruct (find _ _); simpl; auto;
      destruct (existsb _ _); simpl; auto.
Qed.

Lemma cast_rows_frame movie_id cast w :
  let w' := cast_rows movie_id cast w in
  movies w' = movies w /\ songs w' = songs w
  /\ commentaries w' = commentaries w.
Proof.
  unfold cast_rows. revert w. induction cast as [|x tl IH]; intros w; simpl; auto.
  destruct (IH (cast_step movie_id w x)) as [-> [-> ->]].
  apply cast_step_frame.
Qed.

Lemma upsert_song_frame movie_id name idx w :
  let w' := snd (Sql.upsert_song movie_id name idx w) in
  movies w' = movies w /\ cast_members w' = cast_members w
  /\ movie_cast w' = movie_cast w /\ commentaries w' = commentaries w.
Proof. unfold Sql.upsert_song. destruct (find _ _); simpl; auto. Qed.

Lemma song_fold_frame movie_id xs sm w :
  let w' := snd (fold_left (song_step movie_id) xs (sm, w)) in
  movies w' = movies w /\ cast_members w' = cast_members w
  /\ movie_cast w' = movie_cast w /\ commentaries w' = commentaries w.
Proof.
  revert sm w. induction xs as [|[idx name] tl IH]; intros sm w; simpl; auto.
  destruct (song_step movie_id (sm, w) (idx, name)) as [sm1 w1] eqn:E.
  destruct (IH sm1 w1) as [-> [-> [-> ->]]].
  replace w1 with (snd (song_step movie_id (sm, w) (idx, name)))
    by (rewrite E; reflexivity).
  rewrite song_step_snd. apply upsert_song_frame.
Qed.

Lemma song_rows_frame movie_id names w :
  let w' := snd (song_rows movie_id names w) in
  movies w' = movies w /\ cast_members w' = cast_members w
  /\ movie_cast w' = movie_cast w /\ commentaries w' = commentaries w.
Proof. apply song_fold_frame. Qed.

Lemma song_commentary_step_frame movie_id ct lang b w entry :
  let w' := song_commentary_step movie_id ct lang b w entry in
  movies w' = movies w /\ cast_members w' = cast_members w
  /\ movie_cast w' = movie_cast w /\ songs w' = songs w.
Proof.
  unfold song_commentary_step. destruct (dict_get (fst entry) b); simpl; auto.
Qed.

Lemma song_commentaries_frame movie_id ct lang b sm w :
  let w' := fold_left (song_commentary_step movie_id ct lang b) sm w in
  movies w' = movies w /\ cast_members w' = cast_members w
  /\ movie_cast w' = movie_cast w /\ songs w' = songs w.
Proof.
  revert w. induction sm as [|x sm' IH]; intros w; simpl; auto.
  destruct (IH (song_commentary_step movie_id ct lang b w x))
    as [-> [-> [-> ->]]].
  apply song_commentary_step_frame.
Qed.

Lemma block_rows_frame movie_id ct sm w lb :
  let w' := block_rows movie_id ct sm w lb in
  movies w' = movies w /\ cast_members w' = cast_members w
  /\ movie_cast w' = movie_cast w /\ songs w' = songs w.
Proof.
  destruct lb as [lang [|[k text] tl]]; [simpl; auto|].
  unfold block_rows.
  destruct (song_commentaries_frame movie_id ct lang ((k, text) :: tl) sm
              (snd (Sql.insert_commentary movie_id None ct lang text w)))
    as [-> [-> [-> ->]]].
  simpl. auto.
Qed.

Lemma commentary_rows_frame movie_id ct sm blocks w :
  let w' := commentary_rows movie_id ct sm blocks w in
  movies w' = movies w /\ cast_members w' = cast_members w
  /\ movie_cast w' = movie_cast w /\ songs w' = songs w.
Proof.
  unfold commentary_rows. revert w.
  induction blocks as [|lb tl IH]; intros w; simpl; auto.
  destruct (IH (block_rows movie_id ct sm w lb)) as [-> [-> [-> ->]]].
  apply block_rows_frame.
Qed.

(** The movie table after a document is the movie table after its
    "Insert movie". *)
Lemma ingest_movies v w :
  movies (ingest v w)
  = movies (snd (Sql.insert_movie (f_movie_name v) (f_release_date v)
                                  (f_director v) (f_producer v)
                                  (f_music_director v) (f_lyricist v) w)).
Proof.
  unfold ingest. rewrite <- movie_rows_snd.
  destruct (movie_rows _ _ _ _ _ _ w) as [mid w1]. simpl.
  pose proof (song_fold_frame mid (enumerate1 (f_songs_order v)) []
                              (cast_rows mid (f_cast v) w1)) as F3.
  unfold song_rows.
  destruct (fold_left _ _ _) as [sm w3]. simpl in F3.
  destruct (commentary_rows_frame mid (f_commentary_type v) sm
                                  (f_commentaries v) w3) as [-> _].
  destruct F3 as [-> _].
  destruct (cast_rows_frame mid (f_cast v) w1) as [-> _]. reflexivity.
Qed.

(** The identity "Insert movie" yields is that of the row with the name. *)
Lemma movie_rows_id n rd d p m l w :
  exists r,
    find (Sql.movie_named n) (movies (snd (movie_rows n rd d p m l w))) = Some r
    /\ fst (movie_rows n rd d p m l w) = Movies.movie_id r.
Proof.
  unfold movie_rows, Sql.insert_movie.
  destruct (existsb (Sql.movie_named n) (movies w)) eqn:E; simpl.
  - destruct (find_of_existsb _ _ _ E) as [r [F _]]. exists r.
    rewrite F. auto.
  - rewrite find_app.
    destruct (find (Sql.movie_named n) (movies w)) as [r|] eqn:F.
    + exfalso. apply find_some in F. destruct F as [Hin Hp].
      assert (existsb (Sql.movie_named n) (movies w) = true)
        by (apply existsb_exists; eauto).
      congruence.
    + simpl. unfold Sql.movie_named at 1. simpl. rewrite String.eqb_refl.
      eexists. split; reflexivity.
Qed.

Lemma movie_rows_existing n rd d p m l w r :
  find (Sql.movie_named n) (movies w) = Some r ->
  movie_rows n rd d p m l w = (Movies.movie_id r, w).
Proof.
  intros F. unfold movie_rows, Sql.insert_movie.
  assert (E : existsb (Sql.movie_named n) (movies w) = true).
  { apply find_some in F. apply existsb_exists. exists r. exact F. }
  rewrite E. simpl. rewrite F. reflexivity.
Qed.

(* ================================================================== *)
(** * Movies *)

Lemma fields_inv f v :
  fields f = Some v ->
  exists p t,
    f = Yaml.mkFile p
          (Some (Yaml.mkDocument
                   (Some (Yaml.mkMetadata
                            (Some (f_movie_name v)) (Some t)
                            (Some (f_director v)) (Some (f_producer v))
                            (Some (f_music_director v)) (Some (f_lyricist v))
                            (Some (f_cast v))))
                   (Some (f_songs_order v)) (Some (f_commentary_type v))
                   (Some (f_commentaries v))))
    /\ datetime_strptime t = Some (f_release_date v).
Proof.
  destruct f as [p [[[[[n|] [t|] [d|] [pr|] [m|] [l|] [ca|]]|] [so|] [ct|] [bl|]]|]];
    unfold fields; simpl; try discriminate.
  destruct (datetime_strptime t) as [rd|] eqn:Et; [|discriminate].
  intros H. injection H as <-. simpl. exists p, t. split; [reflexivity|exact Et].
Qed.

Lemma loadable_fields f v :
  fields f = Some v -> loadable f = true ->
  forallb (fun lb => nonempty (snd lb)) (f_commentaries v) = true.
Proof. unfold loadable. intros -> H. apply andb_prop in H. tauto. Qed.

Lemma loadable_clean f v :
  fields f = Some v -> loadable f = true -> clean_fields v = true.
Proof. unfold loadable. intros -> H. apply andb_prop in H. tauto. Qed.

Lemma load_loadable f v cm w :
  fields f = Some v -> loadable f = true ->
  load_yaml_file f (session cm w) = (Ok tt, session (ingest v w) (ingest v w)).
Proof.
  intros Fv L. apply load_session; [exact Fv| |].
  - apply (loadable_fields f v Fv L).
  - apply (loadable_clean f v Fv L).
Qed.

Lemma insert_movie_names n rd d p m l w :
  NoDup (map Movies.movie_name (movies w)) ->
  NoDup (map Movies.movie_name
             (movies (snd (Sql.insert_movie n rd d p m l w)))).
Proof.
  intros N. unfold Sql.insert_movie.
  destruct (existsb (Sql.movie_named n) (movies w)) eqn:E; simpl; [exact N|].
  apply NoDup_map_snoc; [exact N|]. simpl.
  intros H. apply in_map_iff in H. destruct H as [r [Hn Hr]].
  assert (existsb (Sql.movie_named n) (movies w) = true).
  { apply existsb_exists. exists r. split; [exact Hr|].
    apply movie_named_iff. exact Hn. }
  congruence.
Qed.

Lemma insert_movie_exists n rd d p m l w :
  existsb (Sql.movie_named n)
          (movies (snd (Sql.insert_movie n rd d p m l w))) = true.
Proof.
  unfold Sql.insert_movie.
  destruct (existsb (Sql.movie_named n) (movies w)) eqn:E; simpl; [exact E|].
  rewrite existsb_app. simpl. unfold Sql.movie_named at 2. simpl.
  rewrite String.eqb_refl. apply orb_true_iff. right. reflexivity.
Qed.

Lemma count_movies_one n w :
  NoDup (map Movies.movie_name (movies w)) ->
  existsb (Sql.movie_named n) (movies w) = true ->
  count_movies n w = 1.
Proof.
  intros N E. destruct (find_of_existsb _ _ _ E) as [r [_ [Hin Hp]]].
  unfold count_movies.
  rewrite (filter_unique _ _ Movies.movie_name (Sql.movie_named n)
                         (movies w) r N Hin Hp); [reflexivity|].
  intros y _ Hy. apply movie_named_iff in Hy, Hp. congruence.
Qed.

Lemma load_times_loadable k f v cm w :
  fields f = Some v -> loadable f = true ->
  NoDup (map Movies.movie_name (movies w)) ->
  exists w',
    load_times (S k) f (session cm w) = (repeat (Ok tt) (S k), session w' w')
    /\ NoDup (map Movies.movie_name (movies w'))
    /\ existsb (Sql.movie_named (f_movie_name v)) (movies w') = true.
Proof.
  intros Fv L. revert cm w. induction k as [|k IH]; intros cm w N.
  - exists (ingest v w). simpl. rewrite (load_loadable f v cm w Fv L).
    rewrite ingest_movies. split; [reflexivity|].
    split; [apply insert_movie_names; exact N|apply insert_movie_exists].
  - assert (N1 : NoDup (map Movies.movie_name (movies (ingest v w)))).
    { rewrite ingest_movies. apply insert_movie_names. exact N. }
    destruct (IH (ingest v w) (ingest v w) N1) as [w' [R [N' E']]].
    exists w'. split; [|split; assumption].
    change (load_times (S (S k)) f (session cm w))
      with (let (r, c') := load_yaml_file f (session cm w) in
            let (rs, c'') := load_times (S k) f c' in (r :: rs, c'')).
    rewrite (load_loadable f v cm w Fv L). rewrite R. reflexivity.
Qed.

(** C4.  Movie resolution is idempotent.  On a session that serves every
    request, whose movie names are unique, ingesting a loadable document
    (one with every field, a date, no empty language and no NUL character
    in a string) any number of times, once or more, never raises and
    leaves exactly one movie row with the name of the document; and when
    a row with the name is there, "Insert movie" with attributes that hold
    no NUL character raises nothing and yields the identity of that row,
    found by the lookup on the name. *)
Theorem movie_resolution_idempotent k f v cm w :
  fields f = Some v -> loadable f = true ->
  NoDup (map Movies.movie_name (movies w)) ->
  (exists c',
     load_times (S k) f (session cm w) = (repeat (Ok tt) (S k), c')
     /\ count_movies (f_movie_name v) (committed c') = 1)
  /\ (forall r n t d p m l ca rd,
         find (Sql.movie_named n) (movies w) = Some r ->
         forallb clean [n; d; p; m; l] = true ->
         insert_movie
           (Yaml.mkMetadata (Some n) t (Some d) (Some p) (Some m) (Some l) ca)
           rd (session cm w)
         = (Ok (Movies.movie_id r), session cm w)
         /\ fst (Sql.select_movie_id n w) = Some (Movies.movie_id r)).
Proof.
  intros Fv L N. split.
  - destruct (load_times_loadable k f v cm w Fv L N) as [w' [R [N' E']]].
    exists (session w' w'). split; [exact R|].
    apply count_movies_one; assumption.
  - intros r n t d p m l ca rd F Hc.
    rewrite insert_movie_session by exact Hc.
    rewrite (movie_rows_existing n rd d p m l w r F). simpl.
    unfold Sql.select_movie_id. simpl. rewrite F. auto.
Qed.

(** C8.  A movie row is never changed once it is there.  When the rows the
    transaction sees hold a movie with the name of a loadable document,
    ingesting the document on a session that serves every request goes
    through, leaves the movie table as it was, whatever attributes the
    document carries, and "Insert movie" yields the identity of the
    row. *)
Theorem movie_row_never_mutated f v cm w r :
  fields f = Some v -> loadable f = true ->
  find (Sql.movie_named (f_movie_name v)) (movies w) = Some r ->
  exists c',
    load_yaml_file f (session cm w) = (Ok tt, c')
    /\ movies (committed c') = movies w
    /\ (forall data md,
           Yaml.content f = Some data -> Yaml.metadata data = Some md ->
           insert_movie md (f_release_date v) (session cm w)
           = (Ok (Movies.movie_id r), session cm w)).
Proof.
  intros Fv L F. exists (session (ingest v w) (ingest v w)).
  split; [apply (load_loadable f v cm w Fv L)|]. split.
  - simpl. rewrite ingest_movies. unfold Sql.insert_movie.
    assert (E : existsb (Sql.movie_named (f_movie_name v)) (movies w) = true).
    { apply find_some in F. apply existsb_exists. exists r. exact F. }
    rewrite E. reflexivity.
  - intros data md Hd Hm.
    pose proof (loadable_clean f v Fv L) as Hc.
    apply clean_fields_inv in Hc. destruct Hc as [Hc _].
    destruct (fields_inv f v Fv) as [p [t [-> Et]]].
    simpl in Hd. injection Hd as <-. simpl in Hm. injection Hm as <-.
    rewrite insert_movie_session by exact Hc.
    rewrite (movie_rows_existing _ _ _ _ _ _ w r F). reflexivity.
Qed.

(* ================================================================== *)
(** * Songs *)

Lemma filter_map_same (A : Type) (p : A -> bool) (g : A -> A) (l : list A) :
  (forall r, p (g r) = p r) -> filter p (map g l) = map g (filter p l).
Proof.
  intros H. induction l as [|a l IH]; simpl; [reflexivity|].
  rewrite H. destruct (p a); simpl; rewrite IH; reflexivity.
Qed.

Lemma filter_map_other (A : Type) (p : A -> bool) (g : A -> A) (l : list A) :
  (forall r, p (g r) = p r) -> (forall r, p r = true -> g r = r) ->
  filter p (map g l) = filter p l.
Proof.
  intros H1 H2. rewrite filter_map_same by exact H1.
  induction l as [|a l IH]; simpl; [reflexivity|].
  destruct (p a) eqn:Pa; simpl; [rewrite (H2 a Pa), IH; reflexivity|exact IH].
Qed.

Lemma filter_none (A : Type) (p : A -> bool) (l : list A) :
  find p l = None -> filter p l = [].
Proof.
  induction l as [|a l IH]; simpl; [reflexivity|].
  destruct (p a); [discriminate|exact IH].
Qed.

Lemma is_song_set_order movie_id' name' movie_id name idx r :
  Sql.is_song movie_id' name' (Sql.set_order movie_id name idx r)
  = Sql.is_song movie_id' name' r.
Proof.
  unfold Sql.set_order. destruct (Sql.is_song movie_id name r); reflexivity.
Qed.

(** After the upsert the key selects one row, with the ordinal given. *)
Lemma upsert_song_row movie_id name idx w :
  NoDup (map song_key (songs w)) ->
  exists r,
    filter (Sql.is_song movie_id name)
           (songs (snd (Sql.upsert_song movie_id name idx w))) = [r]
    /\ Songs.song_order r = idx.
Proof.
  intros N. unfold Sql.upsert_song.
  destruct (find (Sql.is_song movie_id name) (songs w)) as [r0|] eqn:F; simpl.
  - apply find_some in F. destruct F as [Hin Hp].
    rewrite filter_map_same by (intros; apply is_song_set_order).
    rewrite (filter_unique _ _ song_key (Sql.is_song movie_id name)
                           (songs w) r0 N Hin Hp).
    + simpl. eexists. split; [reflexivity|].
      unfold Sql.set_order. rewrite Hp. reflexivity.
    + intros y _ Hy. apply is_song_key in Hy, Hp. congruence.
  - rewrite filter_app, (filter_none _ _ _ F). simpl.
    unfold Sql.is_song at 1. simpl. rewrite Nat.eqb_refl, String.eqb_refl.
    simpl. eexists. split; reflexivity.
Qed.

(** The upsert leaves the rows of every other key as they were. *)
Lemma upsert_song_other movie_id' name' movie_id name idx w :
  (movie_id', name') <> (movie_id, name) ->
  filter (Sql.is_song movie_id' name')
         (songs (snd (Sql.upsert_song movie_id name idx w)))
  = filter (Sql.is_song movie_id' name') (songs w).
Proof.
  intros Ne. unfold Sql.upsert_song.
  destruct (find (Sql.is_song movie_id name) (songs w)) as [r0|] eqn:F; simpl.
  - apply filter_map_other; [intros; apply is_song_set_order|].
    intros r Hr. unfold Sql.set_order.
    destruct (Sql.is_song movie_id name r) eqn:Hr'; [|reflexivity].
    apply is_song_key in Hr, Hr'. congruence.
  - rewrite filter_app. simpl.
    destruct (Sql.is_song movie_id' name' _) eqn:Hn; [|apply app_nil_r].
    apply is_song_key in Hn. unfold song_key in Hn. simpl in Hn. congruence.
Qed.

Lemma upsert_song_keys movie_id name idx w :
  NoDup (map song_key (songs w)) ->
  NoDup (map song_key (songs (snd (Sql.upsert_song movie_id name idx w)))).
Proof.
  intros N. unfold Sql.upsert_song.
  destruct (find (Sql.is_song movie_id name) (songs w)) as [r|] eqn:F; simpl.
  - rewrite (map_set_order _ song_key); [assumption|apply set_order_key].
  - apply NoDup_map_snoc; [assumption|]. simpl.
    apply (find_none_not_in _ _ song_key (Sql.is_song movie_id name) _
                            (movie_id, name)); [|exact F].
    intros y. apply is_song_key.
Qed.

Lemma song_fold_other movie_id name xs sm w :
  ~ In name (map snd xs) ->
  filter (Sql.is_song movie_id name)
         (songs (snd (fold_left (song_step movie_id) xs (sm, w))))
  = filter (Sql.is_song movie_id name) (songs w).
Proof.
  revert sm w. induction xs as [|[idx x] tl IH]; intros sm w H; simpl;
    [reflexivity|].
  destruct (song_step movie_id (sm, w) (idx, x)) as [sm1 w1] eqn:E.
  rewrite IH by (intros C; apply H; right; exact C).
  replace w1 with (snd (song_step movie_id (sm, w) (idx, x)))
    by (rewrite E; reflexivity).
  rewrite song_step_snd. apply upsert_song_other.
  intros C. injection C as C. apply H. left. simpl. congruence.
Qed.

Lemma last_position_not_in name l : ~ In name l -> last_position name l = 0.
Proof using.
  clear strptime_beyond_ascii.
  induction l as [|x tl IH]; simpl; [reflexivity|].
  intros H. rewrite IH by tauto.
  destruct (String.eqb x name) eqn:E; [|reflexivity].
  apply String.eqb_eq in E. tauto.
Qed.

Lemma last_position_in name l : In name l -> last_position name l <> 0.
Proof using.
  clear strptime_beyond_ascii.
  induction l as [|x tl IH]; simpl; [tauto|].
  intros [->|H].
  - destruct (last_position name tl); [rewrite String.eqb_refl|]; discriminate.
  - specialize (IH H). destruct (last_position name tl); [tauto|discriminate].
Qed.

Lemma last_position_nth name l i :
  nth_error l i = Some name ->
  (forall j, i < j -> nth_error l j <> Some name) ->
  last_position name l = S i.
Proof using.
  revert i. induction l as [|x tl IH]; intros i Hi Hlast.
  - destruct i; discriminate.
  - destruct i as [|i]; simpl in *.
    + injection Hi as ->.
      rewrite last_position_not_in; [rewrite String.eqb_refl; reflexivity|].
      intros H. apply In_nth_error in H. destruct H as [j Hj].
      apply (Hlast (S j)); [lia|exact Hj].
    + rewrite (IH i Hi); [reflexivity|].
      intros j Hj. apply (Hlast (S j)). lia.
Qed.

Lemma map_snd_combine_seq (A : Type) (l : list A) start :
  map snd (combine (seq start (List.length l)) l) = l.
Proof.
  revert start. induction l as [|x tl IH]; intros start; simpl;
    [reflexivity|]. rewrite IH. reflexivity.
Qed.

(** After the song loop a name of the list selects one row of the movie,
    whose ordinal is the place of its last occurrence. *)
Lemma song_fold_order movie_id names :
  forall start sm w name,
    NoDup (map song_key (songs w)) -> In name names ->
    exists r,
      filter (Sql.is_song movie_id name)
             (songs (snd (fold_left (song_step movie_id)
                                    (combine (seq start (List.length names)) names)
                                    (sm, w)))) = [r]
      /\ S (Songs.song_order r) = start + last_position name names.
Proof using.
  clear strptime_beyond_ascii.
  induction names as [|x tl IH]; intros start sm w name N Hin; [destruct Hin|].
  simpl combine. simpl fold_left.
  destruct (song_step movie_id (sm, w) (start, x)) as [sm1 w1] eqn:E.
  assert (W1 : w1 = snd (Sql.upsert_song movie_id x start w)).
  { rewrite <- song_step_snd with (sm := sm). rewrite E. reflexivity. }
  assert (N1 : NoDup (map song_key (songs w1))).
  { rewrite W1. apply upsert_song_keys. exact N. }
  destruct (in_dec string_dec name tl) as [Htl|Htl].
  - destruct (IH (S start) sm1 w1 name N1 Htl) as [r [Hr Ho]].
    exists r. split; [exact Hr|].
    simpl. pose proof (last_position_in name tl Htl) as Hp.
    destruct (last_position name tl); [tauto|lia].
  - assert (name = x) by (destruct Hin; [congruence|tauto]). subst x.
    rewrite song_fold_other
      by (rewrite map_snd_combine_seq; exact Htl).
    rewrite W1. destruct (upsert_song_row movie_id name start w N) as [r [Hr Ho]].
    exists r. split; [exact Hr|].
    simpl. rewrite (last_position_not_in name tl Htl), String.eqb_refl. lia.
Qed.

Lemma song_rows_order movie_id names w i name :
  NoDup (map song_key (songs w)) ->
  nth_error names i = Some name ->
  (forall j, i < j -> nth_error names j <> Some name) ->
  exists r,
    filter (Sql.is_song movie_id name)
           (songs (snd (song_rows movie_id names w))) = [r]
    /\ Songs.song_order r = S i.
Proof using.
  intros N Hi Hlast. unfold song_rows, enumerate1.
  destruct (song_fold_order movie_id names 1 [] w name N
                            (nth_error_In _ _ Hi)) as [r [Hr Ho]].
  exists r. split; [exact Hr|].
  rewrite (last_position_nth name names i Hi Hlast) in Ho. lia.
Qed.

(** The four steps of a document, one after the other. *)
Lemma ingest_steps v w :
  exists mr w1 sm w3,
    movie_rows (f_movie_name v) (f_release_date v) (f_director v)
               (f_producer v) (f_music_director v) (f_lyricist v) w
    = (Movies.movie_id mr, w1)
    /\ find (Sql.movie_named (f_movie_name v)) (movies w1) = Some mr
    /\ song_rows (Movies.movie_id mr) (f_songs_order v)
                 (cast_rows (Movies.movie_id mr) (f_cast v) w1) = (sm, w3)
    /\ ingest v w
       = commentary_rows (Movies.movie_id mr) (f_commentary_type v) sm
                         (f_commentaries v) w3.
Proof.
  unfold ingest.
  destruct (movie_rows_id (f_movie_name v) (f_release_date v) (f_director v)
                          (f_producer v) (f_music_director v) (f_lyricist v) w)
    as [mr [F Hid]].
  destruct (movie_rows _ _ _ _ _ _ w) as [mid w1]. simpl in F, Hid. subst mid.
  destruct (song_rows (Movies.movie_id mr) (f_songs_order v)
                      (cast_rows (Movies.movie_id mr) (f_cast v) w1))
    as [sm w3] eqn:S3.
  exists mr, w1, sm, w3. auto.
Qed.

Lemma song_ident_key r r' : song_ident r = song_ident r' -> song_key r = song_key r'.
Proof. unfold song_ident, song_key. intros H. injection H as _ -> ->. reflexivity. Qed.

(** The songs of a document: each name of its list selects one row of its
    movie, with the place of the name's last occurrence for ordinal; the
    rows that were there keep identity, movie and name. *)
Lemma ingest_songs v w :
  NoDup (map song_key (songs w)) ->
  exists mr,
    find (Sql.movie_named (f_movie_name v)) (movies (ingest v w)) = Some mr
    /\ (forall r0, find (Sql.movie_named (f_movie_name v)) (movies w) = Some r0 ->
                   mr = r0)
    /\ forall i name,
        nth_error (f_songs_order v) i = Some name ->
        (forall j, i < j -> nth_error (f_songs_order v) j <> Some name) ->
        exists r,
          filter (Sql.is_song (Movies.movie_id mr) name) (songs (ingest v w)) = [r]
          /\ Songs.song_order r = S i
          /\ forall r1, In r1 (songs w) ->
                        song_key r1 = (Movies.movie_id mr, name) ->
                        song_ident r = song_ident r1.
Proof using.
  intros N. destruct (ingest_steps v w) as [mr [w1 [sm [w3 [M [F [S3 I4]]]]]]].
  exists mr.
  assert (Mv : movies (ingest v w) = movies w1).
  { rewrite ingest_movies, <- movie_rows_snd, M. reflexivity. }
  split; [rewrite Mv; exact F|]. split.
  - intros r0 F0.
    rewrite (movie_rows_existing _ _ _ _ _ _ w r0 F0) in M.
    injection M as _ <-. congruence.
  - intros i name Hi Hlast.
    pose proof (movie_rows_frame (f_movie_name v) (f_release_date v)
                  (f_director v) (f_producer v) (f_music_director v)
                  (f_lyricist v) w) as F1.
    rewrite M in F1. simpl in F1. destruct F1 as [_ [_ [S1 _]]].
    destruct (cast_rows_frame (Movies.movie_id mr) (f_cast v) w1) as [_ [S2 _]].
    assert (N2 : NoDup (map song_key
                            (songs (cast_rows (Movies.movie_id mr) (f_cast v) w1)))).
    { rewrite S2, S1. exact N. }
    destruct (song_rows_order (Movies.movie_id mr) (f_songs_order v) _ i name
                              N2 Hi Hlast) as [r [Hr Ho]].
    rewrite S3 in Hr. simpl in Hr.
    destruct (commentary_rows_frame (Movies.movie_id mr) (f_commentary_type v)
                                    sm (f_commentaries v) w3) as [_ [_ [_ S4]]].
    exists r. rewrite I4, S4. split; [exact Hr|]. split; [exact Ho|].
    intros r1 Hin1 Hk1.
    pose proof (g_songs (ingest_grows v w)) as G.
    rewrite I4, S4 in G.
    assert (Hin : In (song_ident r1) (map song_ident (songs w3))).
    { apply (prefix_in _ _ _ _ G). apply in_map. exact Hin1. }
    apply in_map_iff in Hin. destruct Hin as [r' [Hid' Hin']].
    assert (In r' (filter (Sql.is_song (Movies.movie_id mr) name) (songs w3))).
    { apply filter_In. split; [exact Hin'|]. apply is_song_key.
      rewrite (song_ident_key _ _ Hid'). exact Hk1. }
    rewrite Hr in H. destruct H as [->|[]]. exact Hid'.
Qed.


(* ================================================================== *)
(** * Cast *)

Lemma insert_movie_cast_exists movie_id cast_id w :
  existsb (Sql.is_pair movie_id cast_id)
          (movie_cast (snd (Sql.insert_movie_cast movie_id cast_id w))) = true.
Proof.
  unfold Sql.insert_movie_cast.
  destruct (existsb (Sql.is_pair movie_id cast_id) (movie_cast w)) eqn:E;
    simpl; [exact E|].
  rewrite existsb_app. simpl. unfold Sql.is_pair at 2. simpl.
  rewrite !Nat.eqb_refl. apply orb_true_iff. right. reflexivity.
Qed.

Lemma insert_movie_cast_cast_members movie_id cast_id w :
  cast_members (snd (Sql.insert_movie_cast movie_id cast_id w)) = cast_members w.
Proof.
  unfold Sql.insert_movie_cast. destruct (existsb _ _); reflexivity.
Qed.

(** What "resolved" means for a cast member of a movie: the row with the
    name is there, and so is its association with the movie. *)
Lemma cast_step_resolves movie_id w name :
  exists cr,
    find (Sql.cast_named name) (cast_members (cast_step movie_id w name)) = Some cr
    /\ existsb (Sql.is_pair movie_id (CastMembers.cast_id cr))
               (movie_cast (cast_step movie_id w name)) = true.
Proof.
  unfold cast_step. destruct (select_cast_after_insert name w) as [cr [F _]].
  unfold Sql.select_cast_id at 1. simpl fst. rewrite F. simpl option_map.
  cbv iota. exists cr. split.
  - rewrite insert_movie_cast_cast_members. exact F.
  - apply insert_movie_cast_exists.
Qed.

Lemma cast_rows_resolves movie_id cast w name :
  In name cast ->
  exists cr,
    find (Sql.cast_named name) (cast_members (cast_rows movie_id cast w)) = Some cr
    /\ existsb (Sql.is_pair movie_id (CastMembers.cast_id cr))
               (movie_cast (cast_rows movie_id cast w)) = true.
Proof.
  unfold cast_rows. revert w. induction cast as [|x tl IH]; intros w Hin;
    [destruct Hin|].
  simpl. destruct Hin as [->|Hin]; [|apply IH; exact Hin].
  destruct (cast_step_resolves movie_id w name) as [cr [F P]].
  pose proof (cast_rows_grows movie_id tl (cast_step movie_id w name)) as G.
  exists cr. split.
  - apply (prefix_find _ _ _ _ _ (g_cast_members G) F).
  - apply (prefix_existsb _ _ _ _ (g_movie_cast G) P).
Qed.

(** A cast step for a member already resolved changes nothing. *)
Lemma cast_step_resolved movie_id w name cr :
  find (Sql.cast_named name) (cast_members w) = Some cr ->
  existsb (Sql.is_pair movie_id (CastMembers.cast_id cr)) (movie_cast w) = true ->
  cast_step movie_id w name = w.
Proof.
  intros F P. unfold cast_step, Sql.insert_cast_member.
  assert (E : existsb (Sql.cast_named name) (cast_members w) = true).
  { apply find_some in F. apply existsb_exists. exists cr. exact F. }
  rewrite E. simpl. rewrite F. simpl. unfold Sql.insert_movie_cast.
  rewrite P. reflexivity.
Qed.

Lemma cast_rows_resolved movie_id cast w :
  (forall name, In name cast ->
     exists cr,
       find (Sql.cast_named name) (cast_members w) = Some cr
       /\ existsb (Sql.is_pair movie_id (CastMembers.cast_id cr))
                  (movie_cast w) = true) ->
  cast_rows movie_id cast w = w.
Proof.
  unfold cast_rows. induction cast as [|x tl IH]; intros H; [reflexivity|].
  simpl. destruct (H x (or_introl eq_refl)) as [cr [F P]].
  rewrite (cast_step_resolved movie_id w x cr F P).
  apply IH. intros name Hin. apply H. right. exact Hin.
Qed.

(** "Insert cast" a second time with the same movie and names changes
    nothing. *)
Lemma cast_rows_idempotent movie_id cast w :
  cast_rows movie_id cast (cast_rows movie_id cast w)
  = cast_rows movie_id cast w.
Proof.
  apply cast_rows_resolved. intros name Hin.
  apply cast_rows_resolves. exact Hin.
Qed.

Lemma count_cast_members_one name w cr :
  NoDup (map CastMembers.cast_name (cast_members w)) ->
  find (Sql.cast_named name) (cast_members w) = Some cr ->
  count_cast_members name w = 1.
Proof.
  intros N F. apply find_some in F. destruct F as [Hin Hp].
  unfold count_cast_members.
  rewrite (filter_unique _ _ CastMembers.cast_name (Sql.cast_named name)
                         (cast_members w) cr N Hin Hp); [reflexivity|].
  intros y _ Hy. apply cast_named_iff in Hy, Hp. congruence.
Qed.

Lemma count_movie_cast_one movie_id cast_id w :
  NoDup (map pair_key (movie_cast w)) ->
  existsb (Sql.is_pair movie_id cast_id) (movie_cast w) = true ->
  count_movie_cast movie_id cast_id w = 1.
Proof.
  intros N E. destruct (find_of_existsb _ _ _ E) as [r [_ [Hin Hp]]].
  unfold count_movie_cast.
  rewrite (filter_unique _ _ pair_key (Sql.is_pair movie_id cast_id)
                         (movie_cast w) r N Hin Hp); [reflexivity|].
  intros y _ Hy. apply is_pair_key in Hy, Hp. congruence.
Qed.

(** The cast of a document: each name is resolved for the document's
    movie. *)
Lemma ingest_cast v w name :
  In name (f_cast v) ->
  exists mr cr,
    find (Sql.movie_named (f_movie_name v)) (movies (ingest v w)) = Some mr
    /\ find (Sql.cast_named name) (cast_members (ingest v w)) = Some cr
    /\ existsb (Sql.is_pair (Movies.movie_id mr) (CastMembers.cast_id cr))
               (movie_cast (ingest v w)) = true.
Proof.
  intros Hin. destruct (ingest_steps v w) as [mr [w1 [sm [w3 [M [F [S3 I4]]]]]]].
  destruct (cast_rows_resolves (Movies.movie_id mr) (f_cast v) w1 name Hin)
    as [cr [Fc P]].
  exists mr, cr.
  pose proof (song_rows_frame (Movies.movie_id mr) (f_songs_order v)
                (cast_rows (Movies.movie_id mr) (f_cast v) w1)) as F3.
  cbv zeta in F3. rewrite S3 in F3. simpl in F3.
  destruct F3 as [_ [C3 [P3 _]]].
  destruct (commentary_rows_frame (Movies.movie_id mr) (f_commentary_type v)
                                  sm (f_commentaries v) w3) as [_ [C4 [P4 _]]].
  split; [|split].
  - rewrite ingest_movies, <- movie_rows_snd, M. exact F.
  - rewrite I4, C4, C3. exact Fc.
  - rewrite I4, P4, P3. exact P.
Qed.

(** C6.  Cast members are shared by name.  On a session that serves every
    request, with the uniqueness constraints in force, after two loadable
    documents for different movies that both list a name: one cast member
    row has the name, the same row, with the same identity, after the
    first document and after both; it is associated once with each of the
    two movies, whose identities differ; and "Insert cast" run again with
    a movie and names (without a NUL character) it has just been run with
    changes nothing. *)
Theorem cast_members_shared f1 v1 f2 v2 name cm w :
  fields f1 = Some v1 -> loadable f1 = true ->
  fields f2 = Some v2 -> loadable f2 = true ->
  In name (f_cast v1) -> In name (f_cast v2) ->
  f_movie_name v1 <> f_movie_name v2 ->
  unique_keys w ->
  exists w1 w2 cr m1 m2,
    load_yaml_file f1 (session cm w) = (Ok tt, session w1 w1)
    /\ load_yaml_file f2 (session w1 w1) = (Ok tt, session w2 w2)
    /\ count_cast_members name w2 = 1
    /\ find (Sql.cast_named name) (cast_members w1) = Some cr
    /\ find (Sql.cast_named name) (cast_members w2) = Some cr
    /\ find (Sql.movie_named (f_movie_name v1)) (movies w2) = Some m1
    /\ find (Sql.movie_named (f_movie_name v2)) (movies w2) = Some m2
    /\ Movies.movie_id m1 <> Movies.movie_id m2
    /\ count_movie_cast (Movies.movie_id m1) (CastMembers.cast_id cr) w2 = 1
    /\ count_movie_cast (Movies.movie_id m2) (CastMembers.cast_id cr) w2 = 1
    /\ (forall movie_id cast cm' w',
           forallb clean cast = true ->
           exists w'',
             insert_cast movie_id cast (session cm' w') = (Ok tt, session cm' w'')
             /\ insert_cast movie_id cast (session cm' w'')
                = (Ok tt, session cm' w'')).
Proof.
  intros F1 L1 F2 L2 In1 In2 Ne U.
  destruct (ingest_cast v1 w name In1) as [m1 [cr [Fm1 [Fc1 P1]]]].
  destruct (ingest_cast v2 (ingest v1 w) name In2) as [m2 [cr2 [Fm2 [Fc2 P2]]]].
  pose proof (ingest_grows v2 (ingest v1 w)) as G.
  pose proof (ingest_unique v2 _ (ingest_unique v1 w U)) as U2.
  pose proof (prefix_find _ _ _ _ _ (g_cast_members G) Fc1) as Fc1'.
  assert (cr2 = cr) by congruence. subst cr2.
  pose proof (prefix_find _ _ _ _ _ (g_movies G) Fm1) as Fm1'.
  pose proof (prefix_existsb _ _ _ _ (g_movie_cast G) P1) as P1'.
  exists (ingest v1 w), (ingest v2 (ingest v1 w)), cr, m1, m2.
  split; [apply (load_loadable f1 v1 cm w F1 L1)|].
  split; [apply (load_loadable f2 v2 _ _ F2 L2)|].
  split; [apply (count_cast_members_one name _ cr (uk_cast_name U2) Fc2)|].
  split; [exact Fc1|]. split; [exact Fc2|].
  split; [exact Fm1'|]. split; [exact Fm2|]. split; [|split; [|split]].
  - intros Heq. apply Ne.
    apply find_some in Fm1', Fm2.
    destruct Fm1' as [I1 N1], Fm2 as [I2 N2].
    apply movie_named_iff in N1, N2.
    rewrite <- N1, <- N2. f_equal.
    apply (NoDup_map_inj _ _ Movies.movie_id _ m1 m2 (uk_movie_id U2) I1 I2 Heq).
  - apply count_movie_cast_one; [apply (uk_pair U2)|exact P1'].
  - apply count_movie_cast_one; [apply (uk_pair U2)|exact P2].
  - intros movie_id cast cm' w' Hc. exists (cast_rows movie_id cast w').
    rewrite !insert_cast_session by exact Hc.
    rewrite cast_rows_idempotent. auto.
Qed.

(* ================================================================== *)
(** * Commentaries *)

Lemma dict_get_in (V : Type) k (v : V) d : dict_get k d = Some v -> In (k, v) d.
Proof.
  induction d as [|[k' v'] tl IH]; simpl; [discriminate|].
  destruct (String.eqb k' k) eqn:E.
  - apply String.eqb_eq in E. intros H. injection H as ->. left. congruence.
  - intros H. right. apply IH. exact H.
Qed.

Lemma dict_get_none (V : Type) k (d : dict V) :
  ~ In k (keys d) -> dict_get k d = None.
Proof using.
  clear strptime_beyond_ascii.
  induction d as [|[k' v'] tl IH]; simpl; [reflexivity|].
  intros H. destruct (String.eqb k' k) eqn:E.
  - apply String.eqb_eq in E. tauto.
  - apply IH. tauto.
Qed.


Lemma keys_dict_set (V : Type) k (v : V) d :
  keys (dict_set k v d) = if dict_in k d then keys d else keys d ++ [k].
Proof.
  unfold dict_in. induction d as [|[k' v'] tl IH]; simpl; [reflexivity|].
  destruct (String.eqb k' k) eqn:E; simpl; [reflexivity|].
  rewrite IH. destruct (dict_get k tl); reflexivity.
Qed.

Lemma dict_set_nodup (V : Type) k (v : V) d :
  NoDup (keys d) -> NoDup (keys (dict_set k v d)).
Proof.
  intros N. rewrite keys_dict_set. unfold dict_in.
  destruct (dict_get k d) as [x|] eqn:G; [exact N|].
  unfold keys. change [k] with (map fst [(k, v)]). rewrite <- map_app.
  apply NoDup_map_snoc; [exact N|]. simpl.
  intros H. apply in_map_iff in H. destruct H as [[k' v'] [Hk Hin]].
  simpl in Hk. subst k'.
  clear N. induction d as [|[k1 v1] tl IH]; [destruct Hin|].
  simpl in G. destruct (String.eqb k1 k) eqn:E; [discriminate|].
  destruct Hin as [H|H]; [|apply IH; assumption].
  injection H as -> _. rewrite String.eqb_refl in E. discriminate.
Qed.

(** The mapping "Insert songs" returns has one entry a name. *)
Lemma song_fold_nodup movie_id xs sm w :
  NoDup (keys sm) ->
  NoDup (keys (fst (fold_left (song_step movie_id) xs (sm, w)))).
Proof.
  revert sm w. induction xs as [|[idx name] tl IH]; intros sm w N; simpl;
    [exact N|].
  unfold song_step at 2.
  destruct (Sql.upsert_song movie_id name idx w) as [[id|] w1]; apply IH;
    [apply dict_set_nodup|]; exact N.
Qed.

Lemma insert_commentary_rows movie_id song_id ct lang text w :
  commentaries (snd (Sql.insert_commentary movie_id song_id ct lang text w))
  = commentaries w
      ++ [Commentaries.mk (fresh (map Commentaries.commentary_id (commentaries w)))
                          movie_id song_id ct lang text].
Proof. reflexivity. Qed.

(** The rows the loop over [song_mapping] appends for a language. *)
Lemma song_commentaries_rows movie_id ct lang b sm w :
  exists new,
    commentaries (fold_left (song_commentary_step movie_id ct lang b) sm w)
    = commentaries w ++ new
    /\ map row_content new = flat_map (song_entry_rows b) sm
    /\ Forall (row_of movie_id ct lang) new.
Proof.
  revert w. induction sm as [|[name id] tl IH]; intros w; simpl.
  - exists []. rewrite app_nil_r. auto.
  - unfold song_commentary_step at 2. unfold song_entry_rows at 1. simpl.
    destruct (dict_get name b) as [text|].
    + destruct (IH (snd (Sql.insert_commentary movie_id (Some id) ct lang text w)))
        as [new [Hc [Hm Hf]]].
      simpl in Hc. eexists (_ :: new). rewrite Hc, <- app_assoc.
      split; [reflexivity|]. split.
      * simpl. rewrite Hm. reflexivity.
      * constructor; [repeat split|exact Hf].
    + apply IH.
Qed.

(** The rows a language appends: the movie-level row of its first entry,
    then the rows of the songs of [song_mapping] it has a text for. *)
Lemma block_rows_rows movie_id ct sm w lang k text tl :
  exists new,
    commentaries (block_rows movie_id ct sm w (lang, (k, text) :: tl))
    = commentaries w ++ new
    /\ map row_content new
       = (None, text) :: flat_map (song_entry_rows ((k, text) :: tl)) sm
    /\ Forall (row_of movie_id ct lang) new.
Proof.
  unfold block_rows.
  destruct (song_commentaries_rows movie_id ct lang ((k, text) :: tl) sm
              (snd (Sql.insert_commentary movie_id None ct lang text w)))
    as [new [Hc [Hm Hf]]].
  eexists (_ :: new). rewrite Hc, insert_commentary_rows, <- app_assoc.
  split; [reflexivity|]. split.
  - simpl. rewrite Hm. reflexivity.
  - constructor; [repeat split|exact Hf].
Qed.

Lemma flat_map_same_in (A B : Type) (f g : A -> list B) (l : list A) :
  (forall x, In x l -> f x = g x) -> flat_map f l = flat_map g l.
Proof.
  induction l as [|a l IH]; intros H; simpl; [reflexivity|].
  rewrite (H a (or_introl eq_refl)), IH; [reflexivity|].
  intros x Hx. apply H. right. exact Hx.
Qed.

(** Songs by mapping order and entries by block order give the same rows,
    when names are unique on both sides. *)
Lemma song_rows_permutation (sm : dict nat) (b : dict string) :
  NoDup (keys sm) -> NoDup (keys b) ->
  Permutation (flat_map (song_entry_rows b) sm)
              (flat_map (entry_rows sm false) b).
Proof using.
  intros Nsm. induction b as [|[k t] tl IH]; intros Nb.
  - simpl. unfold song_entry_rows. simpl. clear Nsm.
    induction sm as [|e sm' IHs]; simpl; auto.
  - inversion Nb as [|? ? Hk Ntl]; subst. simpl flat_map at 2.
    eapply Permutation_trans; [|apply Permutation_app_head; apply IH; exact Ntl].
    unfold entry_rows at 1. simpl.
    clear IH Nb Ntl. assert (Gk : dict_get k tl = None)
      by (apply dict_get_none; exact Hk). clear Hk.
    induction sm as [|[name id] sm' IHs]; [apply Permutation_refl|].
    inversion Nsm as [|? ? Hn Nsm']; subst.
    simpl. unfold song_entry_rows at 1 3. simpl.
    destruct (String.eqb k name) eqn:E.
    + apply String.eqb_eq in E. subst name. rewrite String.eqb_refl.
      rewrite Gk. simpl. apply perm_skip.
      assert (Same : forall e, In e sm' ->
                song_entry_rows ((k, t) :: tl) e = song_entry_rows tl e).
      { intros [n i] Hin. unfold song_entry_rows. simpl.
        destruct (String.eqb k n) eqn:E; [|reflexivity].
        apply String.eqb_eq in E. subst n. exfalso. apply Hn.
        apply in_map_iff. exists (k, i). auto. }
      rewrite (flat_map_same_in _ _ _ _ _ Same). apply Permutation_refl.
    + assert (E' : String.eqb name k = false).
      { rewrite String.eqb_sym. exact E. }
      rewrite E'.
      eapply Permutation_trans;
        [apply Permutation_app_head; apply IHs; exact Nsm'|].
      rewrite !app_assoc. apply Permutation_app_tail.
      apply Permutation_app_comm.
Qed.

Lemma block_entry_rows_cons sm k t tl :
  block_entry_rows sm ((k, t) :: tl)
  = (None, t) :: flat_map (entry_rows sm false) ((k, t) :: tl).
Proof. reflexivity. Qed.

(** The rows a language appends, entry by entry. *)
Lemma block_rows_per_entry movie_id ct sm w lang b :
  NoDup (keys sm) -> NoDup (keys b) -> nonempty b = true ->
  exists new,
    commentaries (block_rows movie_id ct sm w (lang, b)) = commentaries w ++ new
    /\ Forall (row_of movie_id ct lang) new
    /\ Permutation (map row_content new) (block_entry_rows sm b).
Proof using.
  intros Nsm Nb Hb. destruct b as [|[k t] tl]; [discriminate|].
  destruct (block_rows_rows movie_id ct sm w lang k t tl) as [new [Hc [Hm Hf]]].
  exists new. split; [exact Hc|]. split; [exact Hf|].
  rewrite Hm, block_entry_rows_cons. apply perm_skip.
  apply song_rows_permutation; assumption.
Qed.

Lemma commentary_rows_per_entry movie_id ct sm blocks w :
  NoDup (keys sm) ->
  Forall (fun lb => NoDup (keys (snd lb)) /\ nonempty (snd lb) = true) blocks ->
  exists news,
    commentaries (commentary_rows movie_id ct sm blocks w)
    = commentaries w ++ List.concat news
    /\ Forall2 (fun lb new =>
                  Forall (row_of movie_id ct (fst lb)) new
                  /\ Permutation (map row_content new)
                                 (block_entry_rows sm (snd lb)))
               blocks news.
Proof using.
  intros Nsm. unfold commentary_rows. revert w.
  induction blocks as [|[lang b] tl IH]; intros w Hb.
  - exists []. simpl. rewrite app_nil_r. auto.
  - inversion Hb as [|? ? [Nb Ne] Htl]; subst. simpl in Nb, Ne.
    destruct (block_rows_per_entry movie_id ct sm w lang b Nsm Nb Ne)
      as [new [Hc [Hf Hp]]].
    destruct (IH (block_rows movie_id ct sm w (lang, b)) Htl) as [news [Hcs Hfs]].
    exists (new :: news). cbn [fold_left List.concat].
    rewrite Hcs, Hc, <- app_assoc.
    split; [reflexivity|]. constructor; [split; assumption|exact Hfs].
Qed.

(** C1, as the code has it.  On a session that serves every request, for
    a mapping of song names to identities and language blocks that each
    have a first entry, names being unique in the mapping and in each
    block, and neither the kind nor a language nor a text holding a NUL
    character (psycopg2 refuses such a parameter with [ValueError]):
    "Insert commentaries" goes through and appends, language by language,
    rows of the movie, the kind and the language, which are, in some
    order, for each entry of the block: a row with no song reference when
    the entry comes first, and a row with the song's identity when the
    key of the entry, of the first one too, is a key of the mapping;
    nothing for an entry that is neither.  The mapping "Insert songs"
    returns has unique names. *)
Theorem commentary_rows_of_entries movie_id ct sm blocks cm w :
  NoDup (keys sm) ->
  Forall (fun lb => NoDup (keys (snd lb)) /\ nonempty (snd lb) = true) blocks ->
  clean ct = true -> clean_blocks blocks = true ->
  (exists w' news,
      insert_commentaries movie_id (Some ct) sm blocks (session cm w)
      = (Ok tt, session cm w')
      /\ commentaries w' = commentaries w ++ List.concat news
      /\ Forall2 (fun lb new =>
                    Forall (row_of movie_id ct (fst lb)) new
                    /\ Permutation (map row_content new)
                                   (block_entry_rows sm (snd lb)))
                 blocks news)
  /\ (forall songs_order cm' w0,
         forallb clean songs_order = true ->
         exists sm' w1,
           insert_songs movie_id songs_order (session cm' w0)
           = (Ok sm', session cm' w1)
           /\ NoDup (keys sm')).
Proof using.
  intros Nsm Hb Ht Hc. split.
  - destruct (commentary_rows_per_entry movie_id ct sm blocks w Nsm Hb)
      as [news [Hn Hf]].
    exists (commentary_rows movie_id ct sm blocks w), news.
    split; [|split; assumption].
    apply insert_commentaries_session; [|exact Ht|exact Hc].
    clear - Hb. induction Hb as [|lb tl [_ Hn] _ IH]; [reflexivity|].
    cbn [forallb]. apply andb_true_intro. split; [exact Hn|exact IH].
  - intros songs_order cm' w0 Hs. eexists. eexists.
    split; [apply insert_songs_session; exact Hs|].
    apply song_fold_nodup. constructor.
Qed.

(* ================================================================== *)
(** * References *)










Lemma upsert_song_ident movie_id name idx w id w' :
  Sql.upsert_song movie_id name idx w = (Some id, w') ->
  In (id, movie_id, name) (map song_ident (songs w')).
Proof.
  unfold Sql.upsert_song.
  destruct (find (Sql.is_song movie_id name) (songs w)) as [r0|] eqn:F;
    intros H; injection H as <- <-; simpl.
  - rewrite (map_set_order _ song_ident) by apply set_order_ident.
    apply find_some in F. destruct F as [Hin Hp].
    apply is_song_key in Hp. unfold song_key in Hp. injection Hp as <- <-.
    apply (in_map song_ident _ _ Hin).
  - rewrite map_app. apply in_or_app. right. left. reflexivity.
Qed.








Lemma song_fold_exists movie_id xs sm w name :
  In name (map snd xs) ->
  exists sr,
    In sr (songs (snd (fold_left (song_step movie_id) xs (sm, w))))
    /\ song_key sr = (movie_id, name).
Proof.
  revert sm w. induction xs as [|[idx x] tl IH]; intros sm w Hin;
    [destruct Hin|].
  cbn [fold_left]. destruct Hin as [Hx|Hin].
  - simpl in Hx. subst x. unfold song_step at 2.
    destruct (upsert_song_some movie_id name idx w) as [id Hid].
    destruct (Sql.upsert_song movie_id name idx w) as [o w1] eqn:E.
    simpl in Hid. subst o.
    pose proof (upsert_song_ident _ _ _ _ _ _ E) as Hi.
    pose proof (song_fold_grows movie_id tl (dict_set name id sm) w1) as G.
    apply (prefix_in _ _ _ _ (g_songs G)) in Hi.
    apply in_map_iff in Hi. destruct Hi as [sr [Hid Hsr]].
    exists sr. split; [exact Hsr|].
    unfold song_ident in Hid. unfold song_key. injection Hid as _ -> ->.
    reflexivity.
  - destruct (song_step movie_id (sm, w) (idx, x)) as [sm1 w1].
    apply IH. exact Hin.
Qed.

Lemma song_rows_exists movie_id names w name :
  In name names ->
  exists sr,
    In sr (songs (snd (song_rows movie_id names w)))
    /\ song_key sr = (movie_id, name).
Proof.
  intros Hin. apply song_fold_exists. unfold enumerate1.
  rewrite map_snd_combine_seq. exact Hin.
Qed.


(** ** The references on any session, whatever the outcome *)





(** A step that reads the document and leaves the session alone. *)
Lemma hoare_getitem (A : Type) (P : Conn -> Prop) (E : exn -> Conn -> Prop)
      key (field : option A) :
  (forall e c, P c -> E e c) ->
  hoare A P (getitem key field) (fun _ => P) E.
Proof.
  intros H. destruct field; [apply hoare_ret; auto|apply hoare_raise; auto].
Qed.



Ltac refs_pure :=
  apply hoare_getitem; intros ? ? ?; tauto.












(* ================================================================== *)
(** * Failures *)

Lemma hoare_any (A : Type) (P : Conn -> Prop) (m : M A) :
  hoare A P m (fun _ _ => True) (fun _ _ => True).
Proof. intros c _. destruct (m c) as [[a|e] c']; exact I. Qed.

Lemma hoare_pre_false (A : Type) (m : M A) Q E :
  hoare A (fun _ => False) m Q E.
Proof. intros c []. Qed.

(** With an empty language the commentaries never return. *)
Lemma insert_commentaries_never_returns movie_id ct sm blocks :
  forallb (fun lb => nonempty (snd lb)) blocks = false ->
  hoare unit (fun _ => True) (insert_commentaries movie_id ct sm blocks)
        (fun _ _ => False) (fun _ _ => True).
Proof.
  unfold insert_commentaries.
  induction blocks as [|[lang b] tl IH]; intros H; simpl in H; [discriminate|].
  cbn [for_each]. destruct b as [|e b'].
  - intros c _. exact I.
  - simpl in H.
    apply hoare_bind with (R := fun _ _ => True); [apply hoare_any|].
    intros _. apply IH. exact H.
Qed.

(** A document with an empty language raises on every session. *)
Lemma load_empty_block_raises f data bl c :
  Yaml.content f = Some data -> Yaml.commentaries data = Some bl ->
  forallb (fun lb => nonempty (snd lb)) bl = false ->
  exists e c', load_yaml_file f c = (Raise e, c').
Proof.
  intros Hd Hbl He.
  assert (T : hoare unit (fun _ => True) (load_yaml_file f)
                    (fun _ _ => False) (fun _ _ => True)).
  { unfold load_yaml_file, safe_load. rewrite Hd.
    apply hoare_bind with (R := fun a _ => a = data);
      [intros x _; reflexivity|].
    intros a.
    do 9 (apply hoare_bind with (R := fun _ x => a = data);
          [intros x Hx; match goal with
                        | |- match ?m x with _ => _ end =>
                          destruct (m x) as [[?|?] ?]; auto
                        end|intros ?]).
    apply hoare_bind with (R := fun b x => a = data /\ b = bl).
    { intros x ->. rewrite Hbl. simpl. auto. }
    intros b.
    apply hoare_bind with (R := fun _ _ => False).
    - intros x [_ ->].
      apply (insert_commentaries_never_returns _ _ _ bl He x I).
    - intros _. apply hoare_pre_false. }
  specialize (T c I). destruct (load_yaml_file f c) as [[[]|e] c'];
    [destruct T|eauto].
Qed.

Lemma main_snd files c : snd (main files c) = close (snd (main_loop files c)).
Proof. unfold main. destruct (main_loop files c). reflexivity. Qed.


(* ================================================================== *)
(** * What a document raises *)

Lemma insert_commentaries_outcome movie_id ct sm blocks cm w :
  clean_option ct = true -> clean_blocks blocks = true ->
  exists w',
    insert_commentaries movie_id ct sm blocks (session cm w)
    = (outcome (commentaries_error ct blocks), session cm w')
    /\ grows w w'.
Proof using.
  unfold insert_commentaries, clean_blocks. intros Ht Hc. revert w Hc.
  induction blocks as [|[lang b] tl IH]; intros w Hc.
  - exists w. split; [reflexivity|apply grows_refl].
  - cbn [for_each commentaries_error]. destruct b as [|e b'].
    + exists w. split; [reflexivity|apply grows_refl].
    + cbn [forallb fst snd] in Hc.
      apply andb_prop in Hc. destruct Hc as [Hlb Hc].
      apply andb_prop in Hlb. destruct Hlb as [Hl Hd].
      destruct ct as [ct|].
      * rewrite (bind_ok _ _ _ _ _ _ _
                   (insert_block_session movie_id ct sm lang (e :: b') cm w
                                         eq_refl Ht Hl Hd)).
        destruct (IH (block_rows movie_id ct sm w (lang, e :: b')) Hc)
          as [w' [Hw' G]].
        exists w'. split; [exact Hw'|].
        eapply grows_trans; [apply block_rows_grows|exact G].
      * exists w. destruct e as [k t]. split; [reflexivity|apply grows_refl].
Qed.

Lemma header_error_raises f e c :
  header_error f = Some e -> status c <> Closed ->
  load_yaml_file f c = (Raise e, c).
Proof.
  intros H S. unfold header_error in H.
  assert (Cur : forall (B : Type) (k : unit -> M B), bind cursor k c = k tt c).
  { intros B k. unfold bind, cursor. destruct (status c); congruence. }
  destruct f as [p [[md so ct bl]|]]; simpl in H;
    [|injection H as <-; reflexivity].
  unfold load_yaml_file. run. rewrite Cur.
  destruct md as [[n t d pr m l ca]|]; simpl in H;
    [|injection H as <-; run; reflexivity].
  run. destruct t as [t|]; [|injection H as <-; run; reflexivity].
  run. unfold strptime at 1.
  destruct (datetime_strptime t) as [rd|];
    [|injection H as <-; run; reflexivity].
  run. unfold insert_movie.
  destruct n as [n|]; [|injection H as <-; run; reflexivity].
  destruct d as [d|]; [|injection H as <-; run; reflexivity].
  destruct pr as [pr|]; [|injection H as <-; run; reflexivity].
  destruct m as [m|]; [|injection H as <-; run; reflexivity].
  destruct l as [l|]; [|injection H as <-; run; reflexivity].
  discriminate.
Qed.

Lemma header_error_none f :
  header_error f = None ->
  exists p n t rd d pr m l ca so ct bl,
    f = Yaml.mkFile p
          (Some (Yaml.mkDocument
                   (Some (Yaml.mkMetadata (Some n) (Some t) (Some d) (Some pr)
                                          (Some m) (Some l) ca))
                   so ct bl))
    /\ datetime_strptime t = Some rd.
Proof.
  unfold header_error.
  destruct f as [p [[[[[n|] [t|] [d|] [pr|] [m|] [l|] ca]|] so ct bl]|]];
    simpl; try discriminate;
      try (destruct (datetime_strptime t); discriminate).
  destruct (datetime_strptime t) as [rd|] eqn:Et; [|discriminate].
  intros _. exists p, n, t, rd, d, pr, m, l, ca, so, ct, bl. auto.
Qed.

(** X1.  On a session that serves every request, what a file without a
    NUL character in its strings gives back depends on the file alone,
    not on the rows of the store: the first error met while reading the
    document in the order of the code, or none.  The session stays
    healthy, rows are only added to those the transaction sees, and they
    are committed exactly when no error is raised. *)
Theorem load_outcome_by_document f cm w :
  clean_file f = true ->
  exists w',
    load_yaml_file f (session cm w)
    = (outcome (first_error f),
       session (match first_error f with None => w' | Some _ => cm end) w')
    /\ grows w w'.
Proof.
  intros Hc. unfold first_error. destruct (header_error f) as [e|] eqn:H.
  - exists w. split; [|apply grows_refl].
    apply header_error_raises; [exact H|discriminate].
  - destruct (header_error_none f H)
      as [p [n [t [rd [d [pr [m [l [ca [so [ct [bl [-> Et]]]]]]]]]]]]].
    clear H. unfold clean_file in Hc.
    cbn [Yaml.content Yaml.metadata Yaml.songs_order Yaml.commentary_type
         Yaml.commentaries Yaml.movie_name Yaml.director Yaml.producer
         Yaml.music_director Yaml.lyricist Yaml.cast] in Hc.
    apply andb_prop in Hc. destruct Hc as [Hc C5].
    apply andb_prop in Hc. destruct Hc as [Hc C4].
    apply andb_prop in Hc. destruct Hc as [Hc C3].
    apply andb_prop in Hc. destruct Hc as [C1 C2].
    unfold body_error. cbn [Yaml.content Yaml.metadata Yaml.cast
      Yaml.songs_order Yaml.commentaries Yaml.commentary_type].
    unfold load_yaml_file. run. rewrite bind_cursor_session. run.
    unfold strptime. rewrite Et. run.
    rewrite (bind_ok _ _ _ _ _ _ _
               (insert_movie_session n (Some t) d pr m l ca rd cm w C1)).
    pose proof (movie_rows_grows n rd d pr m l w) as G1.
    destruct (movie_rows n rd d pr m l w) as [mid w1]. simpl in G1.
    cbn [fst snd]. run.
    destruct ca as [ca|]; [|run; exists w1; split; [reflexivity|exact G1]].
    run. rewrite (bind_ok _ _ _ _ _ _ _ (insert_cast_session mid ca cm w1 C2)).
    pose proof (cast_rows_grows mid ca w1) as G2.
    assert (G12 : grows w (cast_rows mid ca w1))
      by (eapply grows_trans; eassumption).
    run. destruct so as [so|];
      [|run; exists (cast_rows mid ca w1); split; [reflexivity|exact G12]].
    run.
    rewrite (bind_ok _ _ _ _ _ _ _
               (insert_songs_session mid so cm (cast_rows mid ca w1) C3)).
    pose proof (song_rows_grows mid so (cast_rows mid ca w1)) as G3.
    destruct (song_rows mid so (cast_rows mid ca w1)) as [sm w3].
    simpl in G3. cbn [fst snd].
    assert (G13 : grows w w3) by (eapply grows_trans; eassumption).
    run. destruct bl as [bl|];
      [|run; exists w3; split; [reflexivity|exact G13]].
    run. destruct (insert_commentaries_outcome mid ct sm bl cm w3 C4 C5)
      as [w4 [L4 G4]].
    assert (G14 : grows w w4) by (eapply grows_trans; eassumption).
    exists w4. split; [|exact G14].
    destruct (commentaries_error ct bl) as [e|].
    + apply bind_raise. exact L4.
    + rewrite (bind_ok _ _ _ _ _ _ _ L4).
      destruct ct as [ct|]; run; reflexivity.
Qed.

(** X2.  A file that cannot be read, lacks its metadata, its release date
    or an attribute of the movie, or whose release date is no date, raises
    before any statement is sent: on every session whose connection is
    open, whatever the store will do, the session is left exactly as it
    was, with nothing written and no request made. *)
Theorem header_error_touches_nothing f e c :
  header_error f = Some e -> status c <> Closed ->
  load_yaml_file f c = (Raise e, c)
  /\ raised_by_store e = false.
Proof.
  intros H S. split; [apply header_error_raises; assumption|].
  unfold header_error in H.
  destruct (Yaml.content f) as [data|]; [|injection H as <-; reflexivity].
  destruct (Yaml.metadata data) as [md|]; [|injection H as <-; reflexivity].
  destruct (Yaml.release_date md) as [t|]; [|injection H as <-; reflexivity].
  destruct (datetime_strptime t); [|injection H as <-; reflexivity].
  destruct (Yaml.movie_name md), (Yaml.director md), (Yaml.producer md),
    (Yaml.music_director md), (Yaml.lyricist md);
    try discriminate; injection H as <-; reflexivity.
Qed.

Lemma load_aborted_error f c :
  status c = Aborted -> load_yaml_file f c = (Raise (aborted_error f), c).
Proof.
  intros S. unfold aborted_error. destruct (header_error f) as [e|] eqn:H.
  - apply header_error_raises; [exact H|congruence].
  - destruct (header_error_none f H)
      as [p [n [t [rd [d [pr [m [l [ca [so [ct [bl [-> Et]]]]]]]]]]]]].
    unfold load_yaml_file. run. rewrite (bind_cursor_aborted _ _ _ S). run.
    unfold strptime. rewrite Et. run. unfold insert_movie. run.
    apply (bind_execute_aborted _ _ _ _ _ _ S).
Qed.

(** X3.  No rollback ever follows a refused statement: once a transaction
    is aborted the batch does not recover.  Every file that remains is
    named and raises: the error of its own reading if that comes before
    its first statement, else the [ValueError] of a NUL character in a
    parameter of that statement, else the error of the aborted
    transaction; and the session, its pending rows included, stays as it
    is. *)
Theorem aborted_batch_never_recovers rest c :
  status c = Aborted ->
  main_loop rest c
  = (map (fun g => (Yaml.path g, Some (aborted_error g))) rest, c).
Proof.
  intros S. induction rest as [|f rest IH]; [reflexivity|].
  rewrite main_loop_cons. rewrite (load_aborted_error f c S). simpl.
  rewrite IH. reflexivity.
Qed.

(* ================================================================== *)
(** * Invariants the statements keep, on any session *)

Section Statements.
Variable I : Conn -> Prop.
Variable E : exn -> Conn -> Prop.
Variable ok : forall A : Type, (DB -> A * DB) -> Prop.
Hypothesis E_python : forall e c, raised_by_store e = false -> I c -> E e c.
Hypothesis I_cursor : keeps I E unit cursor.
Hypothesis I_execute :
  forall (A : Type) params (stmt : DB -> A * DB),
    ok A stmt -> keeps I E A (execute params stmt).
Hypothesis Hok : statements_ok ok.

Lemma stmt_insert_movie md rd : keeps I E nat (insert_movie md rd).
Proof.
  destruct Hok as [H1 [H2 _]]. unfold insert_movie.
  do 5 (apply keeps_bind; [apply keeps_getitem; exact E_python|intros ?]).
  apply keeps_bind; [apply I_execute, H1|intros result].
  destruct result as [id|]; [apply keeps_ret|].
  apply keeps_bind; [apply I_execute, H2|intros row].
  apply keeps_subscript0. exact E_python.
Qed.

Lemma stmt_insert_cast movie_id cast :
  keeps I E unit (insert_cast movie_id cast).
Proof.
  destruct Hok as [_ [_ [H3 [H4 [H5 _]]]]]. unfold insert_cast.
  apply keeps_for_each. intros name.
  apply keeps_bind; [apply I_execute, H3|intros _].
  apply keeps_bind; [apply I_execute, H4|intros row].
  apply keeps_bind; [apply keeps_subscript0; exact E_python|intros cast_id].
  apply I_execute, H5.
Qed.

Lemma stmt_insert_songs movie_id songs_order :
  keeps I E (dict nat) (insert_songs movie_id songs_order).
Proof.
  destruct Hok as [_ [_ [_ [_ [_ [H6 _]]]]]]. unfold insert_songs.
  apply keeps_for_fold. intros [idx name] sm.
  apply keeps_bind; [apply I_execute, H6|intros row].
  apply keeps_bind; [apply keeps_subscript0; exact E_python|intros song_id].
  apply keeps_ret.
Qed.

Lemma stmt_insert_commentaries movie_id ct sm blocks :
  keeps I E unit (insert_commentaries movie_id ct sm blocks).
Proof.
  destruct Hok as [_ [_ [_ [_ [_ [_ H7]]]]]]. unfold insert_commentaries.
  apply keeps_for_each. intros [lang b]. unfold insert_block.
  destruct b as [|[k text] tl]; [apply keeps_raise; [exact E_python|reflexivity]|].
  apply keeps_bind; [apply keeps_getitem; exact E_python|intros ctype].
  apply keeps_bind; [apply I_execute, H7|intros _].
  apply keeps_for_each. intros [name id].
  destruct (dict_get name ((k, text) :: tl));
    [apply I_execute, H7|apply keeps_ret].
Qed.

(** What holds after [commit] decides what holds after
    [load_yaml_file]. *)
Lemma stmt_load_yaml_file f (Q : unit -> Conn -> Prop) :
  hoare unit I commit Q E -> hoare unit I (load_yaml_file f) Q E.
Proof.
  intros Hcommit. unfold load_yaml_file.
  apply hoare_bind with (R := fun _ => I);
    [apply keeps_safe_load; exact E_python|intros data].
  apply hoare_bind with (R := fun _ => I); [apply I_cursor|intros _].
  apply hoare_bind with (R := fun _ => I);
    [apply keeps_getitem; exact E_python|intros md].
  apply hoare_bind with (R := fun _ => I);
    [apply keeps_getitem; exact E_python|intros text].
  apply hoare_bind with (R := fun _ => I);
    [apply keeps_strptime; exact E_python|intros rd].
  apply hoare_bind with (R := fun _ => I);
    [apply stmt_insert_movie|intros movie_id].
  apply hoare_bind with (R := fun _ => I);
    [apply keeps_getitem; exact E_python|intros cast].
  apply hoare_bind with (R := fun _ => I);
    [apply stmt_insert_cast|intros _].
  apply hoare_bind with (R := fun _ => I);
    [apply keeps_getitem; exact E_python|intros songs_order].
  apply hoare_bind with (R := fun _ => I);
    [apply stmt_insert_songs|intros sm].
  apply hoare_bind with (R := fun _ => I);
    [apply keeps_getitem; exact E_python|intros blocks].
  apply hoare_bind with (R := fun _ => I);
    [apply stmt_insert_commentaries|intros _].
  apply hoare_bind with (R := fun _ => I);
    [apply keeps_getitem; exact E_python|intros _].
  exact Hcommit.
Qed.
End Statements.

Lemma statements_grow :
  statements_ok (fun A stmt => forall w, grows w (snd (stmt w))).
Proof.
  split; [intros; apply insert_movie_grows|].
  split; [intros; apply grows_refl|].
  split; [intros; apply insert_cast_member_grows|].
  split; [intros; apply grows_refl|].
  split; [intros; apply insert_movie_cast_grows|].
  split; [intros; apply upsert_song_grows|].
  intros; apply insert_commentary_grows.
Qed.

Lemma statements_unique :
  statements_ok (fun A stmt => forall w, unique_keys w -> unique_keys (snd (stmt w))).
Proof.
  split; [intros; apply insert_movie_unique; assumption|].
  split; [intros; assumption|].
  split; [intros; apply insert_cast_member_unique; assumption|].
  split; [intros; assumption|].
  split; [intros; apply insert_movie_cast_unique; assumption|].
  split; [intros; apply upsert_song_unique; assumption|].
  intros; apply insert_commentary_unique; assumption.
Qed.

Lemma load_extends db f c : extends db c -> extends db (snd (load_yaml_file f c)).
Proof.
  intros H.
  assert (T : hoare unit (extends db) (load_yaml_file f)
                    (fun _ => extends db) (fun _ => extends db)).
  { apply (stmt_load_yaml_file
             (extends db) (fun _ => extends db)
             (fun A stmt => forall w, grows w (snd (stmt w)))).
    - auto.
    - intros x Hx. unfold cursor. destruct (status x); exact Hx.
    - intros A params stmt Hs x [G1 G2]. unfold execute, extends.
      specialize (Hs (working x)).
      destruct (forallb clean params);
      by_status x; try destruct (stmt (working x)); simpl in *;
        try (split; [assumption|]);
        try assumption; try apply grows_refl;
          eapply grows_trans; eassumption.
    - apply statements_grow.
    - intros x [G1 G2]. unfold commit, extends.
      by_status x; try (split; [assumption|]);
        try assumption; try apply grows_refl;
          try (split; [eapply grows_trans; eassumption|apply grows_refl]). }
  specialize (T c H). destruct (load_yaml_file f c) as [[[]|e] c']; exact T.
Qed.

Lemma main_loop_extends db files c :
  extends db c -> extends db (snd (main_loop files c)).
Proof.
  revert c. induction files as [|f rest IH]; intros c H; [exact H|].
  rewrite main_loop_cons. simpl. apply IH. apply load_extends. exact H.
Qed.

(** X4.  The loader has no way to remove a row.  Whatever the files of a
    batch and whatever the store does to its requests, the rows committed
    when the run ends are those the store held when the connection was
    opened and more: every row is still there, in its place, and of a
    song row the ordinal alone may have changed. *)
Theorem batch_only_adds_rows files db fs :
  grows db (committed (snd (main files (connect db fs)))).
Proof.
  rewrite main_snd. simpl.
  apply (main_loop_extends db files (connect db fs)).
  split; apply grows_refl.
Qed.

Lemma load_unique f c : unique_in c -> unique_in (snd (load_yaml_file f c)).
Proof.
  intros H.
  assert (T : hoare unit unique_in (load_yaml_file f)
                    (fun _ => unique_in) (fun _ => unique_in)).
  { apply (stmt_load_yaml_file
             unique_in (fun _ => unique_in)
             (fun A stmt => forall w, unique_keys w -> unique_keys (snd (stmt w)))).
    - auto.
    - intros x Hx. unfold cursor. destruct (status x); exact Hx.
    - intros A params stmt Hs x [U1 U2]. unfold execute, unique_in.
      specialize (Hs (working x) U2).
      destruct (forallb clean params);
        by_status x; try destruct (stmt (working x)); simpl in *; auto.
    - apply statements_unique.
    - intros x [U1 U2]. unfold commit, unique_in.
      by_status x; auto. }
  specialize (T c H). destruct (load_yaml_file f c) as [[[]|e] c']; exact T.
Qed.

(** X5.  The conflict clauses of the loader's statements are enough: no
    statement it sends can break a uniqueness constraint.  When the
    constraints on movie name, cast member name, the (movie, cast) pair,
    the (movie, song name) pair and the surrogate keys hold in the store
    at connection time, they hold in the rows committed and in the rows
    the transaction sees after every file of a batch, on any session and
    whatever the outcome of the files. *)
Theorem batch_keeps_unique_keys files db fs :
  unique_keys db ->
  unique_keys (committed (snd (main_loop files (connect db fs))))
  /\ unique_keys (working (snd (main_loop files (connect db fs)))).
Proof.
  intros U.
  assert (H : unique_in (connect db fs)) by (split; exact U).
  generalize (connect db fs) H. clear H.
  induction files as [|f rest IH]; intros c H; [exact H|].
  rewrite main_loop_cons. simpl. apply IH. apply load_unique. exact H.
Qed.

(** A file that goes through leaves nothing pending. *)
Lemma load_ok_commits f c c' :
  load_yaml_file f c = (Ok tt, c') ->
  status c' = Ready
  /\ committed c' = working c'
  /\ grows (working c) (committed c').
Proof.
  intros L.
  assert (S : status c = Ready).
  { destruct (status c) eqn:S; [reflexivity| |];
      (destruct (load_not_ready f c) as [e He]; [congruence|]);
      rewrite He in L; discriminate. }
  assert (T : hoare unit
                    (fun x => status x = Ready /\ grows (working c) (working x))
                    (load_yaml_file f)
                    (fun _ x => status x = Ready /\ committed x = working x
                                /\ grows (working c) (committed x))
                    (fun _ _ => True)).
  { apply (stmt_load_yaml_file
             (fun x => status x = Ready /\ grows (working c) (working x))
             (fun _ _ => True)
             (fun A stmt => forall w, grows w (snd (stmt w)))).
    - auto.
    - intros x [Sx G]. unfold cursor. rewrite Sx. split; assumption.
    - intros A params stmt Hs x [Sx G]. unfold execute. rewrite Sx.
      specialize (Hs (working x)).
      destruct (forallb clean params); [|exact Logic.I].
      destruct (faults x) as [|[[]|] ?]; simpl; auto;
        destruct (stmt (working x)); simpl in *;
          (split; [reflexivity|eapply grows_trans; eassumption]).
    - apply statements_grow.
    - intros x [Sx G]. unfold commit. rewrite Sx.
      destruct (faults x) as [|[[]|] ?]; simpl; auto. }
  specialize (T c (conj S (grows_refl _))). rewrite L in T. exact T.
Qed.

(** X6.  A file that goes through leaves nothing pending, on any session:
    the session is ready, the rows committed are the rows the transaction
    sees, and they are the rows it saw before the file, those left
    pending by earlier files included, and more. *)
Theorem success_commits_all_pending f c c' :
  load_yaml_file f c = (Ok tt, c') ->
  status c' = Ready
  /\ committed c' = working c'
  /\ grows (working c) (committed c').
Proof.
  intros L. destruct (load_ok_commits f c c' L) as [S [C G]].
  split; [exact S|]. split; [exact C|exact G].
Qed.

(* ================================================================== *)
(** * Ingesting a document again *)

Lemma db_ext (a b : DB) :
  movies a = movies b -> cast_members a = cast_members b ->
  movie_cast a = movie_cast b -> songs a = songs b ->
  commentaries a = commentaries b -> a = b.
Proof.
  destruct a, b. simpl. intros -> -> -> -> ->. reflexivity.
Qed.

Lemma find_unique_song movie_id name l r :
  NoDup (map song_key l) -> In r l -> Sql.is_song movie_id name r = true ->
  find (Sql.is_song movie_id name) l = Some r.
Proof.
  intros N Hin Hp.
  destruct (find (Sql.is_song movie_id name) l) as [r'|] eqn:F.
  - apply find_some in F. destruct F as [Hin' Hp'].
    f_equal. apply (NoDup_map_inj _ _ song_key l r' r N Hin' Hin).
    apply is_song_key in Hp, Hp'. congruence.
  - rewrite (find_none _ _ F r Hin) in Hp. discriminate.
Qed.

(** When every name of the list has its row already, the song loop only
    rewrites ordinals, row by row. *)
Lemma song_fold_updates movie_id xs :
  forall sm w,
    (forall name, In name (map snd xs) ->
                  existsb (Sql.is_song movie_id name) (songs w) = true) ->
    songs (snd (fold_left (song_step movie_id) xs (sm, w)))
    = map (fun r => fold_left (fun r x => Sql.set_order movie_id (snd x) (fst x) r)
                              xs r)
          (songs w).
Proof.
  induction xs as [|[idx name] tl IH]; intros sm w H.
  - simpl. symmetry. apply map_id.
  - cbn [fold_left].
    destruct (song_step movie_id (sm, w) (idx, name)) as [sm1 w1] eqn:E.
    assert (W1 : w1 = snd (Sql.upsert_song movie_id name idx w)).
    { rewrite <- song_step_snd with (sm := sm). rewrite E. reflexivity. }
    assert (S1 : songs w1 = map (Sql.set_order movie_id name idx) (songs w)).
    { rewrite W1. unfold Sql.upsert_song.
      destruct (find_of_existsb _ _ _ (H name (or_introl eq_refl)))
        as [r [-> _]]. reflexivity. }
    rewrite IH.
    + rewrite S1, map_map. reflexivity.
    + intros n Hn. rewrite S1.
      specialize (H n (or_intror Hn)).
      apply existsb_exists in H. destruct H as [r [Hr Hp]].
      apply existsb_exists. exists (Sql.set_order movie_id name idx r).
      split; [apply in_map; exact Hr|].
      rewrite is_song_set_order. exact Hp.
Qed.

(** What the ordinals of the list do to one row. *)
Lemma set_orders_row movie_id names :
  forall start r,
    let r' := fold_left (fun r x => Sql.set_order movie_id (snd x) (fst x) r)
                        (combine (seq start (List.length names)) names) r in
    song_ident r' = song_ident r
    /\ (Songs.movie_id r = movie_id -> In (Songs.song_name r) names ->
        S (Songs.song_order r')
        = start + last_position (Songs.song_name r) names)
    /\ ((Songs.movie_id r = movie_id -> ~ In (Songs.song_name r) names) ->
        r' = r).
Proof using.
  clear strptime_beyond_ascii.
  induction names as [|x tl IH]; intros start r; cbn zeta.
  - simpl. split; [reflexivity|]. split; [intros _ []|reflexivity].
  - cbn [List.length seq combine fold_left fst snd].
    set (r1 := Sql.set_order movie_id x start r).
    destruct (IH (S start) r1) as [I1 [O1 U1]]. cbn zeta in I1, O1, U1.
    assert (Id1 : song_ident r1 = song_ident r) by apply set_order_ident.
    assert (Mv : Songs.movie_id r1 = Songs.movie_id r
                 /\ Songs.song_name r1 = Songs.song_name r).
    { unfold song_ident in Id1. injection Id1 as _ A B. auto. }
    destruct Mv as [Mv Nm].
    split; [congruence|]. split.
    + intros Hm Hin. destruct (in_dec string_dec (Songs.song_name r) tl) as [Htl|Htl].
      * rewrite <- Nm in Htl. rewrite O1 by congruence.
        rewrite Nm in *. simpl.
        pose proof (last_position_in _ _ Htl) as Hp.
        destruct (last_position (Songs.song_name r) tl); [tauto|lia].
      * assert (Hx : x = Songs.song_name r)
          by (destruct Hin; [assumption|tauto]).
        rewrite U1 by (intros _; rewrite Nm; exact Htl).
        simpl. rewrite (last_position_not_in _ _ Htl). subst x.
        rewrite String.eqb_refl. unfold r1, Sql.set_order, Sql.is_song.
        rewrite Hm, Nat.eqb_refl, String.eqb_refl. simpl. lia.
    + intros H. rewrite U1.
      * unfold r1, Sql.set_order.
        destruct (Sql.is_song movie_id x r) eqn:Hs; [|reflexivity].
        exfalso. apply is_song_key in Hs. unfold song_key in Hs.
        injection Hs as Hm Hn. apply (H Hm). left. symmetry. exact Hn.
      * intros Hm Hin. rewrite Mv in Hm. rewrite Nm in Hin.
        apply (H Hm). right. exact Hin.
Qed.

Lemma song_rows_last movie_id names w name :
  NoDup (map song_key (songs w)) -> In name names ->
  exists r,
    filter (Sql.is_song movie_id name)
           (songs (snd (song_rows movie_id names w))) = [r]
    /\ S (Songs.song_order r) = 1 + last_position name names.
Proof using. intros N Hin. apply song_fold_order; assumption. Qed.

Lemma song_rows_again movie_id names w0 w :
  NoDup (map song_key (songs w0)) ->
  songs w = songs (snd (song_rows movie_id names w0)) ->
  songs (snd (song_rows movie_id names w)) = songs w.
Proof using.
  intros N Hw. unfold song_rows at 1, enumerate1.
  rewrite song_fold_updates.
  - rewrite <- (map_id (songs w)) at 2. apply map_ext_in. intros r Hr.
    destruct (set_orders_row movie_id names 1 r) as [Id [Ord Same]].
    cbn zeta in Id, Ord, Same.
    destruct (Nat.eq_dec (Songs.movie_id r) movie_id) as [Hm|Hm];
      [|apply Same; tauto].
    destruct (in_dec string_dec (Songs.song_name r) names) as [Hin|Hin];
      [|apply Same; tauto].
    specialize (Ord Hm Hin).
    destruct (song_rows_last movie_id names w0 (Songs.song_name r) N Hin)
      as [r0 [F0 O0]].
    assert (Hr0 : r = r0).
    { assert (Hf : In r (filter (Sql.is_song movie_id (Songs.song_name r))
                                (songs w))).
      { apply filter_In. split; [exact Hr|]. apply is_song_key.
        unfold song_key. rewrite Hm. reflexivity. }
      rewrite Hw in Hf. rewrite F0 in Hf. destruct Hf as [Hf|[]]. auto. }
    subst r0.
    set (r' := fold_left _ _ r) in *.
    assert (Ho : Songs.song_order r' = Songs.song_order r) by lia.
    clearbody r'. destruct r', r. unfold song_ident in Id. simpl in *.
    injection Id as -> -> ->. subst. reflexivity.
  - rewrite map_snd_combine_seq. intros name Hin.
    destruct (song_rows_exists movie_id names w0 name Hin) as [sr [Hsr Hk]].
    rewrite Hw. apply existsb_exists. exists sr. split; [exact Hsr|].
    apply is_song_key. exact Hk.
Qed.

(** The identity the mapping gives a name is that of the song's row when
    the loop is over. *)
Lemma song_fold_mapping movie_id xs :
  forall sm w,
    unique_keys w ->
    fst (fold_left (song_step movie_id) xs (sm, w))
    = fold_left
        (fun acc x =>
           dict_set (snd x)
                    (match find (Sql.is_song movie_id (snd x))
                                (songs (snd (fold_left (song_step movie_id) xs
                                                       (sm, w)))) with
                     | Some r => Songs.song_id r
                     | None => 0
                     end)
                    acc)
        xs sm.
Proof.
  induction xs as [|[idx name] tl IH]; intros sm w U; [reflexivity|].
  cbn [fold_left fst snd].
  destruct (upsert_song_some movie_id name idx w) as [id Hid].
  pose proof (upsert_song_unique movie_id name idx w U) as U1.
  unfold song_step at 2 4 6.
  destruct (Sql.upsert_song movie_id name idx w) as [o w1] eqn:E.
  simpl in Hid, U1. subst o.
  pose proof (upsert_song_ident _ _ _ _ _ _ E) as Hi.
  pose proof (song_fold_grows movie_id tl (dict_set name id sm) w1) as G.
  pose proof (song_fold_unique movie_id tl (dict_set name id sm) w1 U1) as UF.
  apply (prefix_in _ _ _ _ (g_songs G)) in Hi.
  apply in_map_iff in Hi. destruct Hi as [r [Hr Hin]].
  assert (Hp : Sql.is_song movie_id name r = true).
  { apply is_song_key. unfold song_ident in Hr. unfold song_key.
    injection Hr as _ -> ->. reflexivity. }
  rewrite (find_unique_song movie_id name _ r (uk_song UF) Hin Hp).
  assert (Songs.song_id r = id)
    by (unfold song_ident in Hr; injection Hr as -> _ _; reflexivity).
  subst id. rewrite (IH _ w1 U1). reflexivity.
Qed.

Lemma song_rows_mapping_same movie_id names wa wb :
  unique_keys wa -> unique_keys wb ->
  songs (snd (song_rows movie_id names wa))
  = songs (snd (song_rows movie_id names wb)) ->
  fst (song_rows movie_id names wa) = fst (song_rows movie_id names wb).
Proof.
  intros Ua Ub H. unfold song_rows in *.
  etransitivity; [exact (song_fold_mapping movie_id _ [] wa Ua)|].
  etransitivity; [|symmetry; exact (song_fold_mapping movie_id _ [] wb Ub)].
  assert (Same : forall sa sb : list Songs.row, sa = sb ->
            fold_left
              (fun (acc : dict nat) (x : nat * string) =>
                 dict_set (snd x)
                          (match find (Sql.is_song movie_id (snd x)) sa with
                           | Some r => Songs.song_id r
                           | None => 0
                           end) acc)
              (enumerate1 names) []
            = fold_left
                (fun (acc : dict nat) (x : nat * string) =>
                   dict_set (snd x)
                            (match find (Sql.is_song movie_id (snd x)) sb with
                             | Some r => Songs.song_id r
                             | None => 0
                             end) acc)
                (enumerate1 names) [])
    by (intros sa sb ->; reflexivity).
  apply Same. exact H.
Qed.

(** Rows of one movie, kind and language with the same song references and
    texts have the same values. *)
Lemma values_of_content movie_id ct lang :
  forall xs ys,
    Forall (row_of movie_id ct lang) xs -> Forall (row_of movie_id ct lang) ys ->
    map row_content xs = map row_content ys ->
    map row_values xs = map row_values ys.
Proof.
  induction xs as [|x xs IH]; intros [|y ys] Hx Hy H; try discriminate;
    [reflexivity|].
  destruct (Forall_inv Hx) as [X1 [X2 X3]].
  destruct (Forall_inv Hy) as [Y1 [Y2 Y3]].
  pose proof (Forall_inv_tail Hx) as Hxs.
  pose proof (Forall_inv_tail Hy) as Hys.
  simpl in H. unfold row_content at 1 2 in H. injection H as C1 C2 Ht.
  simpl. rewrite (IH ys Hxs Hys Ht). unfold row_values.
  rewrite X1, X2, X3, Y1, Y2, Y3, C1, C2. reflexivity.
Qed.

(** A language appends rows of the same values whatever the rows before. *)
Lemma block_rows_values movie_id ct sm lb wa wb :
  exists xs ys,
    commentaries (block_rows movie_id ct sm wa lb) = commentaries wa ++ xs
    /\ commentaries (block_rows movie_id ct sm wb lb) = commentaries wb ++ ys
    /\ map row_values xs = map row_values ys
    /\ (nonempty (snd lb) = true -> 1 <= List.length xs).
Proof.
  destruct lb as [lang [|[k text] tl]].
  - exists [], []. simpl. rewrite !app_nil_r. repeat split. discriminate.
  - destruct (block_rows_rows movie_id ct sm wa lang k text tl)
      as [xs [Ha [Ca Fa]]].
    destruct (block_rows_rows movie_id ct sm wb lang k text tl)
      as [ys [Hb [Cb Fb]]].
    exists xs, ys. split; [exact Ha|]. split; [exact Hb|]. split.
    + apply (values_of_content movie_id ct lang); try assumption. congruence.
    + intros _. destruct xs; [discriminate|simpl; lia].
Qed.

Lemma commentary_rows_values movie_id ct sm blocks :
  forall wa wb,
  exists xs ys,
    commentaries (commentary_rows movie_id ct sm blocks wa) = commentaries wa ++ xs
    /\ commentaries (commentary_rows movie_id ct sm blocks wb)
       = commentaries wb ++ ys
    /\ map row_values xs = map row_values ys
    /\ (forallb (fun lb => nonempty (snd lb)) blocks = true ->
        List.length blocks <= List.length xs).
Proof.
  unfold commentary_rows.
  induction blocks as [|lb tl IH]; intros wa wb.
  - exists [], []. simpl. rewrite !app_nil_r. repeat split. lia.
  - cbn [fold_left].
    destruct (block_rows_values movie_id ct sm lb wa wb)
      as [x1 [y1 [Ha [Hb [V1 L1]]]]].
    destruct (IH (block_rows movie_id ct sm wa lb)
                 (block_rows movie_id ct sm wb lb))
      as [x2 [y2 [Ha2 [Hb2 [V2 L2]]]]].
    exists (x1 ++ x2), (y1 ++ y2).
    rewrite Ha2, Hb2, Ha, Hb, <- !app_assoc, !map_app, V1, V2.
    repeat split. intros Hn. cbn [forallb] in Hn.
    apply andb_true_iff in Hn. destruct Hn as [N1 N2].
    specialize (L1 N1). specialize (L2 N2).
    rewrite length_app. simpl. lia.
Qed.

(** The four steps of a document on the rows its own ingestion left: the
    movie, the cast and the songs are found as they are, and the
    commentaries are inserted with the same song identities. *)
Lemma ingest_again v w :
  unique_keys w ->
  exists mr sm w3,
    ingest v w
    = commentary_rows (Movies.movie_id mr) (f_commentary_type v) sm
                      (f_commentaries v) w3
    /\ commentaries w3 = commentaries w
    /\ ingest v (ingest v w)
       = commentary_rows (Movies.movie_id mr) (f_commentary_type v) sm
                         (f_commentaries v) (ingest v w).
Proof using.
  intros U.
  destruct (ingest_steps v w) as [mr [w1 [sm [w3 [M [F [S3 I4]]]]]]].
  exists mr, sm, w3. split; [exact I4|].
  set (mid := Movies.movie_id mr) in *.
  set (w2 := cast_rows mid (f_cast v) w1) in *.
  assert (W1 : w1 = snd (movie_rows (f_movie_name v) (f_release_date v)
                                    (f_director v) (f_producer v)
                                    (f_music_director v) (f_lyricist v) w))
    by (rewrite M; reflexivity).
  assert (U1 : unique_keys w1)
    by (rewrite W1; apply movie_rows_unique; exact U).
  assert (U2 : unique_keys w2) by (apply cast_rows_unique; exact U1).
  assert (W3 : w3 = snd (song_rows mid (f_songs_order v) w2))
    by (rewrite S3; reflexivity).
  pose proof (movie_rows_frame (f_movie_name v) (f_release_date v)
                (f_director v) (f_producer v) (f_music_director v)
                (f_lyricist v) w) as F1.
  cbv zeta in F1. rewrite <- W1 in F1. destruct F1 as [_ [_ [_ C1]]].
  destruct (cast_rows_frame mid (f_cast v) w1) as [M2 [_ C2]]. fold w2 in M2, C2.
  pose proof (song_rows_frame mid (f_songs_order v) w2) as F3.
  cbv zeta in F3. rewrite <- W3 in F3. destruct F3 as [M3 [CM3 [MC3 C3]]].
  destruct (commentary_rows_frame mid (f_commentary_type v) sm
                                  (f_commentaries v) w3) as [M4 [CM4 [MC4 S4]]].
  cbv zeta in M4, CM4, MC4, S4. rewrite <- I4 in M4, CM4, MC4, S4.
  split; [congruence|].
  set (wi := ingest v w) in *.
  assert (Ui : unique_keys wi) by (apply ingest_unique; exact U).
  unfold ingest at 1.
  rewrite (movie_rows_existing _ (f_release_date v) (f_director v)
             (f_producer v) (f_music_director v) (f_lyricist v) wi mr)
    by (rewrite M4, M3, M2; exact F).
  fold mid.
  assert (Cast : cast_rows mid (f_cast v) wi = wi).
  { apply cast_rows_resolved. intros name Hin.
    destruct (cast_rows_resolves mid (f_cast v) w1 name Hin) as [cr [Fc P]].
    fold w2 in Fc, P. exists cr. rewrite CM4, CM3, MC4, MC3. auto. }
  rewrite Cast.
  assert (Songs : songs (snd (song_rows mid (f_songs_order v) wi)) = songs wi).
  { apply (song_rows_again mid (f_songs_order v) w2 wi (uk_song U2)).
    rewrite S4, W3. reflexivity. }
  assert (Same : snd (song_rows mid (f_songs_order v) wi) = wi).
  { pose proof (song_rows_frame mid (f_songs_order v) wi) as Fi.
    cbv zeta in Fi. destruct Fi as [A [B [C D]]].
    apply db_ext; assumption. }
  assert (Map : fst (song_rows mid (f_songs_order v) wi) = sm).
  { rewrite (song_rows_mapping_same mid (f_songs_order v) wi w2 Ui U2).
    - rewrite S3. reflexivity.
    - rewrite Songs, S4, W3. reflexivity. }
  destruct (song_rows mid (f_songs_order v) wi) as [sm' wi'].
  simpl in Same, Map. subst sm' wi'. reflexivity.
Qed.

(** Identities appended to a table without duplicates are new. *)
Lemma nodup_appended (A B : Type) (key : A -> B) (l new : list A) :
  NoDup (map key (l ++ new)) ->
  NoDup (map key new)
  /\ forall r, In r new -> ~ In (key r) (map key l).
Proof.
  rewrite map_app. induction l as [|a tl IH]; simpl; intros N.
  - split; [exact N|]. intros r _ [].
  - apply NoDup_cons_iff in N. destruct N as [Na N].
    destruct (IH N) as [N2 Fresh]. split; [exact N2|].
    intros r Hr [E|Hin]; [|exact (Fresh r Hr Hin)].
    apply Na. rewrite E. apply in_or_app. right.
    apply in_map. exact Hr.
Qed.

(** X7.  Ingesting a document a second time.  On a session that serves
    every request, with the uniqueness constraints holding at the start, a
    loadable document is ingested twice running: both calls return, the
    second leaves the movies, the cast members, the movie-cast pairs and
    the songs exactly as the first left them, and appends a second copy of
    the commentary rows, the same values under new identities (the
    identities of the appended rows differ from each other and from those
    of every row the table held before the second call), at least one row
    per language. *)
Theorem reingestion_duplicates_commentaries f v cm w :
  fields f = Some v -> loadable f = true -> unique_keys w ->
  exists w1 w2 new1 new2,
    load_yaml_file f (session cm w) = (Ok tt, session w1 w1)
    /\ load_yaml_file f (session w1 w1) = (Ok tt, session w2 w2)
    /\ movies w2 = movies w1 /\ cast_members w2 = cast_members w1
    /\ movie_cast w2 = movie_cast w1 /\ songs w2 = songs w1
    /\ commentaries w1 = commentaries w ++ new1
    /\ commentaries w2 = commentaries w1 ++ new2
    /\ map row_values new2 = map row_values new1
    /\ NoDup (map Commentaries.commentary_id new2)
    /\ (forall r, In r new2 ->
         ~ In (Commentaries.commentary_id r)
              (map Commentaries.commentary_id (commentaries w1)))
    /\ List.length (f_commentaries v) <= List.length new2.
Proof.
  intros Fv L U.
  pose proof (uk_commentary_id (ingest_unique v _ (ingest_unique v w U)))
    as Ids.
  exists (ingest v w), (ingest v (ingest v w)).
  destruct (ingest_again v w U) as [mr [sm [w3 [I1 [C3 I2]]]]].
  destruct (commentary_rows_values (Movies.movie_id mr) (f_commentary_type v)
              sm (f_commentaries v) (ingest v w) w3)
    as [new2 [new1 [H2 [H1 [V Len]]]]].
  exists new1, new2.
  split; [apply load_loadable; assumption|].
  split; [apply load_loadable; assumption|].
  destruct (commentary_rows_frame (Movies.movie_id mr) (f_commentary_type v)
              sm (f_commentaries v) (ingest v w)) as [M [CM [MC S]]].
  cbv zeta in M, CM, MC, S. rewrite <- I2 in M, CM, MC, S.
  repeat (split; [assumption|]).
  split; [rewrite I1 at 1; rewrite H1, C3; reflexivity|].
  split; [rewrite I2 at 1; exact H2|].
  split; [exact V|].
  assert (Fresh : NoDup (map Commentaries.commentary_id
                           (commentaries (ingest v w) ++ new2))).
  { rewrite <- H2, <- I2. exact Ids. }
  apply nodup_appended in Fresh. destruct Fresh as [N2 Fresh].
  split; [exact N2|]. split; [exact Fresh|].
  apply Len. apply (loadable_fields f v Fv L).
Qed.

(* ================================================================== *)
(** * The release date *)

Lemma after_day_spaces x g :
  Strptime.after_day x = Some g ->
  exists r, Strptime.spaces1 (snd x) = Some r.
Proof.
  unfold Strptime.after_day. destruct x as [d0 rest].
  destruct (Strptime.spaces1 rest) as [r1|] eqn:S1; [|discriminate].
  intros _. exists r1. exact S1.
Qed.

Lemma first_match_some alts g :
  Strptime.first_match alts = Some g ->
  exists x, In (Some x) alts /\ Strptime.after_day x = Some g.
Proof.
  induction alts as [|[x|] tl IH]; simpl; [discriminate| |].
  - destruct (Strptime.after_day x) as [r|] eqn:A.
    + intros H. injection H as <-. exists x. auto.
    + intros H. destruct (IH H) as [x' [Hin Hx]]. exists x'. auto.
  - intros H. destruct (IH H) as [x' [Hin Hx]]. exists x'. auto.
Qed.

(** The rest of the text after the day is the text without its first one
    or two characters. *)
Lemma d_alternatives_rest s x :
  In (Some x) (Strptime.d_alternatives s) ->
  exists pre, s = pre ++ snd x.
Proof.
  unfold Strptime.d_alternatives. destruct s as [|c1 tl]; [intros []|].
  intros H. simpl in H.
  destruct H as [H|[H|[H|[H|[H|[]]]]]].
  1-3: destruct (Strptime.in_range _ _ c1); try discriminate;
       destruct tl as [|c2 rest]; try discriminate;
       destruct (Strptime.in_range _ _ c2); try discriminate;
       injection H as <-; exists [c1; c2]; reflexivity.
  - destruct (Strptime.in_range 1 9 c1); [|discriminate].
    injection H as <-. exists [c1]. reflexivity.
  - destruct tl as [|c2 rest]; [discriminate|].
    destruct (Ascii.eqb c1 " "); [|discriminate].
    destruct (Strptime.in_range 1 9 c2); [|discriminate].
    injection H as <-. exists [c1; c2]. reflexivity.
Qed.

Lemma strptime_needs_space s :
  forallb (fun a => negb (Strptime.is_space a)) (list_ascii_of_string s) = true ->
  Strptime.strptime s = None.
Proof.
  intros H. unfold Strptime.strptime.
  destruct (Strptime.first_match _) as [[[d m] y]|] eqn:F; [|reflexivity].
  exfalso. destruct (first_match_some _ _ F) as [x [Hin A]].
  apply after_day_spaces in A. destruct A as [r Hr].
  destruct (d_alternatives_rest _ _ Hin) as [pre Hs].
  rewrite Hs, forallb_app in H. apply andb_true_iff in H. destruct H as [_ H].
  unfold Strptime.spaces1 in Hr. destruct (snd x) as [|c tl]; [discriminate|].
  simpl in H. destruct (Strptime.is_space c); discriminate.
Qed.

(** X9.  An ASCII release date text without white space, a quoted ISO
    date for one, is refused: on every session whose connection is open
    the file raises [ValueError] before any statement is sent, and the
    session is as it was. *)
Theorem release_date_without_space_raises f data md text c :
  Yaml.content f = Some data -> Yaml.metadata data = Some md ->
  Yaml.release_date md = Some text ->
  Strptime.is_ascii text = true ->
  forallb (fun a => negb (Strptime.is_space a)) (list_ascii_of_string text)
  = true ->
  status c <> Closed ->
  load_yaml_file f c = (Raise ValueError, c).
Proof.
  intros Hc Hm Ht Ha Hs Hst. apply header_error_raises; [|exact Hst].
  unfold header_error. rewrite Hc, Hm, Ht.
  unfold datetime_strptime. rewrite Ha, (strptime_needs_space text Hs).
  reflexivity.
Qed.

(* ================================================================== *)
(** * The songs a document does not list *)

Lemma upsert_song_keeps movie_id name idx w r :
  In r (songs w) -> Sql.is_song movie_id name r = false ->
  In r (songs (snd (Sql.upsert_song movie_id name idx w))).
Proof.
  intros Hin Hp. unfold Sql.upsert_song.
  destruct (find (Sql.is_song movie_id name) (songs w)); simpl.
  - apply in_map_iff. exists r. split; [|exact Hin].
    unfold Sql.set_order. rewrite Hp. reflexivity.
  - apply in_or_app. left. exact Hin.
Qed.

Lemma song_fold_keeps movie_id xs r :
  forall sm w,
    In r (songs w) ->
    Songs.movie_id r <> movie_id \/ ~ In (Songs.song_name r) (map snd xs) ->
    In r (songs (snd (fold_left (song_step movie_id) xs (sm, w)))).
Proof.
  induction xs as [|[idx name] tl IH]; intros sm w Hin Hr; [exact Hin|].
  cbn [fold_left].
  destruct (song_step movie_id (sm, w) (idx, name)) as [sm1 w1] eqn:E.
  assert (W1 : w1 = snd (Sql.upsert_song movie_id name idx w)).
  { rewrite <- song_step_snd with (sm := sm). rewrite E. reflexivity. }
  apply IH.
  - rewrite W1. apply upsert_song_keeps; [exact Hin|].
    destruct (Sql.is_song movie_id name r) eqn:Hp; [|reflexivity].
    exfalso. apply is_song_key in Hp. unfold song_key in Hp.
    injection Hp as Hm Hn. destruct Hr as [Hr|Hr]; [auto|].
    apply Hr. simpl. left. symmetry. exact Hn.
  - destruct Hr as [Hr|Hr]; [left; exact Hr|].
    right. intros C. apply Hr. simpl. right. exact C.
Qed.

(** X10.  The songs a document does not list.  On a session that serves
    every request, after a loadable document every song row of another
    movie, and every song row of its movie whose name the document's list
    does not have, is there as it was, ordinal included: the loader
    deletes no song and renumbers only the songs it lists. *)
Theorem unlisted_songs_stay f v cm w :
  fields f = Some v -> loadable f = true ->
  exists w1 mr,
    load_yaml_file f (session cm w) = (Ok tt, session w1 w1)
    /\ find (Sql.movie_named (f_movie_name v)) (movies w1) = Some mr
    /\ forall r,
        In r (songs w) ->
        Songs.movie_id r <> Movies.movie_id mr
        \/ ~ In (Songs.song_name r) (f_songs_order v) ->
        In r (songs w1).
Proof.
  intros Fv L.
  destruct (ingest_steps v w) as [mr [w1 [sm [w3 [M [F [S3 I4]]]]]]].
  exists (ingest v w), mr.
  split; [apply load_loadable; assumption|].
  assert (W1 : w1 = snd (movie_rows (f_movie_name v) (f_release_date v)
                                    (f_director v) (f_producer v)
                                    (f_music_director v) (f_lyricist v) w))
    by (rewrite M; reflexivity).
  pose proof (movie_rows_frame (f_movie_name v) (f_release_date v)
                (f_director v) (f_producer v) (f_music_director v)
                (f_lyricist v) w) as F1.
  cbv zeta in F1. rewrite <- W1 in F1. destruct F1 as [_ [_ [S1 _]]].
  destruct (cast_rows_frame (Movies.movie_id mr) (f_cast v) w1) as [M2 [S2 _]].
  assert (W3 : w3 = snd (song_rows (Movies.movie_id mr) (f_songs_order v)
                                   (cast_rows (Movies.movie_id mr) (f_cast v) w1)))
    by (rewrite S3; reflexivity).
  pose proof (song_rows_frame (Movies.movie_id mr) (f_songs_order v)
                (cast_rows (Movies.movie_id mr) (f_cast v) w1)) as F3.
  cbv zeta in F3. rewrite <- W3 in F3. destruct F3 as [M3 _].
  destruct (commentary_rows_frame (Movies.movie_id mr) (f_commentary_type v)
                                  sm (f_commentaries v) w3) as [M4 [_ [_ S4]]].
  cbv zeta in M4, S4. rewrite <- I4 in M4, S4.
  split; [rewrite M4, M3, M2; exact F|].
  intros r Hin Hr. rewrite S4, W3. unfold song_rows.
  apply song_fold_keeps.
  - rewrite S2, S1. exact Hin.
  - unfold enumerate1. rewrite map_snd_combine_seq. exact Hr.
Qed.

(* ================================================================== *)
(** * The row of a new movie *)

(** X11.  The row of a new movie.  On a session that serves every request,
    a loadable document whose movie name is in no row adds one row to the
    movies, last: it holds the document's name, director, producer, music
    director and lyricist and the parsed release date, under an identity
    no movie had. *)
Theorem new_movie_row_holds_document f v cm w :
  fields f = Some v -> loadable f = true ->
  find (Sql.movie_named (f_movie_name v)) (movies w) = None ->
  exists w1 mr,
    load_yaml_file f (session cm w) = (Ok tt, session w1 w1)
    /\ movies w1 = movies w ++ [mr]
    /\ ~ In (Movies.movie_id mr) (movie_ids w)
    /\ Movies.movie_name mr = f_movie_name v
    /\ Movies.release_date mr = f_release_date v
    /\ Movies.director mr = f_director v
    /\ Movies.producer mr = f_producer v
    /\ Movies.music_director mr = f_music_director v
    /\ Movies.lyricist mr = f_lyricist v.
Proof.
  intros Fv L Hnew.
  exists (ingest v w).
  eexists. split; [apply load_loadable; assumption|].
  rewrite ingest_movies. unfold Sql.insert_movie.
  assert (E : existsb (Sql.movie_named (f_movie_name v)) (movies w) = false).
  { destruct (existsb _ (movies w)) eqn:E; [|reflexivity].
    destruct (find_of_existsb _ _ _ E) as [x [Fx _]]. congruence. }
  rewrite E. simpl. split; [reflexivity|]. simpl.
  split; [apply fresh_not_in|]. repeat split.
Qed.

(* ================================================================== *)
(** * Reading back what was loaded *)

Lemma nth_error_combine_seq (A : Type) (l : list A) :
  forall start i x,
    nth_error l i = Some x ->
    nth_error (combine l (seq start (List.length l))) i = Some (x, start + i).
Proof.
  induction l as [|a l IH]; intros start [|i] x H; try discriminate.
  - simpl in *. injection H as ->. rewrite Nat.add_0_r. reflexivity.
  - simpl in *. rewrite (IH (S start) i x H). f_equal. f_equal. lia.
Qed.

Lemma in_combine_seq (A : Type) (l : list A) :
  forall start x k,
    In (x, k) (combine l (seq start (List.length l))) ->
    exists i, nth_error l i = Some x /\ k = start + i.
Proof.
  induction l as [|a l IH]; intros start x k H; [destruct H|].
  simpl in H. destruct H as [H|H].
  - injection H as -> ->. exists 0. split; [reflexivity|lia].
  - destruct (IH (S start) x k H) as [i [Hi Hk]].
    exists (S i). split; [exact Hi|lia].
Qed.

Lemma map_fst_combine_seq (A : Type) (l : list A) start :
  map fst (combine l (seq start (List.length l))) = l.
Proof.
  revert start. induction l as [|x tl IH]; intros start; simpl;
    [reflexivity|]. rewrite IH. reflexivity.
Qed.

Lemma combine_seq_sorted (A : Type) (l : list A) :
  forall start,
    StronglySorted (fun a b : A * nat => snd a < snd b)
                   (combine l (seq start (List.length l))).
Proof.
  induction l as [|a l IH]; intros start; simpl; constructor.
  - apply IH.
  - apply Forall_forall. intros [x k] Hin.
    destruct (in_combine_seq _ l (S start) x k Hin) as [i [_ ->]]. simpl. lia.
Qed.

(** A list in strictly increasing order of key has one ordering by key. *)
Lemma ordered_by_unique (A : Type) (key : A -> nat) :
  forall l res,
    StronglySorted (fun a b => key a < key b) l ->
    ordered_by key l res -> res = l.
Proof.
  intros l res Hl [P S].
  apply Sorted_StronglySorted in S;
    [|intros x y z Hxy Hyz; lia].
  revert res P S. induction Hl as [|a l Hl IH Ha]; intros res P S.
  - apply Permutation_nil in P. exact P.
  - destruct S as [|b res' S Hb].
    + apply Permutation_sym, Permutation_nil in P. discriminate.
    + assert (Hab : a = b).
      { assert (Ia : In a (b :: res'))
          by (apply (Permutation_in _ P); left; reflexivity).
        assert (Ib : In b (a :: l))
          by (apply (Permutation_in _ (Permutation_sym P)); left; reflexivity).
        destruct Ia as [Ia|Ia]; [auto|]. destruct Ib as [Ib|Ib]; [auto|].
        rewrite Forall_forall in Ha, Hb.
        specialize (Ha b Ib). specialize (Hb a Ia). lia. }
      subst b. f_equal. apply IH; [|exact S].
      apply Permutation_cons_inv with (a := a). exact P.
Qed.

(** The join of a song with the movies, when one movie has the name. *)
Lemma join_one_movie (A : Type) (x : A) name sid ms mr :
  NoDup (map Movies.movie_name ms) ->
  find (Sql.movie_named name) ms = Some mr ->
  flat_map (fun m => if (sid =? Movies.movie_id m)
                        && String.eqb (Movies.movie_name m) name
                     then [x] else []) ms
  = if sid =? Movies.movie_id mr then [x] else [].
Proof.
  induction ms as [|m ms IH]; intros N F; [discriminate|].
  inversion N as [|? ? Hm N']; subst. simpl in F. simpl flat_map.
  unfold Sql.movie_named at 1 in F.
  destruct (String.eqb (Movies.movie_name m) name) eqn:E.
  - injection F as <-. rewrite andb_true_r.
    assert (Rest : flat_map
                     (fun m0 => if (sid =? Movies.movie_id m0)
                                   && String.eqb (Movies.movie_name m0) name
                                then [x] else []) ms = []).
    { apply String.eqb_eq in E. clear IH N N'.
      induction ms as [|m' ms IH']; [reflexivity|]. simpl.
      destruct (String.eqb (Movies.movie_name m') name) eqn:E'.
      - exfalso. apply Hm. left. apply String.eqb_eq in E'. congruence.
      - rewrite andb_false_r. simpl. apply IH'.
        intros C. apply Hm. right. exact C. }
    rewrite Rest, app_nil_r. reflexivity.
  - rewrite andb_false_r. simpl. apply IH; assumption.
Qed.

Lemma movie_songs_rows_filter name db mr :
  NoDup (map Movies.movie_name (movies db)) ->
  find (Sql.movie_named name) (movies db) = Some mr ->
  MovieDatabase.movie_songs_rows name db
  = map (fun s => (Songs.song_name s, Songs.song_order s))
        (filter (fun s => Songs.movie_id s =? Movies.movie_id mr) (songs db)).
Proof.
  intros N F. unfold MovieDatabase.movie_songs_rows.
  induction (songs db) as [|s tl IH]; [reflexivity|].
  simpl. rewrite IH, (join_one_movie _ _ name _ (movies db) mr N F).
  destruct (Songs.movie_id s =? Movies.movie_id mr); reflexivity.
Qed.

Lemma upsert_song_origin movie_id name idx w r :
  In r (songs (snd (Sql.upsert_song movie_id name idx w))) ->
  (exists r0, In r0 (songs w) /\ song_ident r0 = song_ident r)
  \/ song_key r = (movie_id, name).
Proof.
  unfold Sql.upsert_song.
  destruct (find (Sql.is_song movie_id name) (songs w)) as [rf|]; simpl;
    intros H.
  - apply in_map_iff in H. destruct H as [r0 [<- Hin]].
    left. exists r0. split; [exact Hin|]. symmetry. apply set_order_ident.
  - apply in_app_or in H. destruct H as [H|[<-|[]]].
    + left. exists r. auto.
    + right. reflexivity.
Qed.

(** A song row after the song loop was there before, up to its ordinal, or
    is one of the movie with a name of the list. *)
Lemma song_fold_origin movie_id xs r :
  forall sm w,
    In r (songs (snd (fold_left (song_step movie_id) xs (sm, w)))) ->
    (exists r0, In r0 (songs w) /\ song_ident r0 = song_ident r)
    \/ (Songs.movie_id r = movie_id /\ In (Songs.song_name r) (map snd xs)).
Proof.
  induction xs as [|[idx name] tl IH]; intros sm w H.
  - left. exists r. auto.
  - cbn [fold_left] in H.
    destruct (song_step movie_id (sm, w) (idx, name)) as [sm1 w1] eqn:E.
    assert (W1 : w1 = snd (Sql.upsert_song movie_id name idx w)).
    { rewrite <- song_step_snd with (sm := sm). rewrite E. reflexivity. }
    destruct (IH sm1 w1 H) as [[r1 [Hin1 Hid1]]|[Hm Hn]].
    + rewrite W1 in Hin1. apply upsert_song_origin in Hin1.
      destruct Hin1 as [[r0 [Hin0 Hid0]]|Hk].
      * left. exists r0. split; [exact Hin0|congruence].
      * right. apply song_ident_key in Hid1. rewrite Hk in Hid1.
        unfold song_key in Hid1. injection Hid1 as Hm Hn.
        split; [auto|]. simpl. left. exact Hn.
    + right. split; [exact Hm|]. simpl. right. exact Hn.
Qed.

Lemma names_of_movie_nodup movie_id l :
  NoDup (map song_key l) ->
  NoDup (map Songs.song_name
             (filter (fun s => Songs.movie_id s =? movie_id) l)).
Proof.
  induction l as [|a l IH]; intros N; simpl; [constructor|].
  inversion N as [|? ? Ha N']; subst.
  destruct (Songs.movie_id a =? movie_id) eqn:E; [|apply IH; exact N'].
  simpl. constructor; [|apply IH; exact N'].
  intros C. apply in_map_iff in C. destruct C as [s [Hn Hs]].
  apply filter_In in Hs. destruct Hs as [Hs Hm].
  apply Ha. apply in_map_iff. exists s. split; [|exact Hs].
  apply Nat.eqb_eq in E, Hm. unfold song_key. congruence.
Qed.

Lemma ingest_song_origin v w mr r :
  find (Sql.movie_named (f_movie_name v)) (movies (ingest v w)) = Some mr ->
  In r (songs (ingest v w)) ->
  (exists r0, In r0 (songs w) /\ song_ident r0 = song_ident r)
  \/ (Songs.movie_id r = Movies.movie_id mr
      /\ In (Songs.song_name r) (f_songs_order v)).
Proof.
  intros Fm Hin.
  destruct (ingest_steps v w) as [mr' [w1 [sm [w3 [M [F [S3 I4]]]]]]].
  assert (W1 : w1 = snd (movie_rows (f_movie_name v) (f_release_date v)
                                    (f_director v) (f_producer v)
                                    (f_music_director v) (f_lyricist v) w))
    by (rewrite M; reflexivity).
  pose proof (movie_rows_frame (f_movie_name v) (f_release_date v)
                (f_director v) (f_producer v) (f_music_director v)
                (f_lyricist v) w) as F1.
  cbv zeta in F1. rewrite <- W1 in F1. destruct F1 as [_ [_ [S1 _]]].
  destruct (cast_rows_frame (Movies.movie_id mr') (f_cast v) w1) as [M2 [S2 _]].
  assert (W3 : w3 = snd (song_rows (Movies.movie_id mr') (f_songs_order v)
                                   (cast_rows (Movies.movie_id mr') (f_cast v) w1)))
    by (rewrite S3; reflexivity).
  pose proof (song_rows_frame (Movies.movie_id mr') (f_songs_order v)
                (cast_rows (Movies.movie_id mr') (f_cast v) w1)) as F3.
  cbv zeta in F3. rewrite <- W3 in F3. destruct F3 as [M3 _].
  destruct (commentary_rows_frame (Movies.movie_id mr') (f_commentary_type v)
                                  sm (f_commentaries v) w3) as [M4 [_ [_ S4]]].
  cbv zeta in M4, S4. rewrite <- I4 in M4, S4.
  assert (mr' = mr) by (rewrite M4, M3, M2 in Fm; congruence). subst mr'.
  rewrite S4, W3 in Hin. unfold song_rows in Hin.
  apply song_fold_origin in Hin. unfold enumerate1 in Hin.
  rewrite map_snd_combine_seq, S2, S1 in Hin. exact Hin.
Qed.

Lemma StronglySorted_weaken (A : Type) (R R' : A -> A -> Prop) l :
  (forall a b, R a b -> R' a b) -> StronglySorted R l -> StronglySorted R' l.
Proof.
  intros H S. induction S as [|a l S IH Ha]; constructor; [exact IH|].
  apply Forall_forall. rewrite Forall_forall in Ha. auto.
Qed.

(** The song rows of a document's movie after the document, as the join
    of [get_movie_songs] has them: the names of the list, each with its
    place. *)
Lemma ingest_movie_songs_rows v w :
  unique_keys w -> references w -> NoDup (f_songs_order v) ->
  (forall m r,
      In m (movies w) -> Movies.movie_name m = f_movie_name v ->
      In r (songs w) -> Songs.movie_id r = Movies.movie_id m ->
      In (Songs.song_name r) (f_songs_order v)) ->
  Permutation (MovieDatabase.movie_songs_rows (f_movie_name v) (ingest v w))
              (combine (f_songs_order v)
                       (seq 1 (List.length (f_songs_order v)))).
Proof using.
  clear strptime_beyond_ascii.
  intros U R Nn Hall.
  destruct (ingest_songs v w (uk_song U)) as [mr [Fm [_ Hidx]]].
  pose proof (ingest_unique v w U) as U1.
  rewrite (movie_songs_rows_filter _ _ mr (uk_movie_name U1) Fm).
  assert (Last : forall i name,
             nth_error (f_songs_order v) i = Some name ->
             forall j, i < j -> nth_error (f_songs_order v) j <> Some name).
  { intros i name Hi j Hj C.
    assert (i = j); [|lia].
    apply (proj1 (NoDup_nth_error (f_songs_order v)) Nn).
    - apply nth_error_Some. rewrite Hi. discriminate.
    - congruence. }
  apply NoDup_Permutation.
  - apply (NoDup_map_inv fst). rewrite map_map. simpl.
    apply names_of_movie_nodup. apply (uk_song U1).
  - apply (NoDup_map_inv fst). rewrite map_fst_combine_seq. exact Nn.
  - intros [name k]. split.
    + intros Hx. apply in_map_iff in Hx. destruct Hx as [s [Hs Hin]].
      injection Hs as Hn Hk. apply filter_In in Hin. destruct Hin as [Hin Hm].
      apply Nat.eqb_eq in Hm.
      assert (Hname : In name (f_songs_order v)).
      { destruct (ingest_song_origin v w mr s Fm Hin)
          as [[r0 [Hin0 Hid0]]|[_ H]]; [|rewrite <- Hn; exact H].
        unfold song_ident in Hid0. injection Hid0 as _ Hm0 Hn0.
        destruct (proj1 (in_map_iff _ _ _) (ref_song R r0 Hin0))
          as [m0 [Hmid Hm0in]].
        assert (m0 = mr).
        { apply (NoDup_map_inj _ _ Movies.movie_id (movies (ingest v w)) m0 mr
                               (uk_movie_id U1)).
          - apply (prefix_in _ _ _ _ (g_movies (ingest_grows v w))). exact Hm0in.
          - apply find_some in Fm. tauto.
          - congruence. }
        subst m0. rewrite <- Hn, <- Hn0.
        apply (Hall mr r0 Hm0in); [|exact Hin0|congruence].
        apply find_some in Fm. apply movie_named_iff. tauto. }
      destruct (In_nth_error _ _ Hname) as [i Hi].
      destruct (Hidx i name Hi (Last i name Hi)) as [r [Hr [Ho _]]].
      assert (Hs : In s (filter (Sql.is_song (Movies.movie_id mr) name)
                                (songs (ingest v w)))).
      { apply filter_In. split; [exact Hin|]. apply is_song_key.
        unfold song_key. congruence. }
      rewrite Hr in Hs. destruct Hs as [<-|[]].
      apply (nth_error_In _ i).
      rewrite (nth_error_combine_seq _ _ 1 i name Hi). simpl. congruence.
    + intros Hx. apply in_combine_seq in Hx. destruct Hx as [i [Hi ->]].
      destruct (Hidx i name Hi (Last i name Hi)) as [r [Hr [Ho _]]].
      assert (Hin : In r (filter (Sql.is_song (Movies.movie_id mr) name)
                                 (songs (ingest v w))))
        by (rewrite Hr; left; reflexivity).
      apply filter_In in Hin. destruct Hin as [Hin Hp].
      apply is_song_key in Hp. unfold song_key in Hp. injection Hp as Hm Hn.
      apply in_map_iff. exists r. split.
      * simpl. congruence.
      * apply filter_In. split; [exact Hin|]. apply Nat.eqb_eq. exact Hm.
Qed.

(** X12.  Reading the songs back.  With the uniqueness and the
    foreign-key constraints holding at the start, on a session that
    serves every request: after a loadable document whose song list names
    no song twice, and which lists every song the store holds for its
    movie, [get_movie_songs] for the movie's name returns the list of the
    document, each name with its place counted from 1, in the order of
    the document; it can return nothing else. *)
Theorem loaded_songs_read_back f v cm w :
  fields f = Some v -> loadable f = true ->
  unique_keys w -> references w -> NoDup (f_songs_order v) ->
  (forall m r,
      In m (movies w) -> Movies.movie_name m = f_movie_name v ->
      In r (songs w) -> Songs.movie_id r = Movies.movie_id m ->
      In (Songs.song_name r) (f_songs_order v)) ->
  exists w1,
    load_yaml_file f (session cm w) = (Ok tt, session w1 w1)
    /\ forall result,
        MovieDatabase.get_movie_songs (f_movie_name v) w1 result
        <-> result = combine (f_songs_order v)
                             (seq 1 (List.length (f_songs_order v))).
Proof.
  intros Fv L U R Nn Hall. exists (ingest v w).
  split; [apply load_loadable; assumption|].
  pose proof (ingest_movie_songs_rows v w U R Nn Hall) as P.
  pose proof (combine_seq_sorted _ (f_songs_order v) 1) as S.
  intros result. unfold MovieDatabase.get_movie_songs. split.
  - intros [P0 S0]. apply (ordered_by_unique _ snd); [exact S|].
    split; [|exact S0].
    eapply Permutation_trans; [apply Permutation_sym; exact P|exact P0].
  - intros ->. split; [exact P|].
    apply StronglySorted_Sorted.
    apply (StronglySorted_weaken _ _ _ _ (fun a b => Nat.lt_le_incl _ _) S).
Qed.

(** A text is a row of the join of [get_movie_commentary] when a
    commentary row and a movie row meet its conditions. *)
Lemma movie_commentary_rows_in name ct lang db text :
  In text (MovieDatabase.movie_commentary_rows name ct lang db)
  <-> exists c m,
      In c (commentaries db) /\ In m (movies db)
      /\ Commentaries.movie_id c = Movies.movie_id m
      /\ Movies.movie_name m = name
      /\ Commentaries.song_id c = None
      /\ Commentaries.commentary_type c = ct
      /\ Commentaries.language c = lang
      /\ Commentaries.commentary_text c = text.
Proof.
  unfold MovieDatabase.movie_commentary_rows. rewrite in_flat_map. split.
  - intros [c [Hc H]]. apply in_flat_map in H. destruct H as [m [Hm H]].
    destruct (_ && _) eqn:E in H; [|destruct H].
    destruct H as [H|[]].
    repeat (apply andb_true_iff in E; destruct E as [E ?]).
    exists c, m. repeat split; try assumption.
    + apply Nat.eqb_eq. exact E.
    + apply String.eqb_eq. assumption.
    + destruct (Commentaries.song_id c); [discriminate|reflexivity].
    + apply String.eqb_eq. assumption.
    + apply String.eqb_eq. assumption.
  - intros [c [m [Hc [Hm [E1 [E2 [E3 [E4 [E5 E6]]]]]]]]].
    exists c. split; [exact Hc|]. apply in_flat_map. exists m.
    split; [exact Hm|].
    rewrite E1, E2, E3, E4, E5, E6, Nat.eqb_refl, !String.eqb_refl.
    simpl. left. reflexivity.
Qed.

(** The rows a language appends: each is of the movie, the kind and the
    language, and the one without a song holds the text of the first
    entry. *)
Lemma block_rows_in movie_id ct sm w lb r :
  In r (commentaries (block_rows movie_id ct sm w lb)) ->
  In r (commentaries w)
  \/ (row_of movie_id ct (fst lb) r
      /\ (Commentaries.song_id r = None ->
          exists k tl, snd lb = (k, Commentaries.commentary_text r) :: tl)).
Proof.
  destruct lb as [lang [|[k text] tl]]; [left; assumption|].
  destruct (block_rows_rows movie_id ct sm w lang k text tl)
    as [new [Hc [Hm Hf]]].
  intros H0.
  assert (H : In r (commentaries w ++ new)) by (rewrite <- Hc; exact H0).
  apply in_app_or in H. destruct H as [H|H]; [left; exact H|right].
  split; [apply (proj1 (Forall_forall _ _) Hf r H)|].
  intros Hnone. exists k, tl. simpl. f_equal. f_equal.
  assert (Hr : In (row_content r) (map row_content new))
    by (apply in_map; exact H).
  rewrite Hm in Hr. destruct Hr as [Hr|Hr].
  - unfold row_content in Hr. injection Hr as _ Ht. exact Ht.
  - exfalso. apply in_flat_map in Hr. destruct Hr as [e [_ He]].
    unfold song_entry_rows in He.
    destruct (dict_get (fst e) ((k, text) :: tl)); [|destruct He].
    destruct He as [He|[]]. unfold row_content in He.
    injection He as Hs _. congruence.
Qed.

Lemma block_rows_first movie_id ct sm w lang k text tl :
  exists r,
    In r (commentaries (block_rows movie_id ct sm w (lang, (k, text) :: tl)))
    /\ row_values r = (movie_id, None, ct, lang, text).
Proof.
  destruct (block_rows_rows movie_id ct sm w lang k text tl)
    as [new [Hc [Hm Hf]]].
  destruct new as [|r new]; [discriminate|].
  exists r. split.
  { assert (H : In r (commentaries w ++ r :: new))
      by (apply in_or_app; right; left; reflexivity).
    rewrite <- Hc in H. exact H. }
  destruct (Forall_inv Hf) as [R1 [R2 R3]].
  simpl in Hm. unfold row_content at 1 in Hm. injection Hm as C1 C2 _.
  unfold row_values. rewrite R1, R2, R3, C1, C2. reflexivity.
Qed.

Lemma commentary_rows_in movie_id ct sm blocks r :
  forall w,
    In r (commentaries (commentary_rows movie_id ct sm blocks w)) ->
    In r (commentaries w)
    \/ exists lb,
        In lb blocks /\ row_of movie_id ct (fst lb) r
        /\ (Commentaries.song_id r = None ->
            exists k tl, snd lb = (k, Commentaries.commentary_text r) :: tl).
Proof.
  unfold commentary_rows.
  induction blocks as [|lb tl IH]; intros w H; [left; exact H|].
  cbn [fold_left] in H. destruct (IH _ H) as [H1|[lb' [Hin H1]]].
  - apply block_rows_in in H1. destruct H1 as [H1|H1]; [left; exact H1|].
    right. exists lb. split; [left; reflexivity|exact H1].
  - right. exists lb'. split; [right; exact Hin|exact H1].
Qed.

Lemma commentary_rows_first movie_id ct sm blocks lang k text tl :
  forall w,
    In (lang, (k, text) :: tl) blocks ->
    exists r,
      In r (commentaries (commentary_rows movie_id ct sm blocks w))
      /\ row_values r = (movie_id, None, ct, lang, text).
Proof.
  unfold commentary_rows.
  induction blocks as [|lb rest IH]; intros w H; [destruct H|].
  cbn [fold_left]. destruct H as [->|H]; [|apply IH; exact H].
  destruct (block_rows_first movie_id ct sm w lang k text tl) as [r [Hin Hv]].
  exists r. split; [|exact Hv].
  apply (prefix_in _ _ _ _
           (g_commentaries
              (commentary_rows_grows movie_id ct sm rest
                 (block_rows movie_id ct sm w (lang, (k, text) :: tl))))).
  exact Hin.
Qed.

(** X13.  Reading the movie commentary back.  With the uniqueness and the
    foreign-key constraints holding at the start, on a session that
    serves every request: after a loadable document that has each
    language once, [get_movie_commentary] for the movie's name, the
    document's kind and one of its languages returns the text of the
    first entry of that language, provided the movie-level rows the store
    held for the movie, the kind and the language have that text; it
    returns nothing else, and not [None]. *)
Theorem loaded_movie_commentary_read_back f v cm w lang k text tl :
  fields f = Some v -> loadable f = true ->
  unique_keys w -> references w ->
  NoDup (map fst (f_commentaries v)) ->
  In (lang, (k, text) :: tl) (f_commentaries v) ->
  (forall m c,
      In m (movies w) -> Movies.movie_name m = f_movie_name v ->
      In c (commentaries w) ->
      Commentaries.movie_id c = Movies.movie_id m ->
      Commentaries.song_id c = None ->
      Commentaries.commentary_type c = f_commentary_type v ->
      Commentaries.language c = lang ->
      Commentaries.commentary_text c = text) ->
  exists w1,
    load_yaml_file f (session cm w) = (Ok tt, session w1 w1)
    /\ forall result,
        MovieDatabase.get_movie_commentary (f_movie_name v)
                                           (f_commentary_type v) lang w1 result
        <-> result = Some text.
Proof.
  intros Fv L U R Nl Hb Hold. exists (ingest v w).
  split; [apply load_loadable; assumption|].
  destruct (ingest_steps v w) as [mr [w1 [sm [w3 [M [F [S3 I4]]]]]]].
  pose proof (ingest_unique v w U) as U1.
  assert (W1 : w1 = snd (movie_rows (f_movie_name v) (f_release_date v)
                                    (f_director v) (f_producer v)
                                    (f_music_director v) (f_lyricist v) w))
    by (rewrite M; reflexivity).
  pose proof (movie_rows_frame (f_movie_name v) (f_release_date v)
                (f_director v) (f_producer v) (f_music_director v)
                (f_lyricist v) w) as F1.
  cbv zeta in F1. rewrite <- W1 in F1. destruct F1 as [_ [_ [_ C1]]].
  destruct (cast_rows_frame (Movies.movie_id mr) (f_cast v) w1) as [M2 [_ C2]].
  assert (W3 : w3 = snd (song_rows (Movies.movie_id mr) (f_songs_order v)
                                   (cast_rows (Movies.movie_id mr) (f_cast v) w1)))
    by (rewrite S3; reflexivity).
  pose proof (song_rows_frame (Movies.movie_id mr) (f_songs_order v)
                (cast_rows (Movies.movie_id mr) (f_cast v) w1)) as F3.
  cbv zeta in F3. rewrite <- W3 in F3. destruct F3 as [M3 [_ [_ C3]]].
  destruct (commentary_rows_frame (Movies.movie_id mr) (f_commentary_type v)
                                  sm (f_commentaries v) w3) as [M4 _].
  cbv zeta in M4. rewrite <- I4 in M4.
  assert (Fm : find (Sql.movie_named (f_movie_name v)) (movies (ingest v w))
               = Some mr) by (rewrite M4, M3, M2; exact F).
  pose proof (find_some _ _ Fm) as [Hmr Hname].
  apply movie_named_iff in Hname.
  assert (Hin : In text (MovieDatabase.movie_commentary_rows
                           (f_movie_name v) (f_commentary_type v) lang
                           (ingest v w))).
  { apply movie_commentary_rows_in.
    destruct (commentary_rows_first (Movies.movie_id mr) (f_commentary_type v)
                sm (f_commentaries v) lang k text tl w3 Hb) as [r [Hr Hv]].
    rewrite <- I4 in Hr. unfold row_values in Hv.
    injection Hv as V1 V2 V3 V4 V5.
    exists r, mr. repeat split; assumption. }
  assert (Only : forall t,
             In t (MovieDatabase.movie_commentary_rows
                     (f_movie_name v) (f_commentary_type v) lang (ingest v w)) ->
             t = text).
  { intros t Ht. apply movie_commentary_rows_in in Ht.
    destruct Ht as [c [m [Hc [Hm [E1 [E2 [E3 [E4 [E5 E6]]]]]]]]].
    assert (m = mr).
    { apply (NoDup_map_inj _ _ Movies.movie_name (movies (ingest v w)) m mr
                           (uk_movie_name U1) Hm Hmr). congruence. }
    subst m. rewrite I4 in Hc. apply commentary_rows_in in Hc.
    destruct Hc as [Hc|[lb [Hlb [[_ [_ Rl]] Hfirst]]]].
    - rewrite C3, C2, C1 in Hc. rewrite <- E6.
      destruct (proj1 (in_map_iff _ _ _) (ref_commentary R c Hc))
        as [m0 [Hmid Hm0]].
      assert (m0 = mr).
      { apply (NoDup_map_inj _ _ Movies.movie_id (movies (ingest v w)) m0 mr
                             (uk_movie_id U1)).
        - apply (prefix_in _ _ _ _ (g_movies (ingest_grows v w))). exact Hm0.
        - exact Hmr.
        - congruence. }
      subst m0. apply (Hold mr c); assumption.
    - destruct (Hfirst E3) as [k' [tl' Hs]].
      assert (lb = (lang, (k, text) :: tl)).
      { apply (NoDup_map_inj _ _ fst (f_commentaries v) _ _ Nl Hlb Hb).
        simpl. congruence. }
      subst lb. simpl in Hs. injection Hs as _ Ht _. congruence. }
  intros [t|]; simpl; split.
  - intros Ht. f_equal. apply Only. exact Ht.
  - intros Ht. injection Ht as ->. exact Hin.
  - intros Hnil. rewrite Hnil in Hin. destruct Hin.
  - discriminate.
Qed.

(* ================================================================== *)
(** * Failures and the batch *)




(** What a document leaves in the rows: its movie, each member of its
    cast associated with the movie, a song row of the movie for each name
    of its list, and the movie-level row of each language. *)
Lemma ingest_written v w :
  exists mr,
    find (Sql.movie_named (f_movie_name v)) (movies (ingest v w)) = Some mr
    /\ (forall name, In name (f_cast v) ->
          exists cr,
            find (Sql.cast_named name) (cast_members (ingest v w)) = Some cr
            /\ existsb (Sql.is_pair (Movies.movie_id mr)
                                    (CastMembers.cast_id cr))
                       (movie_cast (ingest v w)) = true)
    /\ (forall name, In name (f_songs_order v) ->
          exists sr, In sr (songs (ingest v w))
                     /\ song_key sr = (Movies.movie_id mr, name))
    /\ (forall lang k text tl,
          In (lang, (k, text) :: tl) (f_commentaries v) ->
          exists r, In r (commentaries (ingest v w))
                    /\ row_values r
                       = (Movies.movie_id mr, None, f_commentary_type v,
                          lang, text)).
Proof.
  destruct (ingest_steps v w) as [mr [w1 [sm [w3 [M [F [S3 I4]]]]]]].
  exists mr.
  destruct (cast_rows_frame (Movies.movie_id mr) (f_cast v) w1) as [M2 _].
  assert (W3 : w3 = snd (song_rows (Movies.movie_id mr) (f_songs_order v)
                                   (cast_rows (Movies.movie_id mr) (f_cast v) w1)))
    by (rewrite S3; reflexivity).
  pose proof (song_rows_frame (Movies.movie_id mr) (f_songs_order v)
                (cast_rows (Movies.movie_id mr) (f_cast v) w1)) as F3.
  cbv zeta in F3. rewrite <- W3 in F3. destruct F3 as [M3 [CM3 [MC3 _]]].
  destruct (commentary_rows_frame (Movies.movie_id mr) (f_commentary_type v)
                                  sm (f_commentaries v) w3)
    as [M4 [CM4 [MC4 S4]]].
  cbv zeta in M4, CM4, MC4, S4. rewrite <- I4 in M4, CM4, MC4, S4.
  split; [rewrite M4, M3, M2; exact F|]. split; [|split].
  - intros name Hin.
    destruct (cast_rows_resolves (Movies.movie_id mr) (f_cast v) w1 name Hin)
      as [cr [Fc P]].
    exists cr. rewrite CM4, CM3, MC4, MC3. auto.
  - intros name Hin.
    destruct (song_rows_exists (Movies.movie_id mr) (f_songs_order v)
                (cast_rows (Movies.movie_id mr) (f_cast v) w1) name Hin)
      as [sr [Hsr Hk]].
    exists sr. rewrite S4, W3. auto.
  - intros lang k text tl Hin. rewrite I4.
    apply (commentary_rows_first (Movies.movie_id mr) (f_commentary_type v)
             sm (f_commentaries v) lang k text tl w3 Hin).
Qed.




(** C10, as the code has it.  A document with an empty language raises on
    every session, and the call commits nothing.  On a session that serves
    every request, when the document has every field and no string of it
    holds a NUL character, the error is the [IndexError] of the empty
    language, and the session stays healthy.  What the document wrote
    before stays in the open transaction: the rows the transaction sees
    are those of the document cut before its first empty language, that
    is, the movie row, a row and an association with the movie for each
    member of the cast, a song row of the movie for each name of the song
    list, and the commentary rows of the languages before the empty one,
    the movie-level row of each among them. *)
Theorem empty_language_raises f data bl :
  Yaml.content f = Some data -> Yaml.commentaries data = Some bl ->
  forallb (fun lb => nonempty (snd lb)) bl = false ->
  (forall c, exists e c',
        load_yaml_file f c = (Raise e, c') /\ committed c' = committed c)
  /\ (forall v cm w,
         fields f = Some v -> clean_fields v = true ->
         exists w' mr,
           load_yaml_file f (session cm w) = (Raise IndexError, session cm w')
           /\ w' = ingest (cut_at_empty v) w
           /\ grows w w'
           /\ find (Sql.movie_named (f_movie_name v)) (movies w') = Some mr
           /\ (forall name, In name (f_cast v) ->
                 exists cr,
                   find (Sql.cast_named name) (cast_members w') = Some cr
                   /\ existsb (Sql.is_pair (Movies.movie_id mr)
                                           (CastMembers.cast_id cr))
                              (movie_cast w') = true)
           /\ (forall name, In name (f_songs_order v) ->
                 exists sr, In sr (songs w')
                            /\ song_key sr = (Movies.movie_id mr, name))
           /\ (forall lang k text tl,
                 In (lang, (k, text) :: tl) (before_empty bl) ->
                 exists r, In r (commentaries w')
                           /\ row_values r
                              = (Movies.movie_id mr, None,
                                 f_commentary_type v, lang, text))).
Proof.
  intros Hd Hbl He. split.
  - intros c. destruct (load_empty_block_raises f data bl c Hd Hbl He)
      as [e [c' H]].
    exists e, c'. split; [exact H|apply (load_raise_committed f c e c' H)].
  - intros v cm w Fv Hc.
    assert (Hv : f_commentaries v = bl).
    { destruct (fields_inv f v Fv) as [p [t [-> _]]].
      simpl in Hd. injection Hd as <-. simpl in Hbl. injection Hbl as <-.
      reflexivity. }
    destruct (ingest_written (cut_at_empty v) w) as [mr [Fm [Hcast [Hsong Hrow]]]].
    exists (ingest (cut_at_empty v) w), mr.
    split; [apply load_session_empty_block;
            [exact Fv|rewrite Hv; exact He|exact Hc]|].
    split; [reflexivity|]. split; [apply ingest_grows|].
    split; [exact Fm|]. split; [exact Hcast|]. split; [exact Hsong|].
    intros lang k text tl Hin. apply (Hrow lang k text tl).
    simpl. rewrite Hv. exact Hin.
Qed.

End Library.

(* ================================================================== *)
(** * The loader at work *)

Example strptime_ok :
  Strptime.strptime "12 December 1970" = Some (Strptime.mkDate 1970 12 12).
Proof. reflexivity. Qed.

Example strptime_one_digit :
  Strptime.strptime "3 march 2001" = Some (Strptime.mkDate 2001 3 3).
Proof. reflexivity. Qed.

Example strptime_iso_refused : Strptime.strptime "1970-12-12" = None.
Proof. reflexivity. Qed.

Example strptime_no_such_day : Strptime.strptime "30 February 2000" = None.
Proof. reflexivity. Qed.

(** The end-to-end scenario: one movie, two cast members, two songs with
    ordinals 1 and 2, a movie-level commentary and one for the first
    song. *)
Example end_to_end :
  let db := committed (snd (main Strptime.refuse [aan_milo_sajna] (connect empty_db []))) in
  map Movies.movie_name (movies db) = ["Aan Milo Sajna"]
  /\ map CastMembers.cast_name (cast_members db)
     = ["Rajesh Khanna"; "Mala Sinha"]
  /\ map (fun r => (Songs.song_name r, Songs.song_order r)) (songs db)
     = [("Achha To Hum Chalte Hain", 1); ("Jo Tumko Ho Pasand", 2)]
  /\ map row_content (commentaries db)
     = [(None, "<movie text>"); (Some 1, "<song text>")].
Proof. vm_compute. auto. Qed.

(** Commentaries are appended again by a second ingestion. *)
Example commentaries_append_only :
  let db := committed (snd (main Strptime.refuse [aan_milo_sajna; aan_milo_sajna]
                                 (connect empty_db []))) in
  map row_content (commentaries db)
  = [(None, "<movie text>"); (Some 1, "<song text>");
     (None, "<movie text>"); (Some 1, "<song text>")].
Proof. vm_compute. reflexivity. Qed.

Lemma unique_keys_empty : unique_keys empty_db.
Proof. constructor; simpl; constructor. Qed.

Lemma references_empty : references empty_db.
Proof. constructor; simpl; intros; contradiction. Qed.

(** C1 fails as stated: the one entry of the block of [bobby], first in
    its block and the name of a song, gives two rows. *)
Lemma bobby_entry_gives_two_rows :
  Yaml.content bobby
  = Some (Yaml.mkDocument (Some (example_metadata "Bobby" ["Rishi Kapoor"]))
                          (Some ["Bobby"]) (Some "long")
                          (Some [("Hindi", [("Bobby", "<text>")])]))
  /\ fst (load_yaml_file Strptime.refuse bobby (connect empty_db [])) = Ok tt
  /\ map row_content
         (commentaries
            (committed (snd (load_yaml_file Strptime.refuse bobby (connect empty_db [])))))
     = [(None, "<text>"); (Some 1, "<text>")].
Proof. vm_compute. auto. Qed.





(** C10 fails as stated: the rows of [empty_language] are committed by
    the file that follows it. *)
Lemma empty_language_rows_committed :
  fst (main Strptime.refuse [empty_language; kati_patang] (connect empty_db []))
  = [("empty_language.yaml", Some IndexError); ("kati_patang.yaml", None)]
  /\ map Movies.movie_name
         (movies (committed (snd (main Strptime.refuse [empty_language; kati_patang]
                                       (connect empty_db [])))))
     = ["Amar Prem"; "Kati Patang"]
  /\ map Songs.song_name
         (songs (committed (snd (main Strptime.refuse [empty_language; kati_patang]
                                      (connect empty_db [])))))
     = ["Chingari Koi Bhadke"; "Ye Shaam Mastani"].
Proof. vm_compute. auto. Qed.

(* ================================================================== *)
(** * The theorems at work *)

Ltac distinct_strings :=
  repeat (constructor;
          [simpl; intros H;
           repeat (destruct H as [H|H]; [discriminate H|]); exact H|]);
  constructor.

Lemma commentary_rows_of_entries_witness :
  exists w' news,
    insert_commentaries
      1 (Some "long") [("Achha To Hum Chalte Hain", 1)]
      [("Hindi", [("Aan Milo Sajna", "<movie text>");
                  ("Achha To Hum Chalte Hain", "<song text>")])]
      (session empty_db empty_db)
    = (Ok tt, session empty_db w')
    /\ commentaries w' = List.concat news.
Proof.
  destruct (commentary_rows_of_entries
              1 "long" [("Achha To Hum Chalte Hain", 1)]
              [("Hindi", [("Aan Milo Sajna", "<movie text>");
                          ("Achha To Hum Chalte Hain", "<song text>")])]
              empty_db empty_db) as [[w' [news [H1 [H2 _]]]] _].
  - distinct_strings.
  - constructor; [|constructor]. split; [|reflexivity]. distinct_strings.
  - reflexivity.
  - reflexivity.
  - exists w', news. split; [exact H1|exact H2].
Defined.



Lemma movie_resolution_idempotent_witness :
  exists c',
    load_times Strptime.refuse 3 aan_milo_sajna (session empty_db empty_db)
    = ([Ok tt; Ok tt; Ok tt], c')
    /\ count_movies "Aan Milo Sajna" (committed c') = 1.
Proof.
  apply (movie_resolution_idempotent Strptime.refuse
           2 aan_milo_sajna
           (example_fields "Aan Milo Sajna" ["Rajesh Khanna"; "Mala Sinha"]
              ["Achha To Hum Chalte Hain"; "Jo Tumko Ho Pasand"]
              [("Hindi", [("Aan Milo Sajna", "<movie text>");
                          ("Achha To Hum Chalte Hain", "<song text>")])])
           empty_db empty_db).
  - vm_compute. reflexivity.
  - vm_compute. reflexivity.
  - simpl. constructor.
Defined.


Lemma cast_members_shared_witness :
  exists w1 w2,
    load_yaml_file Strptime.refuse aan_milo_sajna (session empty_db empty_db)
    = (Ok tt, session w1 w1)
    /\ load_yaml_file Strptime.refuse kati_patang (session w1 w1) = (Ok tt, session w2 w2)
    /\ count_cast_members "Rajesh Khanna" w2 = 1.
Proof.
  destruct (cast_members_shared Strptime.refuse
              aan_milo_sajna
              (example_fields "Aan Milo Sajna" ["Rajesh Khanna"; "Mala Sinha"]
                 ["Achha To Hum Chalte Hain"; "Jo Tumko Ho Pasand"]
                 [("Hindi", [("Aan Milo Sajna", "<movie text>");
                             ("Achha To Hum Chalte Hain", "<song text>")])])
              kati_patang
              (example_fields "Kati Patang" ["Rajesh Khanna"; "Asha Parekh"]
                 ["Ye Shaam Mastani"]
                 [("Hindi", [("Kati Patang", "<movie text>")])])
              "Rajesh Khanna" empty_db empty_db)
    as [w1 [w2 [cr [m1 [m2 [L1 [L2 [C _]]]]]]]].
  - vm_compute. reflexivity.
  - vm_compute. reflexivity.
  - vm_compute. reflexivity.
  - vm_compute. reflexivity.
  - simpl. auto.
  - simpl. auto.
  - simpl. discriminate.
  - constructor; simpl; constructor.
  - exists w1, w2. auto.
Defined.


Lemma movie_row_never_mutated_witness :
  exists c',
    load_yaml_file Strptime.refuse aan_milo_sajna (session store_with_movie store_with_movie)
    = (Ok tt, c')
    /\ movies (committed c') = movies store_with_movie.
Proof.
  destruct (movie_row_never_mutated Strptime.refuse
              aan_milo_sajna
              (example_fields "Aan Milo Sajna" ["Rajesh Khanna"; "Mala Sinha"]
                 ["Achha To Hum Chalte Hain"; "Jo Tumko Ho Pasand"]
                 [("Hindi", [("Aan Milo Sajna", "<movie text>");
                             ("Achha To Hum Chalte Hain", "<song text>")])])
              store_with_movie store_with_movie
              (Movies.mk 7 "Aan Milo Sajna" (Strptime.mkDate 1971 1 1)
                         "someone" "someone else" "a third" "a fourth"))
    as [c' [L [Mv _]]].
  - vm_compute. reflexivity.
  - vm_compute. reflexivity.
  - vm_compute. reflexivity.
  - exists c'. auto.
Defined.


Lemma empty_language_raises_witness :
  (exists e c',
      load_yaml_file Strptime.refuse empty_language (connect empty_db [])
      = (Raise e, c')
      /\ committed c' = empty_db)
  /\ (exists w',
         load_yaml_file Strptime.refuse empty_language
                        (session empty_db empty_db)
         = (Raise IndexError, session empty_db w')
         /\ map Movies.movie_name (movies w') = ["Amar Prem"]
         /\ map Songs.song_name (songs w') = ["Chingari Koi Bhadke"]
         /\ commentaries w' = []).
Proof.
  destruct (empty_language_raises Strptime.refuse
              empty_language
              (Yaml.mkDocument
                 (Some (example_metadata "Amar Prem" ["Sharmila Tagore"]))
                 (Some ["Chingari Koi Bhadke"]) (Some "long")
                 (Some [("Hindi", [])]))
              [("Hindi", [])]) as [H1 H2].
  - reflexivity.
  - reflexivity.
  - reflexivity.
  - split.
    + destruct (H1 (connect empty_db [])) as [e [c' [L C]]].
      exists e, c'. auto.
    + destruct (H2 (example_fields "Amar Prem" ["Sharmila Tagore"]
                                   ["Chingari Koi Bhadke"] [("Hindi", [])])
                   empty_db empty_db) as [w' [mr [L [E _]]]].
      * vm_compute. reflexivity.
      * vm_compute. reflexivity.
      * exists w'. split; [exact L|]. rewrite E. vm_compute. auto.
Defined.

(* ================================================================== *)
(** * The theorems above at the example documents *)

Lemma load_outcome_by_document_witness :
  exists w',
    load_yaml_file Strptime.refuse no_songs_order (session empty_db empty_db)
    = (Raise (KeyError "songs_order"), session empty_db w')
    /\ grows empty_db w'.
Proof.
  apply (load_outcome_by_document Strptime.refuse
           no_songs_order empty_db empty_db).
  vm_compute. reflexivity.
Defined.

Lemma header_error_touches_nothing_witness :
  load_yaml_file Strptime.refuse iso_date (connect empty_db [Some Reject])
  = (Raise ValueError, connect empty_db [Some Reject])
  /\ raised_by_store ValueError = false.
Proof.
  apply (header_error_touches_nothing Strptime.refuse
           iso_date ValueError (connect empty_db [Some Reject])).
  - reflexivity.
  - simpl. discriminate.
Defined.

Lemma aborted_batch_never_recovers_witness :
  main_loop Strptime.refuse [iso_date; aan_milo_sajna] aborted_session
  = ([("iso_date.yaml", Some ValueError);
      ("aan_milo_sajna.yaml", Some InFailedSqlTransaction)],
     aborted_session).
Proof.
  apply (aborted_batch_never_recovers Strptime.refuse [iso_date; aan_milo_sajna]
                                      aborted_session).
  reflexivity.
Defined.

Lemma batch_keeps_unique_keys_witness :
  unique_keys
    (committed (snd (main_loop Strptime.refuse [aan_milo_sajna; no_songs_order; kati_patang]
                               (connect empty_db [None; Some Reject]))))
  /\ unique_keys
       (working (snd (main_loop Strptime.refuse [aan_milo_sajna; no_songs_order; kati_patang]
                                (connect empty_db [None; Some Reject])))).
Proof.
  apply (batch_keeps_unique_keys Strptime.refuse
           [aan_milo_sajna; no_songs_order; kati_patang]
           empty_db [None; Some Reject]).
  constructor; simpl; constructor.
Defined.

Lemma success_commits_all_pending_witness :
  status (snd (load_yaml_file Strptime.refuse aan_milo_sajna (session empty_db store_with_movie)))
  = Ready
  /\ committed (snd (load_yaml_file Strptime.refuse aan_milo_sajna
                                    (session empty_db store_with_movie)))
     = working (snd (load_yaml_file Strptime.refuse aan_milo_sajna
                                    (session empty_db store_with_movie)))
  /\ grows store_with_movie
           (committed (snd (load_yaml_file Strptime.refuse aan_milo_sajna
                                           (session empty_db store_with_movie)))).
Proof.
  apply (success_commits_all_pending Strptime.refuse
           aan_milo_sajna (session empty_db store_with_movie)
           (snd (load_yaml_file Strptime.refuse aan_milo_sajna
                                (session empty_db store_with_movie)))).
  vm_compute. reflexivity.
Defined.

Lemma reingestion_duplicates_commentaries_witness :
  exists w1 w2 new1 new2,
    load_yaml_file Strptime.refuse aan_milo_sajna (session empty_db empty_db)
    = (Ok tt, session w1 w1)
    /\ load_yaml_file Strptime.refuse aan_milo_sajna (session w1 w1) = (Ok tt, session w2 w2)
    /\ movies w2 = movies w1 /\ cast_members w2 = cast_members w1
    /\ movie_cast w2 = movie_cast w1 /\ songs w2 = songs w1
    /\ commentaries w1 = commentaries empty_db ++ new1
    /\ commentaries w2 = commentaries w1 ++ new2
    /\ map row_values new2 = map row_values new1
    /\ NoDup (map Commentaries.commentary_id new2)
    /\ (forall r, In r new2 ->
         ~ In (Commentaries.commentary_id r)
              (map Commentaries.commentary_id (commentaries w1)))
    /\ List.length (f_commentaries aan_milo_sajna_fields) <= List.length new2.
Proof.
  apply (reingestion_duplicates_commentaries Strptime.refuse
           aan_milo_sajna aan_milo_sajna_fields empty_db empty_db).
  - vm_compute. reflexivity.
  - vm_compute. reflexivity.
  - constructor; simpl; constructor.
Defined.

Lemma release_date_without_space_raises_witness :
  load_yaml_file Strptime.refuse iso_date (session empty_db empty_db)
  = (Raise ValueError, session empty_db empty_db).
Proof.
  apply (release_date_without_space_raises Strptime.refuse
           iso_date iso_date_document iso_date_metadata "1970-12-25"
           (session empty_db empty_db)).
  - reflexivity.
  - reflexivity.
  - reflexivity.
  - vm_compute. reflexivity.
  - vm_compute. reflexivity.
  - simpl. discriminate.
Defined.

Lemma unlisted_songs_stay_witness :
  exists w1 mr,
    load_yaml_file Strptime.refuse aan_milo_sajna (session store_with_songs store_with_songs)
    = (Ok tt, session w1 w1)
    /\ find (Sql.movie_named (f_movie_name aan_milo_sajna_fields)) (movies w1)
       = Some mr
    /\ forall r,
        In r (songs store_with_songs) ->
        Songs.movie_id r <> Movies.movie_id mr
        \/ ~ In (Songs.song_name r) (f_songs_order aan_milo_sajna_fields) ->
        In r (songs w1).
Proof.
  apply (unlisted_songs_stay Strptime.refuse aan_milo_sajna aan_milo_sajna_fields
                             store_with_songs store_with_songs).
  - vm_compute. reflexivity.
  - vm_compute. reflexivity.
Defined.

Lemma new_movie_row_holds_document_witness :
  exists w1 mr,
    load_yaml_file Strptime.refuse aan_milo_sajna (session empty_db empty_db)
    = (Ok tt, session w1 w1)
    /\ movies w1 = movies empty_db ++ [mr]
    /\ ~ In (Movies.movie_id mr) (movie_ids empty_db)
    /\ Movies.movie_name mr = f_movie_name aan_milo_sajna_fields
    /\ Movies.release_date mr = f_release_date aan_milo_sajna_fields
    /\ Movies.director mr = f_director aan_milo_sajna_fields
    /\ Movies.producer mr = f_producer aan_milo_sajna_fields
    /\ Movies.music_director mr = f_music_director aan_milo_sajna_fields
    /\ Movies.lyricist mr = f_lyricist aan_milo_sajna_fields.
Proof.
  apply (new_movie_row_holds_document Strptime.refuse aan_milo_sajna aan_milo_sajna_fields
                                      empty_db empty_db).
  - vm_compute. reflexivity.
  - vm_compute. reflexivity.
  - reflexivity.
Defined.

Lemma loaded_songs_read_back_witness :
  exists w1,
    load_yaml_file Strptime.refuse aan_milo_sajna (session empty_db empty_db)
    = (Ok tt, session w1 w1)
    /\ forall result,
        MovieDatabase.get_movie_songs "Aan Milo Sajna" w1 result
        <-> result = [("Achha To Hum Chalte Hain", 1);
                      ("Jo Tumko Ho Pasand", 2)].
Proof.
  apply (loaded_songs_read_back Strptime.refuse aan_milo_sajna aan_milo_sajna_fields
                                empty_db empty_db).
  - vm_compute. reflexivity.
  - vm_compute. reflexivity.
  - constructor; simpl; constructor.
  - constructor; simpl; intros; contradiction.
  - simpl. constructor.
    + simpl. intros [H|[]]. discriminate.
    + constructor; [simpl; tauto|constructor].
  - simpl. intros m r [].
Defined.

Lemma loaded_movie_commentary_read_back_witness :
  exists w1,
    load_yaml_file Strptime.refuse aan_milo_sajna (session empty_db empty_db)
    = (Ok tt, session w1 w1)
    /\ forall result,
        MovieDatabase.get_movie_commentary "Aan Milo Sajna" "long" "Hindi"
                                           w1 result
        <-> result = Some "<movie text>".
Proof.
  apply (loaded_movie_commentary_read_back Strptime.refuse
           aan_milo_sajna aan_milo_sajna_fields empty_db empty_db
           "Hindi" "Aan Milo Sajna" "<movie text>"
           [("Achha To Hum Chalte Hain", "<song text>")]).
  - vm_compute. reflexivity.
  - vm_compute. reflexivity.
  - constructor; simpl; constructor.
  - constructor; simpl; intros; contradiction.
  - simpl. constructor; [simpl; tauto|constructor].
  - simpl. left. reflexivity.
  - simpl. intros m c [].
Defined.
